(** * esptool.py: serial framing, command status, erase sizing and image layout

    A shallow embedding of the parts of [esptool.py] that decide the
    properties checked below.  Python [bytes] are [list byte], Python
    integers are [Z], raised exceptions are the [Err] side of [result],
    and every class of the source is a module of the same name. *)

From Stdlib Require Import ZArith List Lia Bool.
From Stdlib.Strings Require Import Byte.
From Stdlib.Strings Require String.
From Stdlib Require Import Permutation Sorted.
Import ListNotations.
Open Scope Z_scope.

(** ** Bytes, exceptions *)

Definition bytes := list byte.

Definition len (b : bytes) : Z := Z.of_nat (length b).

(** The value of a byte, as indexing a Python 3 [bytes] object gives it. *)
Definition ord (b : byte) : Z := Z.of_N (Byte.to_N b).

(** The byte [bytes([v])] for [0 <= v < 256]. *)
Definition chr (v : Z) : byte :=
  match Byte.of_N (Z.to_N v) with
  | Some b => b
  | None => x00
  end.

(** [b'\x00' * n]; a count that is not positive gives [b'']. *)
Definition zeros (n : Z) : bytes := repeat x00 (Z.to_nat n).

(** The exceptions the modelled code raises.  [StillRunning] is not one
    of them: it marks a loop of the model stopped by its step bound. *)
Inductive error : Type :=
| TimedOutWaitingForPacket (content : bool)
| InvalidHeadOfPacket (b : byte)
| InvalidSlipEscape (b : byte)
| OnlyGotStatusResponse (got : Z)
| FailedWithResult (status_bytes : bytes)
| CommandFailed
| FoundIromSegments (count : Z)
| DigestOnSegmentBoundary (elf_sha256_offset file_pos segment_size : Z)
| DigestOffsetNotAllZero (elf_sha256_offset : Z)
| SameFlashMapping (addr last_addr : Z)
| SecurePadWithoutDigest
| AssertionError
| TypeError
| IndexError
| ValueError
| StructError
| StillRunning.

Inductive result (A : Type) : Type :=
| Ok (a : A)
| Err (e : error).
Arguments Ok {A} a.
Arguments Err {A} e.

Definition bind {A B : Type} (r : result A) (k : A -> result B) : result B :=
  match r with
  | Ok a => k a
  | Err e => Err e
  end.

Notation "'let!' x ':=' r 'in' k" := (bind r (fun x => k))
  (at level 10, x pattern, r at level 100, k at level 200).

(** [bytes.replace(old, new)] for a pattern [old] of one byte. *)
Definition replace (old : byte) (new : bytes) (s : bytes) : bytes :=
  flat_map (fun b => if Byte.eqb b old then new else [b]) s.

(** The frame body as the specification words it: [0xDB] becomes
    [0xDB 0xDD], [0xC0] becomes [0xDB 0xDC], any other byte is itself. *)
Definition spec_escape (b : byte) : bytes :=
  if Byte.eqb b xdb then [xdb; xdd]
  else if Byte.eqb b xc0 then [xdb; xdc]
  else [b].

Definition spec_encode (packet : bytes) : bytes :=
  [xc0] ++ flat_map spec_escape packet ++ [xc0].

(** ** The frame reader: generator [slip_reader] *)

Module slip_reader.

(** The generator's local variables. *)
Record locals : Type := mk_locals {
  partial_packet : option bytes;
  in_escape : bool
}.

Definition start : locals :=
  {| partial_packet := None; in_escape := false |}.

(** One pass through the body of [for b in read_bytes]. *)
Inductive pass : Type :=
| Next (l : locals)
| Yield (packet : bytes) (l : locals)
| Raise (e : error).

Definition on_byte (l : locals) (b : byte) : pass :=
  match partial_packet l with
  | None =>
      if Byte.eqb b xc0
      then Next {| partial_packet := Some []; in_escape := in_escape l |}
      else Raise (InvalidHeadOfPacket b)
  | Some p =>
      if in_escape l then
        if Byte.eqb b xdc
        then Next {| partial_packet := Some (p ++ [xc0]); in_escape := false |}
        else if Byte.eqb b xdd
        then Next {| partial_packet := Some (p ++ [xdb]); in_escape := false |}
        else Raise (InvalidSlipEscape b)
      else if Byte.eqb b xdb
      then Next {| partial_packet := Some p; in_escape := true |}
      else if Byte.eqb b xc0
      then Yield p {| partial_packet := None; in_escape := false |}
      else Next {| partial_packet := Some (p ++ [b]); in_escape := false |}
  end.

(** The [for] loop over one [read_bytes], up to its first [yield] or
    [raise]; a [yield] leaves the unread rest of [read_bytes] behind. *)
Inductive for_result : Type :=
| Exhausted (l : locals)
| Yielded (packet : bytes) (l : locals) (rest : bytes)
| Raised (e : error).

Fixpoint for_loop (l : locals) (read_bytes : bytes) : for_result :=
  match read_bytes with
  | [] => Exhausted l
  | b :: rest =>
      match on_byte l b with
      | Next l' => for_loop l' rest
      | Yield p l' => Yielded p l' rest
      | Raise e => Raised e
      end
  end.

(** A suspended generator: its locals, the part of [read_bytes] the
    [for] loop has not reached, and the port.  The port is the list of
    what its coming [read] calls return, one entry per call; a call on
    a port with nothing left returns [b''], the timeout. *)
Record generator : Type := mk_generator {
  vars : locals;
  read_bytes : bytes;
  port : list bytes
}.

Definition create (port : list bytes) : generator :=
  {| vars := start; read_bytes := []; port := port |}.

(** The [while True] loop, entered at its top. *)
Fixpoint while_loop (l : locals) (port : list bytes)
  : result (bytes * generator) :=
  match port with
  | [] => Err (TimedOutWaitingForPacket
                 (match partial_packet l with None => false | Some _ => true end))
  | chunk :: port' =>
      match chunk with
      | [] => Err (TimedOutWaitingForPacket
                     (match partial_packet l with None => false | Some _ => true end))
      | _ :: _ =>
          match for_loop l chunk with
          | Exhausted l' => while_loop l' port'
          | Yielded p l' rest =>
              Ok (p, {| vars := l'; read_bytes := rest; port := port' |})
          | Raised e => Err e
          end
      end
  end.

(** [next(generator)]: resume inside the [for] loop, then go round the
    [while] loop. *)
Definition next (g : generator) : result (bytes * generator) :=
  match for_loop (vars g) (read_bytes g) with
  | Exhausted l' => while_loop l' (port g)
  | Yielded p l' rest =>
      Ok (p, {| vars := l'; read_bytes := rest; port := port g |})
  | Raised e => Err e
  end.

End slip_reader.

(** ** Class [ESPLoader] *)

Module ESPLoader.

Definition ESP_IMAGE_MAGIC : Z := 0xe9.
Definition ESP_CHECKSUM_MAGIC : Z := 0xef.
Definition FLASH_SECTOR_SIZE : Z := 0x1000.
Definition IROM_MAP_START : Z := 0x40200000.
Definition IROM_MAP_END : Z := 0x40300000.
Definition STATUS_BYTES_LENGTH : Z := 2.

(** [write]: the buffer handed to [self._port.write]. *)
Definition write (packet : bytes) : bytes :=
  [xc0] ++ replace xc0 [xdb; xdc] (replace xdb [xdb; xdd] packet) ++ [xc0].

(** [read]: one step of the connection's [slip_reader]. *)
Definition read (g : slip_reader.generator)
  : result (bytes * slip_reader.generator) :=
  slip_reader.next g.

(** [checksum(data, state)]. *)
Definition checksum (data : bytes) (state : Z) : Z :=
  fold_left (fun st b => Z.lxor st (ord b)) data state.

End ESPLoader.

(** ** Python sequence indexing *)

(** The position a slice bound [i] stands for in a sequence of length
    [n]: a negative bound counts from the end, and both are clipped. *)
Definition slice_bound (n i : Z) : nat :=
  Z.to_nat (if i <? 0 then Z.max 0 (n + i) else Z.min i n).

(** [s[i:]] and [s[:j]]. *)
Definition slice_from (s : bytes) (i : Z) : bytes :=
  skipn (slice_bound (len s) i) s.

Definition slice_to (s : bytes) (j : Z) : bytes :=
  firstn (slice_bound (len s) j) s.

(** [s[i:j]]. *)
Definition slice (s : bytes) (i j : Z) : bytes :=
  skipn (slice_bound (len s) i) (firstn (slice_bound (len s) j) s).

(** [byte(bitstr, index)] for an index that is not negative. *)
Definition byte_at (bitstr : bytes) (index : Z) : result Z :=
  match nth_error bitstr (Z.to_nat index) with
  | Some b => Ok (ord b)
  | None => Err IndexError
  end.

(** ** [_mask_to_shift] and the register operations *)

(** The [while mask & 0x1 == 0] loop; [fuel] bounds the number of times
    its condition is evaluated, and [None] is a loop still running when
    the fuel is gone. *)
Fixpoint mask_to_shift_loop (fuel : nat) (mask shift : Z) : option Z :=
  match fuel with
  | O => None
  | S fuel' =>
      if Z.land mask 0x1 =? 0
      then mask_to_shift_loop fuel' (Z.shiftr mask 1) (shift + 1)
      else Some shift
  end.

Definition _mask_to_shift (fuel : nat) (mask : Z) : option Z :=
  mask_to_shift_loop fuel mask 0.

Section RegisterOps.

(** The target behind the connection, and the two register commands
    [update_reg] is built from. *)
Variable target : Type.
Variable read_reg : target -> Z -> result (Z * target).
Variable write_reg : target -> Z -> Z -> result target.

(** [ESPLoader.update_reg]; [None] when [_mask_to_shift] does not
    return within the fuel. *)
Definition update_reg (fuel : nat) (t : target) (addr mask new_val : Z)
  : option (result (Z * target)) :=
  match _mask_to_shift fuel mask with
  | None => None
  | Some shift =>
      Some (let! (val, t) := read_reg t addr in
            let val := Z.land val (Z.lnot mask) in
            let val := Z.lor val (Z.land (Z.shiftl new_val shift) mask) in
            let! t := write_reg t addr val in
            Ok (val, t))
  end.

End RegisterOps.

(** ** [ESPLoader.check_command] *)

Section CheckCommand.

(** The class constant of the loader in use: 2, or 4 for the ROM
    loaders of the ESP32 family. *)
Variable STATUS_BYTES_LENGTH : Z.

(** [command] is what the call [self.command(op, data, chk, timeout)]
    came to: the pair [(val, data)] or the exception it raised. *)
Definition check_command (command : result (Z * bytes)) : result (bytes + Z) :=
  let! (val, data) := command in
  if len data <? STATUS_BYTES_LENGTH
  then Err (OnlyGotStatusResponse (len data))
  else
    let status_bytes := slice_from data (- STATUS_BYTES_LENGTH) in
    let! first := byte_at status_bytes 0 in
    if negb (first =? 0)
    then Err (FailedWithResult status_bytes)
    else if len data >? STATUS_BYTES_LENGTH
    then Ok (inl (slice_to data (- STATUS_BYTES_LENGTH)))
    else Ok (inr val).

End CheckCommand.

(** ** Class [ESP8266ROM] *)

Module ESP8266ROM.

Definition IROM_MAP_START : Z := ESPLoader.IROM_MAP_START.
Definition IROM_MAP_END : Z := ESPLoader.IROM_MAP_END.

Definition get_erase_size (offset size : Z) : Z :=
  let sectors_per_block := 16 in
  let sector_size := ESPLoader.FLASH_SECTOR_SIZE in
  let num_sectors := (size + sector_size - 1) / sector_size in
  let start_sector := offset / sector_size in
  let head_sectors := sectors_per_block - (start_sector mod sectors_per_block) in
  let head_sectors :=
    if num_sectors <? head_sectors then num_sectors else head_sectors in
  if num_sectors <? 2 * head_sectors
  then (num_sectors + 1) / 2 * sector_size
  else (num_sectors - head_sectors) * sector_size.

End ESP8266ROM.

(** The erase size as the specification words it, with [ceil] the
    rounded-up quotient. *)
Definition ceil (a b : Z) : Z := - ((- a) / b).

Definition spec_erase_size (offset size : Z) : Z :=
  let sectors_per_block := 16 in
  let sector_size := 0x1000 in
  let num_sectors := ceil size sector_size in
  let start_sector := offset / sector_size in
  let head_sectors :=
    Z.min (sectors_per_block - (start_sector mod sectors_per_block)) num_sectors in
  if num_sectors <? 2 * head_sectors
  then ceil num_sectors 2 * sector_size
  else (num_sectors - head_sectors) * sector_size.

(** ** [struct.pack], little-endian *)

Definition in_range (v bound : Z) : bool := (0 <=? v) && (v <? bound).

(** Format [B]. *)
Definition pack_B (v : Z) : result bytes :=
  if in_range v 0x100 then Ok [chr v] else Err StructError.

(** Format [<H]. *)
Definition pack_H (v : Z) : result bytes :=
  if in_range v 0x10000
  then Ok [chr (v mod 0x100); chr (v / 0x100)]
  else Err StructError.

(** Format [<I]. *)
Definition pack_I (v : Z) : result bytes :=
  if in_range v 0x100000000
  then Ok [chr (v mod 0x100); chr (v / 0x100 mod 0x100);
           chr (v / 0x10000 mod 0x100); chr (v / 0x1000000)]
  else Err StructError.

(** Format [<II]. *)
Definition pack_II (a b : Z) : result bytes :=
  let! x := pack_I a in
  let! y := pack_I b in
  Ok (x ++ y).

(** A run of [B] fields. *)
Fixpoint pack_Bs (vs : list Z) : result bytes :=
  match vs with
  | [] => Ok []
  | v :: vs' =>
      let! x := pack_B v in
      let! y := pack_Bs vs' in
      Ok (x ++ y)
  end.

(** ** Binary files *)

(** A file open for writing ([open(name, "wb")] or [io.BytesIO()]): what
    it holds and where its position is. *)
Record file : Type := mk_file {
  contents : bytes;
  position : Z
}.

Definition new_file : file := {| contents := []; position := 0 |}.

Definition tell (f : file) : Z := position f.

(** [f.write(d)]: [d] replaces what is at the position and extends the
    file past its end; when the position is beyond the end, the gap
    reads as zero bytes.  Writing nothing changes nothing. *)
Definition write (f : file) (d : bytes) : file :=
  match d with
  | [] => f
  | _ :: _ =>
      let pos := Z.to_nat (position f) in
      let old := contents f ++ repeat x00 (pos - length (contents f)) in
      {| contents := firstn pos old ++ d ++ skipn (pos + length d) old;
         position := position f + len d |}
  end.

(** [f.seek(offset, 1)] and [f.seek(pos)], for arguments that are not
    negative. *)
Definition seek_cur (f : file) (offset : Z) : file :=
  {| contents := contents f; position := position f + offset |}.

Definition seek (f : file) (pos : Z) : file :=
  {| contents := contents f; position := pos |}.

(** [f.read(n)]: the bytes read and the file afterwards. *)
Definition read (f : file) (n : Z) : bytes * file :=
  let got := firstn (Z.to_nat n) (skipn (Z.to_nat (position f)) (contents f)) in
  (got, {| contents := contents f; position := position f + len got |}).

Definition align_file_position (f : file) (size : Z) : file :=
  let align := (size - 1) - (tell f mod size) in
  seek_cur f align.

Definition pad_to (data : bytes) (alignment : Z) (pad_character : byte) : bytes :=
  let pad_mod := len data mod alignment in
  if negb (pad_mod =? 0)
  then data ++ repeat pad_character (Z.to_nat (alignment - pad_mod))
  else data.

Fixpoint bytes_eqb (a b : bytes) : bool :=
  match a, b with
  | [], [] => true
  | x :: a', y :: b' => Byte.eqb x y && bytes_eqb a' b'
  | _, _ => false
  end.

(** ** Class [ImageSegment] *)

Module ImageSegment.

Record t : Type := mk {
  addr : Z;
  data : bytes;
  file_offs : option Z;
  include_in_checksum : bool
}.

(** [ImageSegment(addr, data, file_offs)]. *)
Definition init (addr : Z) (data : bytes) (file_offs : option Z) : t :=
  {| addr := addr;
     data := if negb (addr =? 0) then pad_to data 4 x00 else data;
     file_offs := file_offs;
     include_in_checksum := true |}.

(** [split_image(split_len)]: the segment returned, and [self] as the
    call leaves it. *)
Definition split_image (self : t) (split_len : Z) : t * t :=
  ({| addr := addr self;
      data := slice_to (data self) split_len;
      file_offs := None;
      include_in_checksum := include_in_checksum self |},
   {| addr := addr self + split_len;
      data := slice_from (data self) split_len;
      file_offs := None;
      include_in_checksum := include_in_checksum self |}).

End ImageSegment.

(** ** Class [BaseFirmwareImage] *)

Inductive secure_pad_version : Type := SecurePad1 | SecurePad2.

(** The attributes of a firmware image object: those of
    [BaseFirmwareImage], then those [ESP32FirmwareImage] adds. *)
Record firmware_image : Type := mk_image {
  segments : list ImageSegment.t;
  entrypoint : Z;
  elf_sha256 : option bytes;
  elf_sha256_offset : Z;
  flash_mode : Z;
  flash_size_freq : Z;
  secure_pad : option secure_pad_version;
  wp_pin : Z;
  clk_drv : Z;
  q_drv : Z;
  d_drv : Z;
  cs_drv : Z;
  hd_drv : Z;
  wp_drv : Z;
  min_rev : Z;
  append_digest : bool
}.

Module BaseFirmwareImage.

Definition SEG_HEADER_LEN : Z := 8.
Definition SHA256_DIGEST_LEN : Z := 32.

Definition maybe_patch_segment_data
    (self : firmware_image) (f : file) (segment_data : bytes) : result bytes :=
  let segment_len := len segment_data in
  let file_pos := tell f in
  if (elf_sha256_offset self >=? file_pos)
     && (elf_sha256_offset self <? file_pos + segment_len)
  then
    let patch_offset := elf_sha256_offset self - file_pos in
    if (patch_offset <? SEG_HEADER_LEN)
       || (patch_offset + SHA256_DIGEST_LEN >? segment_len)
    then Err (DigestOnSegmentBoundary (elf_sha256_offset self) file_pos segment_len)
    else
      let patch_offset := patch_offset - SEG_HEADER_LEN in
      if negb (bytes_eqb
                 (slice segment_data patch_offset (patch_offset + SHA256_DIGEST_LEN))
                 (zeros SHA256_DIGEST_LEN))
      then Err (DigestOffsetNotAllZero (elf_sha256_offset self))
      else
        match elf_sha256 self with
        | None => Err TypeError
        | Some sha =>
            if len sha =? SHA256_DIGEST_LEN
            then Ok (slice segment_data 0 patch_offset ++ sha
                     ++ slice_from segment_data (patch_offset + SHA256_DIGEST_LEN))
            else Err AssertionError
        end
  else Ok segment_data.

(** [save_segment(f, segment, checksum)] with a checksum given: the
    file and the next checksum value. *)
Definition save_segment
    (self : firmware_image) (f : file) (segment : ImageSegment.t) (checksum : Z)
  : result (file * Z) :=
  let! segment_data := maybe_patch_segment_data self f (ImageSegment.data segment) in
  let! header := pack_II (ImageSegment.addr segment) (len segment_data) in
  let f := write f header in
  let f := write f segment_data in
  Ok (f, ESPLoader.checksum segment_data checksum).

Definition append_checksum (f : file) (checksum : Z) : result file :=
  let f := align_file_position f 16 in
  let! b := pack_B checksum in
  Ok (write f b).

Definition write_common_header
    (self : firmware_image) (f : file) (segments : list ImageSegment.t)
  : result file :=
  let! magic := pack_B ESPLoader.ESP_IMAGE_MAGIC in
  let! count := pack_B (Z.of_nat (length segments)) in
  let! mode := pack_B (flash_mode self) in
  let! size_freq := pack_B (flash_size_freq self) in
  let! entry := pack_I (entrypoint self) in
  Ok (write f (magic ++ count ++ mode ++ size_freq ++ entry)).

Definition is_irom_addr (addr : Z) : bool :=
  (ESP8266ROM.IROM_MAP_START <=? addr) && (addr <? ESP8266ROM.IROM_MAP_END).

Definition get_irom_segment (self : firmware_image)
  : result (option ImageSegment.t) :=
  let irom_segments :=
    filter (fun s => is_irom_addr (ImageSegment.addr s)) (segments self) in
  match irom_segments with
  | [] => Ok None
  | [s] => Ok (Some s)
  | _ => Err (FoundIromSegments (Z.of_nat (length irom_segments)))
  end.

(** [get_non_irom_segments]: the segments that are not the object
    [get_irom_segment] returned.  That object, when there is one, is
    the only segment at an IROM address, so the comparison of objects
    keeps exactly the segments at other addresses; with none, it keeps
    all of them, none being at an IROM address. *)
Definition get_non_irom_segments (self : firmware_image)
  : result (list ImageSegment.t) :=
  let! irom_segment := get_irom_segment self in
  Ok (filter (fun s => negb (is_irom_addr (ImageSegment.addr s))) (segments self)).

End BaseFirmwareImage.

(** ** Class [ESP8266ROMFirmwareImage] *)

Module ESP8266ROMFirmwareImage.

(** The segment loop of [save]. *)
Fixpoint save_segments
    (self : firmware_image) (f : file) (normal_segments : list ImageSegment.t)
    (checksum : Z) : result (file * Z) :=
  match normal_segments with
  | [] => Ok (f, checksum)
  | segment :: rest =>
      let! (f, checksum) := BaseFirmwareImage.save_segment self f segment checksum in
      save_segments self f rest checksum
  end.

(** [save(basename)]: the IROM file when one is written, as its offset
    in the name and its bytes, and the bytes of [basename0x00000.bin]. *)
Definition save (self : firmware_image) : result (option (Z * bytes) * bytes) :=
  let! irom_segment := BaseFirmwareImage.get_irom_segment self in
  let irom_file :=
    option_map
      (fun s => (ImageSegment.addr s - ESP8266ROM.IROM_MAP_START,
                 contents (write new_file (ImageSegment.data s))))
      irom_segment in
  let! normal_segments := BaseFirmwareImage.get_non_irom_segments self in
  let f := new_file in
  let! f := BaseFirmwareImage.write_common_header self f normal_segments in
  let checksum := ESPLoader.ESP_CHECKSUM_MAGIC in
  let! (f, checksum) := save_segments self f normal_segments checksum in
  let! f := BaseFirmwareImage.append_checksum f checksum in
  Ok (irom_file, contents f).

(** A new image object: [ESP8266ROMFirmwareImage()] with the attributes
    a caller then sets. *)
Definition init (segments : list ImageSegment.t) (entrypoint flash_mode flash_size_freq : Z)
  : firmware_image :=
  {| segments := segments; entrypoint := entrypoint;
     elf_sha256 := None; elf_sha256_offset := 0;
     flash_mode := flash_mode; flash_size_freq := flash_size_freq;
     secure_pad := None; wp_pin := 0; clk_drv := 0; q_drv := 0; d_drv := 0;
     cs_drv := 0; hd_drv := 0; wp_drv := 0; min_rev := 0;
     append_digest := false |}.

End ESP8266ROMFirmwareImage.

(** ** The ROM loader classes of the ESP32 family *)

Record rom_loader : Type := mk_rom_loader {
  IMAGE_CHIP_ID : Z;
  IROM_MAP_START : Z;
  IROM_MAP_END : Z;
  DROM_MAP_START : Z;
  DROM_MAP_END : Z
}.

Definition ESP32ROM : rom_loader :=
  {| IMAGE_CHIP_ID := 0;
     IROM_MAP_START := 0x400d0000; IROM_MAP_END := 0x40400000;
     DROM_MAP_START := 0x3F400000; DROM_MAP_END := 0x3F800000 |}.

Definition ESP32S2ROM : rom_loader :=
  {| IMAGE_CHIP_ID := 2;
     IROM_MAP_START := 0x40080000; IROM_MAP_END := 0x40b80000;
     DROM_MAP_START := 0x3F000000; DROM_MAP_END := 0x3F3F0000 |}.

Definition ESP32S3BETA2ROM : rom_loader :=
  {| IMAGE_CHIP_ID := 4;
     IROM_MAP_START := 0x42000000; IROM_MAP_END := 0x44000000;
     DROM_MAP_START := 0x3c000000; DROM_MAP_END := 0x3e000000 |}.

Definition ESP32C3ROM : rom_loader :=
  {| IMAGE_CHIP_ID := 5;
     IROM_MAP_START := 0x42000000; IROM_MAP_END := 0x42800000;
     DROM_MAP_START := 0x3c000000; DROM_MAP_END := 0x3c800000 |}.

(** ** Class [ESP32FirmwareImage] *)

(** [sorted(segments, key=lambda s: s.addr)]: a stable sort. *)
Fixpoint insert_by_addr (s : ImageSegment.t) (l : list ImageSegment.t)
  : list ImageSegment.t :=
  match l with
  | [] => [s]
  | x :: l' =>
      if ImageSegment.addr s <=? ImageSegment.addr x
      then s :: l
      else x :: insert_by_addr s l'
  end.

Definition sorted_by_addr (l : list ImageSegment.t) : list ImageSegment.t :=
  fold_right insert_by_addr [] l.

Module ESP32FirmwareImage.
Section Image.

(** The class attribute [ROM_LOADER], and [hashlib.sha256(m).digest()]. *)
Variable ROM_LOADER : rom_loader.
Variable sha256 : bytes -> bytes.

Definition WP_PIN_DISABLED : Z := 0xEE.
Definition IROM_ALIGN : Z := 65536.
Definition SEG_HEADER_LEN : Z := BaseFirmwareImage.SEG_HEADER_LEN.

Definition is_flash_addr (addr : Z) : bool :=
  ((IROM_MAP_START ROM_LOADER <=? addr) && (addr <? IROM_MAP_END ROM_LOADER))
  || ((DROM_MAP_START ROM_LOADER <=? addr) && (addr <? DROM_MAP_END ROM_LOADER)).

Definition join_byte (ln hn : Z) : Z :=
  Z.land ln 0x0F + Z.shiftl (Z.land hn 0x0F) 4.

Definition save_extended_header (self : firmware_image) (save_file : file)
  : result file :=
  let append_digest := if append_digest self then 1 else 0 in
  let! head :=
    pack_Bs [wp_pin self;
             join_byte (clk_drv self) (q_drv self);
             join_byte (d_drv self) (cs_drv self);
             join_byte (hd_drv self) (wp_drv self)] in
  let! chip_id := pack_H (IMAGE_CHIP_ID ROM_LOADER) in
  let! tail := pack_Bs ([min_rev self] ++ repeat 0 8 ++ [append_digest]) in
  Ok (write save_file (head ++ chip_id ++ tail)).

Definition save_flash_segment
    (self : firmware_image) (f : file) (segment : ImageSegment.t) (checksum : Z)
  : result (file * Z) :=
  let segment_end_pos := tell f + len (ImageSegment.data segment) + SEG_HEADER_LEN in
  let segment_len_remainder := segment_end_pos mod IROM_ALIGN in
  let segment :=
    if segment_len_remainder <? 0x24
    then {| ImageSegment.addr := ImageSegment.addr segment;
            ImageSegment.data :=
              ImageSegment.data segment ++ zeros (0x24 - segment_len_remainder);
            ImageSegment.file_offs := ImageSegment.file_offs segment;
            ImageSegment.include_in_checksum :=
              ImageSegment.include_in_checksum segment |}
    else segment in
  BaseFirmwareImage.save_segment self f segment checksum.

(** The check that no two flash segments land in one 64KB mapping. *)
Fixpoint check_flash_mappings (last_addr : Z) (rest : list ImageSegment.t)
  : result unit :=
  match rest with
  | [] => Ok tt
  | segment :: rest' =>
      if ImageSegment.addr segment / IROM_ALIGN =? last_addr / IROM_ALIGN
      then Err (SameFlashMapping (ImageSegment.addr segment) last_addr)
      else check_flash_mappings (ImageSegment.addr segment) rest'
  end.

(** The local function [get_alignment_data_needed] of [save]. *)
Definition get_alignment_data_needed (f : file) (segment : ImageSegment.t) : Z :=
  let align_past := (ImageSegment.addr segment mod IROM_ALIGN) - SEG_HEADER_LEN in
  let pad_len := (IROM_ALIGN - (tell f mod IROM_ALIGN)) + align_past in
  if (pad_len =? 0) || (pad_len =? IROM_ALIGN)
  then 0
  else
    let pad_len := pad_len - SEG_HEADER_LEN in
    if pad_len <? 0 then pad_len + IROM_ALIGN else pad_len.

(** The choice of the padding segment inside the loop: the segment
    and the list [ram_segments] as the choice leaves it. *)
Definition take_pad_segment
    (f : file) (ram_segments : list ImageSegment.t) (pad_len : Z)
  : ImageSegment.t * list ImageSegment.t :=
  match ram_segments with
  | first :: others =>
      if pad_len >? SEG_HEADER_LEN
      then
        let (pad_segment, first) := ImageSegment.split_image first pad_len in
        (pad_segment,
         if len (ImageSegment.data first) =? 0 then others else first :: others)
      else (ImageSegment.init 0 (zeros pad_len) (Some (tell f)), ram_segments)
  | [] => (ImageSegment.init 0 (zeros pad_len) (Some (tell f)), ram_segments)
  end.

(** The body of [while len(flash_segments) > 0], run with [segment]
    the first flash segment and [flash_rest] the others: the file, the
    two lists, the checksum and the count as it leaves them. *)
Definition loop_body
    (self : firmware_image) (f : file)
    (segment : ImageSegment.t) (flash_rest ram_segments : list ImageSegment.t)
    (checksum total_segments : Z)
  : result (file * list ImageSegment.t * list ImageSegment.t * Z * Z) :=
  let pad_len := get_alignment_data_needed f segment in
  if pad_len >? 0
  then
    let (pad_segment, ram_segments) := take_pad_segment f ram_segments pad_len in
    let! (f, checksum) :=
      BaseFirmwareImage.save_segment self f pad_segment checksum in
    Ok (f, segment :: flash_rest, ram_segments, checksum, total_segments + 1)
  else
    if (tell f + 8) mod IROM_ALIGN =? ImageSegment.addr segment mod IROM_ALIGN
    then
      let! (f, checksum) := save_flash_segment self f segment checksum in
      Ok (f, flash_rest, ram_segments, checksum, total_segments + 1)
    else Err AssertionError.

(** The [while] loop; [fuel] bounds its iterations. *)
Fixpoint flash_loop
    (fuel : nat) (self : firmware_image) (f : file)
    (flash_segments ram_segments : list ImageSegment.t)
    (checksum total_segments : Z)
  : result (file * list ImageSegment.t * Z * Z) :=
  match flash_segments with
  | [] => Ok (f, ram_segments, checksum, total_segments)
  | segment :: flash_rest =>
      match fuel with
      | O => Err StillRunning
      | S fuel' =>
          let! (f, flash_segments, ram_segments, checksum, total_segments) :=
            loop_body self f segment flash_rest ram_segments
              checksum total_segments in
          flash_loop fuel' self f flash_segments ram_segments
            checksum total_segments
      end
  end.

(** [for segment in ram_segments]. *)
Fixpoint ram_loop
    (self : firmware_image) (f : file) (ram_segments : list ImageSegment.t)
    (checksum total_segments : Z) : result (file * Z * Z) :=
  match ram_segments with
  | [] => Ok (f, checksum, total_segments)
  | segment :: rest =>
      let! (f, checksum) := BaseFirmwareImage.save_segment self f segment checksum in
      ram_loop self f rest checksum (total_segments + 1)
  end.

Definition space_after_checksum (v : secure_pad_version) : Z :=
  match v with
  | SecurePad1 => 32 + 4 + 64 + 12
  | SecurePad2 => 32
  end.

(** The first [if self.secure_pad:] block. *)
Definition secure_padding
    (self : firmware_image) (f : file) (checksum total_segments : Z)
  : result (file * Z * Z) :=
  match secure_pad self with
  | None => Ok (f, checksum, total_segments)
  | Some v =>
      if negb (append_digest self) then Err SecurePadWithoutDigest
      else
        let align_past := (tell f + SEG_HEADER_LEN) mod IROM_ALIGN in
        let checksum_space := 16 in
        let pad_len :=
          (IROM_ALIGN - align_past - checksum_space - space_after_checksum v)
            mod IROM_ALIGN in
        let pad_segment := ImageSegment.init 0 (zeros pad_len) (Some (tell f)) in
        let! (f, checksum) :=
          BaseFirmwareImage.save_segment self f pad_segment checksum in
        Ok (f, checksum, total_segments + 1)
  end.

(** The iterations [flash_loop] is given: it needs no more. *)
Definition loop_bound (flash_segments ram_segments : list ImageSegment.t) : nat :=
  2 * length flash_segments + length ram_segments + 1.

(** [save(filename)]: the bytes written to the file. *)
Definition save (self : firmware_image) : result bytes :=
  let total_segments := 0 in
  let f := new_file in
  let! f := BaseFirmwareImage.write_common_header self f (segments self) in
  let! f := save_extended_header self f in
  let checksum := ESPLoader.ESP_CHECKSUM_MAGIC in
  let flash_segments :=
    filter (fun s => is_flash_addr (ImageSegment.addr s))
           (sorted_by_addr (segments self)) in
  let ram_segments :=
    filter (fun s => negb (is_flash_addr (ImageSegment.addr s)))
           (sorted_by_addr (segments self)) in
  let! _ :=
    match flash_segments with
    | [] => Ok tt
    | first :: rest => check_flash_mappings (ImageSegment.addr first) rest
    end in
  let! (f, ram_segments, checksum, total_segments) :=
    flash_loop (loop_bound flash_segments ram_segments) self f
      flash_segments ram_segments checksum total_segments in
  let! (f, checksum, total_segments) :=
    ram_loop self f ram_segments checksum total_segments in
  let! (f, checksum, total_segments) :=
    secure_padding self f checksum total_segments in
  let! f := BaseFirmwareImage.append_checksum f checksum in
  let image_length := tell f in
  let! _ :=
    match secure_pad self with
    | None => Ok tt
    | Some v =>
        if (image_length + space_after_checksum v) mod IROM_ALIGN =? 0
        then Ok tt else Err AssertionError
    end in
  let f := seek f 1 in
  let! f :=
    if in_range total_segments 0x100
    then Ok (write f [chr total_segments]) else Err ValueError in
  let f :=
    if append_digest self
    then
      let f := seek f 0 in
      let (image, f) := read f image_length in
      write f (sha256 image)
    else f in
  Ok (contents f).

(** A new image object: the attributes [__init__] sets without a
    [load_file], with the segments, entry point and flash parameters a
    caller then sets. *)
Definition init (segments : list ImageSegment.t) (entrypoint flash_mode flash_size_freq : Z)
  : firmware_image :=
  {| segments := segments; entrypoint := entrypoint;
     elf_sha256 := None; elf_sha256_offset := 0;
     flash_mode := flash_mode; flash_size_freq := flash_size_freq;
     secure_pad := None; wp_pin := WP_PIN_DISABLED;
     clk_drv := 0; q_drv := 0; d_drv := 0; cs_drv := 0; hd_drv := 0;
     wp_drv := 0; min_rev := 0; append_digest := true |}.

End Image.
End ESP32FirmwareImage.

(** ** Where a segment lies in a saved image *)

(** The position of [f] is the end of the file. *)
Definition at_end (f : file) : Prop := position f = len (contents f).

(** [c'] is [c] with bytes added after it. *)
Definition extends (c c' : bytes) : Prop := exists tail, c' = c ++ tail.

(** The image [out] of [self] holds the segment [s] past its first
    [base] bytes: somewhere there, the 8-byte header of [s] with its
    load address and the length of its data, then the data, which are
    those of [s] with [k] zero bytes after them, as
    [maybe_patch_segment_data] returns them at that place of the file;
    and the file offset of the data is the load address modulo 64KB. *)
Definition placed_from (base : Z) (self : firmware_image) (out : bytes)
    (s : ImageSegment.t) : Prop :=
  exists (pre header data post : bytes) (k : Z),
    out = pre ++ header ++ data ++ post /\
    base <= len pre /\
    pack_II (ImageSegment.addr s) (len data) = Ok header /\
    0 <= k <= 0x24 /\
    BaseFirmwareImage.maybe_patch_segment_data self (seek new_file (len pre))
      (ImageSegment.data s ++ zeros k) = Ok data /\
    len (pre ++ header) mod 0x10000 = ImageSegment.addr s mod 0x10000.


(** ** Inputs of the examples *)

(** The version 1 image of the specification's scenario: entry point
    and one segment of eight zero bytes at [0x40100000]. *)
Definition scenario_image : firmware_image :=
  ESP8266ROMFirmwareImage.init
    [ImageSegment.init 0x40100000 (zeros 8) None] 0x40100000 0x02 0x20.

(** A target for [update_reg]: a register file, read and written
    without failure. *)
Definition example_read_reg (t : Z -> Z) (addr : Z) : result (Z * (Z -> Z)) :=
  Ok (t addr, t).

Definition example_write_reg (t : Z -> Z) (addr value : Z) : result (Z -> Z) :=
  Ok (fun a => if a =? addr then value else t a).

(** A version 1 image of one segment, [size] zero bytes, with the digest
    of the ELF file to be placed at file offset [offset]. *)
Definition digest_image (size offset : Z) : firmware_image :=
  {| segments := [ImageSegment.init 0x40100000 (zeros size) None];
     entrypoint := 0x40100000;
     elf_sha256 := Some (repeat xaa 32); elf_sha256_offset := offset;
     flash_mode := 0x02; flash_size_freq := 0x20;
     secure_pad := None; wp_pin := 0; clk_drv := 0; q_drv := 0; d_drv := 0;
     cs_drv := 0; hd_drv := 0; wp_drv := 0; min_rev := 0;
     append_digest := false |}.

(** An ESP32 image whose second flash segment needs a pad of 8 bytes:
    a RAM segment, a DROM segment that ends 24 bytes before a 64KB
    boundary of the file, and an IROM segment at the start of a page. *)
Definition pad8_ram : ImageSegment.t :=
  ImageSegment.init 0x40080000 (repeat x11 16) None.

Definition pad8_drom : ImageSegment.t :=
  ImageSegment.init 0x3F400020 (repeat x22 (Z.to_nat 65480)) None.

Definition pad8_irom : ImageSegment.t :=
  ImageSegment.init 0x400d0000 (repeat x33 64) None.

Definition pad8_image : firmware_image :=
  ESP32FirmwareImage.init [pad8_ram; pad8_drom; pad8_irom] 0x40080000 0x02 0x20.

(** A flash segment that needs a long pad right after the headers. *)
Definition pad_irom : ImageSegment.t :=
  ImageSegment.init 0x400d0100 (repeat x33 64) None.

(** A small ESP32 image, one DROM and one RAM segment, saved with a
    stand-in for SHA-256. *)
Definition small_drom : ImageSegment.t :=
  ImageSegment.init 0x3F400020 (repeat x22 16) None.

Definition small_image : firmware_image :=
  ESP32FirmwareImage.init [pad8_ram; small_drom] 0x40080000 0x02 0x20.

Definition stand_in_sha256 (m : bytes) : bytes := repeat xaa 32.

Definition small_image_saved : bytes :=
  match ESP32FirmwareImage.save ESP32ROM stand_in_sha256 small_image with
  | Ok out => out
  | Err _ => []
  end.

(** ** Further code: callers and helpers *)

(** [n] calls of [read] in a row, as [read_flash] and [sync] make them:
    the packets in the order read. *)
Fixpoint read_packets (n : nat) (g : slip_reader.generator)
  : result (list bytes * slip_reader.generator) :=
  match n with
  | O => Ok ([], g)
  | S n' =>
      let! (p, g) := ESPLoader.read g in
      let! (ps, g) := read_packets n' g in
      Ok (p :: ps, g)
  end.

(** The exceptions of the code modelled from here on: those above, and
    the ones this code adds. *)
Inductive failure : Type :=
| Raised (e : error)
| UnsupportedCommandError (op : option Z)
| ResponseDoesntMatchRequest
| InvalidFirmwareImageMagic (magic : Z)
| InvalidSegmentCount (count : Z)
| EndOfFileReadingSegment (offset size actual : Z)
| InvalidAppendDigest (append_digest : Z)
| FlashSizeNotSupported (arg : String.string).

Inductive outcome (A : Type) : Type :=
| Returned (a : A)
| Failed (f : failure).
Arguments Returned {A} a.
Arguments Failed {A} f.

Definition and_then {A B : Type} (o : outcome A) (k : A -> outcome B) : outcome B :=
  match o with
  | Returned a => k a
  | Failed f => Failed f
  end.

Notation "'let*' x ':=' o 'in' k" := (and_then o (fun x => k))
  (at level 10, x pattern, o at level 100, k at level 200).

Definition lift {A : Type} (r : result A) : outcome A :=
  match r with
  | Ok a => Returned a
  | Err e => Failed (Raised e)
  end.

(** ** [struct.unpack], little-endian *)

(** The number a run of bytes stands for, lowest byte first. *)
Fixpoint le_value (b : bytes) : Z :=
  match b with
  | [] => 0
  | x :: b' => ord x + 0x100 * le_value b'
  end.

(** Format [<BBHI]: a buffer of any other size than 8 is refused. *)
Definition unpack_BBHI (b : bytes) : result (Z * Z * Z * Z) :=
  match b with
  | [b0; b1; b2; b3; b4; b5; b6; b7] =>
      Ok (ord b0, ord b1, le_value [b2; b3], le_value [b4; b5; b6; b7])
  | _ => Err StructError
  end.

(** Format [<BBBBI]. *)
Definition unpack_BBBBI (b : bytes) : result (Z * Z * Z * Z * Z) :=
  match b with
  | [b0; b1; b2; b3; b4; b5; b6; b7] =>
      Ok (ord b0, ord b1, ord b2, ord b3, le_value [b4; b5; b6; b7])
  | _ => Err StructError
  end.

(** Format [<II]. *)
Definition unpack_II (b : bytes) : result (Z * Z) :=
  match b with
  | [b0; b1; b2; b3; b4; b5; b6; b7] =>
      Ok (le_value [b0; b1; b2; b3], le_value [b4; b5; b6; b7])
  | _ => Err StructError
  end.

(** Format [<BBHI], packing. *)
Definition pack_BBHI (a b c d : Z) : result bytes :=
  let! x := pack_B a in
  let! y := pack_B b in
  let! z := pack_H c in
  let! w := pack_I d in
  Ok (x ++ y ++ z ++ w).

(** ** [ESPLoader.command] and [sync] *)

(** A connection: the frame reader on its port, and the buffers written
    to the port so far, the last one first.  The read timeout that
    [command] sets and restores has no part in a port given as the list
    of what its reads return, and is left out. *)
Record connection : Type := mk_connection {
  _slip_reader : slip_reader.generator;
  written : list bytes
}.

Definition ESP_SYNC : Z := 0x08.
Definition ESP_READ_REG : Z := 0x0a.
Definition ROM_INVALID_RECV_MSG : Z := 0x05.

(** The loop [for retry in range(100)] of [command], with [retries]
    iterations left, and the [raise] after it. *)
Fixpoint responses (retries : nat) (g : slip_reader.generator) (op : option Z)
  : outcome (Z * bytes * slip_reader.generator) :=
  match retries with
  | O => Failed ResponseDoesntMatchRequest
  | S retries' =>
      let* (p, g) := lift (ESPLoader.read g) in
      if len p <? 8 then responses retries' g op
      else
        let* (resp, op_ret, len_ret, val) := lift (unpack_BBHI (slice_to p 8)) in
        if negb (resp =? 1) then responses retries' g op
        else
          let data := slice_from p 8 in
          if match op with None => true | Some o => op_ret =? o end
          then Returned (val, data, g)
          else
            let* status := lift (byte_at data 0) in
            if negb (status =? 0)
            then
              let* reason := lift (byte_at data 1) in
              if reason =? ROM_INVALID_RECV_MSG
              then Failed (UnsupportedCommandError op)
              else responses retries' g op
            else responses retries' g op
  end.

(** [command(op, data, chk, wait_response)]: what it returns, [None]
    when it does not wait, and the connection afterwards. *)
Definition command (self : connection) (op : option Z) (data : bytes) (chk : Z)
    (wait_response : bool) : outcome (option (Z * bytes) * connection) :=
  let* self :=
    match op with
    | Some o =>
        let* pkt := lift (pack_BBHI 0x00 o (len data) chk) in
        Returned {| _slip_reader := _slip_reader self;
                    written := ESPLoader.write (pkt ++ data) :: written self |}
    | None => Returned self
    end in
  if negb wait_response then Returned (None, self)
  else
    let* (val, data, g) := responses 100 (_slip_reader self) op in
    Returned (Some (val, data),
              {| _slip_reader := g; written := written self |}).

(** [val, data = self.command(...)]: unpacking [None] raises. *)
Definition unpacked (r : outcome (option (Z * bytes) * connection))
  : outcome (Z * bytes * connection) :=
  let* (reply, self) := r in
  match reply with
  | Some (val, data) => Returned (val, data, self)
  | None => Failed (Raised TypeError)
  end.

(** The [for _ in range(7)] loop of [sync]. *)
Fixpoint sync_drain (n : nat) (self : connection) (sync_stub_detected : bool)
  : outcome (bool * connection) :=
  match n with
  | O => Returned (sync_stub_detected, self)
  | S n' =>
      let* (val, _, self) := unpacked (command self None [] 0 true) in
      sync_drain n' self (sync_stub_detected && (val =? 0))
  end.

(** [sync()]: the attribute [sync_stub_detected] it leaves, and the
    connection. *)
Definition sync (self : connection) : outcome (bool * connection) :=
  let* (val, _, self) :=
    unpacked (command self (Some ESP_SYNC)
                ([x07; x07; x12; x20] ++ repeat x55 32) 0 true) in
  let sync_stub_detected := val =? 0 in
  sync_drain 7 self sync_stub_detected.

(** [read_reg(addr)]. *)
Definition read_reg (self : connection) (addr : Z) : outcome (Z * connection) :=
  let* packed := lift (pack_I addr) in
  let* (val, data, self) :=
    unpacked (command self (Some ESP_READ_REG) packed 0 true) in
  let* status := lift (byte_at data 0) in
  if negb (status =? 0)
  then Failed (Raised (FailedWithResult data))
  else Returned (val, self).

(** The packets successive calls of [read] return. *)
Fixpoint reads_as (g : slip_reader.generator) (packets : list bytes)
    (g' : slip_reader.generator) : Prop :=
  match packets with
  | [] => g = g'
  | p :: packets' =>
      exists g1, ESPLoader.read g = Ok (p, g1) /\ reads_as g1 packets' g'
  end.

(** A packet the response loop of [command] passes over while it waits
    for the reply to [op]: one too short for a header, one that is not a
    response, or the response to another command whose status byte is
    zero or whose reason byte is not the invalid-message code. *)
Definition passed_over (op : Z) (p : bytes) : Prop :=
  len p < 8 \/
  (exists dir rest, p = dir :: rest /\ 8 <= len p /\ dir <> x01) \/
  (exists header op' n val body,
      p = header ++ body /\
      pack_BBHI 1 op' n val = Ok header /\
      op' <> op /\
      (exists rest, body = x00 :: rest \/
         exists status reason, body = status :: reason :: rest /\
                               reason <> x05)).

(** A packet that is a response carrying the value [val]. *)
Definition response_with (p : bytes) (val : Z) : Prop :=
  exists op n header body, pack_BBHI 0x01 op n val = Ok header /\ p = header ++ body.

(** ** Loading an image: [BaseFirmwareImage] and [ESP8266ROMFirmwareImage] *)

(** [load_common_header(load_file, expected_magic)]: the segment count
    it returns, the three attributes it sets, and the file. *)
Definition load_common_header (load_file : file) (expected_magic : Z)
  : outcome (Z * Z * Z * Z * file) :=
  let (header, load_file) := read load_file 8 in
  let* (magic, segments, flash_mode, flash_size_freq, entrypoint) :=
    lift (unpack_BBBBI header) in
  if negb (magic =? expected_magic)
  then Failed (InvalidFirmwareImageMagic magic)
  else Returned (segments, flash_mode, flash_size_freq, entrypoint, load_file).

(** [verify()], on the list of segments. *)
Definition verify (segments : list ImageSegment.t) : outcome unit :=
  if Z.of_nat (length segments) >? 16
  then Failed (InvalidSegmentCount (Z.of_nat (length segments)))
  else Returned tt.

(** [load_segment(f)]: the segment it appends to [self.segments], and
    the file.  The warning it may print is not modelled. *)
Definition load_segment (f : file) : outcome (ImageSegment.t * file) :=
  let file_offs := tell f in
  let (header, f) := read f 8 in
  let* (offset, size) := lift (unpack_II header) in
  let (segment_data, f) := read f size in
  if len segment_data <? size
  then Failed (EndOfFileReadingSegment offset size (len segment_data))
  else Returned (ImageSegment.init offset segment_data (Some file_offs), f).

(** [for _ in range(segments): self.load_segment(load_file)]. *)
Fixpoint load_segments (count : nat) (f : file)
  : outcome (list ImageSegment.t * file) :=
  match count with
  | O => Returned ([], f)
  | S count' =>
      let* (segment, f) := load_segment f in
      let* (segments, f) := load_segments count' f in
      Returned (segment :: segments, f)
  end.

(** [read_checksum(f)]; at the end of the file [f.read(1)] is empty and
    [ord] raises. *)
Definition read_checksum (f : file) : outcome (Z * file) :=
  let f := align_file_position f 16 in
  let (b, f) := read f 1 in
  match b with
  | [c] => Returned (ord c, f)
  | _ => Failed (Raised TypeError)
  end.

(** [calculate_checksum()]. *)
Definition calculate_checksum (segments : list ImageSegment.t) : Z :=
  fold_left
    (fun checksum seg =>
       if ImageSegment.include_in_checksum seg
       then ESPLoader.checksum (ImageSegment.data seg) checksum
       else checksum)
    segments ESPLoader.ESP_CHECKSUM_MAGIC.

(** [ESP8266ROMFirmwareImage(load_file)]: the image object and its
    attribute [checksum]. *)
Definition ESP8266ROMFirmwareImage_load (load_file : file)
  : outcome (firmware_image * Z) :=
  let* (segments, flash_mode, flash_size_freq, entrypoint, load_file) :=
    load_common_header load_file ESPLoader.ESP_IMAGE_MAGIC in
  let* (loaded, load_file) := load_segments (Z.to_nat segments) load_file in
  let* (checksum, load_file) := read_checksum load_file in
  let* _ := verify loaded in
  Returned (ESP8266ROMFirmwareImage.init loaded entrypoint flash_mode flash_size_freq,
            checksum).

(** What a segment loads: its address and its bytes. *)
Definition loaded_at (s : ImageSegment.t) : Z * bytes :=
  (ImageSegment.addr s, ImageSegment.data s).

(** ** Loading the extended header of the ESP32 family *)

(** The local function [split_byte] of [load_extended_header]. *)
Definition split_byte (n : Z) : Z * Z :=
  (Z.land n 0x0F, Z.land (Z.shiftr n 4) 0x0F).

(** [struct.unpack(EXTENDED_HEADER_STRUCT_FMT, b)]: format [<BBBBHB],
    eight times [B], and [B]; 16 bytes, 15 fields. *)
Definition unpack_extended_header (b : bytes) : result (list Z) :=
  match b with
  | [b0; b1; b2; b3; b4; b5; b6; b7; b8; b9; b10; b11; b12; b13; b14; b15] =>
      Ok ([ord b0; ord b1; ord b2; ord b3; le_value [b4; b5]; ord b6]
          ++ map ord [b7; b8; b9; b10; b11; b12; b13; b14] ++ [ord b15])
  | _ => Err StructError
  end.

(** [load_extended_header(load_file)]: the image object as it leaves
    it, and the file.  The field after the chip id, where
    [save_extended_header] puts [min_rev], is not assigned to anything;
    the two warnings are printed, not raised. *)
Definition load_extended_header (self : firmware_image) (load_file : file)
  : outcome (firmware_image * file) :=
  let (raw, load_file) := read load_file 16 in
  let* fields := lift (unpack_extended_header raw) in
  match fields with
  | [f0; f1; f2; f3; chip_id; f5; r0; r1; r2; r3; r4; r5; r6; r7; append_digest] =>
      let (clk_drv, q_drv) := split_byte f1 in
      let (d_drv, cs_drv) := split_byte f2 in
      let (hd_drv, wp_drv) := split_byte f3 in
      if (append_digest =? 0) || (append_digest =? 1)
      then Returned
             ({| segments := segments self; entrypoint := entrypoint self;
                 elf_sha256 := elf_sha256 self;
                 elf_sha256_offset := elf_sha256_offset self;
                 flash_mode := flash_mode self;
                 flash_size_freq := flash_size_freq self;
                 secure_pad := secure_pad self; wp_pin := f0;
                 clk_drv := clk_drv; q_drv := q_drv; d_drv := d_drv;
                 cs_drv := cs_drv; hd_drv := hd_drv; wp_drv := wp_drv;
                 min_rev := min_rev self;
                 append_digest := (append_digest =? 1) |},
              load_file)
      else Failed (InvalidAppendDigest append_digest)
  | _ => Failed (Raised IndexError)
  end.

(** [self.segments.append(segment)] for each segment loaded. *)
Definition with_segments (self : firmware_image) (loaded : list ImageSegment.t)
  : firmware_image :=
  {| segments := segments self ++ loaded; entrypoint := entrypoint self;
     elf_sha256 := elf_sha256 self;
     elf_sha256_offset := elf_sha256_offset self;
     flash_mode := flash_mode self;
     flash_size_freq := flash_size_freq self;
     secure_pad := secure_pad self; wp_pin := wp_pin self;
     clk_drv := clk_drv self; q_drv := q_drv self; d_drv := d_drv self;
     cs_drv := cs_drv self; hd_drv := hd_drv self; wp_drv := wp_drv self;
     min_rev := min_rev self;
     append_digest := append_digest self |}.

(** [ESP32FirmwareImage(load_file)]: the image object, its attribute
    [checksum] and, when the header says a digest follows, its
    attributes [stored_digest] and [calc_digest]. *)
Definition ESP32FirmwareImage_load (sha256 : bytes -> bytes) (load_file : file)
  : outcome (firmware_image * Z * option (bytes * bytes)) :=
  let start := tell load_file in
  let* (segment_count, flash_mode, flash_size_freq, entrypoint, load_file) :=
    load_common_header load_file ESPLoader.ESP_IMAGE_MAGIC in
  let self := ESP32FirmwareImage.init [] entrypoint flash_mode flash_size_freq in
  let* (self, load_file) := load_extended_header self load_file in
  let* (loaded, load_file) := load_segments (Z.to_nat segment_count) load_file in
  let self := with_segments self loaded in
  let* (checksum, load_file) := read_checksum load_file in
  let digests :=
    if append_digest self
    then
      let end_ := tell load_file in
      let (stored_digest, load_file) := read load_file 32 in
      let load_file := seek load_file start in
      let (image, load_file) := read load_file (end_ - start) in
      Some (stored_digest, sha256 image)
    else None in
  let* _ := verify (segments self) in
  Returned (self, checksum, digests).

(** [body] is the segments [written], each with its load address and
    its bytes, one after the other: for each the 8-byte header of
    address and length, then the bytes. *)
Fixpoint holds_segments (body : bytes) (written : list (Z * bytes)) : Prop :=
  match written with
  | [] => body = []
  | (a, d) :: rest =>
      exists header tail,
        pack_II a (len d) = Ok header /\
        body = header ++ d ++ tail /\
        holds_segments tail rest
  end.

(** From [f0] to [f] the segments [written] were written at the end of
    the file, and the checksum went from [ck0] to [ck]. *)
Definition wrote (f0 f : file) (written : list (Z * bytes)) (ck0 ck : Z) : Prop :=
  at_end f /\
  (exists body, contents f = contents f0 ++ body /\ holds_segments body written) /\
  ck = ESPLoader.checksum (concat (map snd written)) ck0.

(** ** Class [ESP8266V2FirmwareImage] *)

Module ESPBOOTLOADER.
Definition IMAGE_V2_MAGIC : Z := 0xea.
Definition IMAGE_V2_SEGMENT : Z := 4.
End ESPBOOTLOADER.

(** Format [<BBBBI], packing. *)
Definition pack_BBBBI (a b c d e : Z) : result bytes :=
  let! x := pack_B a in
  let! y := pack_B b in
  let! z := pack_B c in
  let! w := pack_B d in
  let! v := pack_I e in
  Ok (x ++ y ++ z ++ w ++ v).

(** [ImageSegment.copy_with_new_addr(new_addr)] and
    [ImageSegment.pad_to_alignment(alignment)]. *)
Definition copy_with_new_addr (self : ImageSegment.t) (new_addr : Z) : ImageSegment.t :=
  ImageSegment.init new_addr (ImageSegment.data self) (Some 0).

Definition pad_to_alignment (self : ImageSegment.t) (alignment : Z) : ImageSegment.t :=
  {| ImageSegment.addr := ImageSegment.addr self;
     ImageSegment.data := pad_to (ImageSegment.data self) alignment x00;
     ImageSegment.file_offs := ImageSegment.file_offs self;
     ImageSegment.include_in_checksum := ImageSegment.include_in_checksum self |}.

Section Version2.

(** [binascii.crc32(data, value)]. *)
Variable crc32 : bytes -> Z -> Z.

Definition esp8266_crc32 (data : bytes) : Z :=
  let crc := Z.land (crc32 data 0) 0xFFFFFFFF in
  if negb (Z.land crc 0x80000000 =? 0)
  then Z.lxor crc 0xFFFFFFFF
  else crc + 1.

(** [ESP8266V2FirmwareImage.save(filename)]: the bytes of the file.
    The segment in IROM is saved with no checksum asked for. *)
Definition ESP8266V2FirmwareImage_save (self : firmware_image) : result bytes :=
  let f := new_file in
  let! first_header :=
    pack_BBBBI ESPBOOTLOADER.IMAGE_V2_MAGIC ESPBOOTLOADER.IMAGE_V2_SEGMENT
      (flash_mode self) (flash_size_freq self) (entrypoint self) in
  let f := write f first_header in
  let! irom_segment := BaseFirmwareImage.get_irom_segment self in
  let! f :=
    match irom_segment with
    | Some irom_segment =>
        let irom_segment := copy_with_new_addr irom_segment 0 in
        let irom_segment := pad_to_alignment irom_segment 16 in
        let! (f, _) := BaseFirmwareImage.save_segment self f irom_segment 0 in
        Ok f
    | None => Ok f
    end in
  let! normal_segments := BaseFirmwareImage.get_non_irom_segments self in
  let! f := BaseFirmwareImage.write_common_header self f normal_segments in
  let checksum := ESPLoader.ESP_CHECKSUM_MAGIC in
  let! (f, checksum) :=
    ESP8266ROMFirmwareImage.save_segments self f normal_segments checksum in
  let! f := BaseFirmwareImage.append_checksum f checksum in
  let data := contents f in
  let crc := esp8266_crc32 data in
  let! packed := pack_I crc in
  Ok (data ++ packed).

End Version2.

(** [ESP8266V2FirmwareImage(load_file)]: the image object and its
    attribute [checksum].  The warnings are printed, not raised. *)
Definition ESP8266V2FirmwareImage_load (load_file : file)
  : outcome (firmware_image * Z) :=
  let* (_, _, _, _, load_file) :=
    load_common_header load_file ESPBOOTLOADER.IMAGE_V2_MAGIC in
  let* (irom_segment, load_file) := load_segment load_file in
  let irom_segment :=
    {| ImageSegment.addr := 0;
       ImageSegment.data := ImageSegment.data irom_segment;
       ImageSegment.file_offs := ImageSegment.file_offs irom_segment;
       ImageSegment.include_in_checksum := false |} in
  let* (segment_count, flash_mode, flash_size_freq, entrypoint, load_file) :=
    load_common_header load_file ESPLoader.ESP_IMAGE_MAGIC in
  let* (loaded, load_file) := load_segments (Z.to_nat segment_count) load_file in
  let* (checksum, load_file) := read_checksum load_file in
  let* _ := verify (irom_segment :: loaded) in
  Returned (ESP8266ROMFirmwareImage.init (irom_segment :: loaded)
              entrypoint flash_mode flash_size_freq,
            checksum).

(** ** [_update_image_flash_params] *)

(** The choices of the arguments [--flash_mode], [--flash_freq] and
    [--flash_size]; a size is [keep] or a name looked up in
    [FLASH_SIZES]. *)
Inductive flash_mode_arg : Type := flash_mode_keep | qio | qout | dio | dout.
Inductive flash_freq_arg : Type :=
  flash_freq_keep | freq_40m | freq_26m | freq_20m | freq_80m.
Inductive flash_size_arg : Type :=
  flash_size_keep | flash_size_named (name : String.string).

Record flash_args : Type := mk_flash_args {
  args_flash_mode : flash_mode_arg;
  args_flash_freq : flash_freq_arg;
  args_flash_size : flash_size_arg
}.

Section UpdateImageFlashParams.

(** The class attributes [BOOTLOADER_FLASH_OFFSET] and [FLASH_SIZES] of
    [esp], and [esp.BOOTLOADER_IMAGE(io.BytesIO(image))] followed by
    [verify()]: what it raises, if anything. *)
Variable BOOTLOADER_FLASH_OFFSET : Z.
Variable FLASH_SIZES : list (String.string * Z).
Variable BOOTLOADER_IMAGE : file -> outcome unit.

(** [ESPLoader.parse_flash_size_arg(arg)]. *)
Definition parse_flash_size_arg (arg : String.string) : outcome Z :=
  match find (fun entry => String.eqb (fst entry) arg) FLASH_SIZES with
  | Some entry => Returned (snd entry)
  | None => Failed (FlashSizeNotSupported arg)
  end.

Definition _update_image_flash_params (address : Z) (args : flash_args) (image : bytes)
  : outcome bytes :=
  if len image <? 8 then Returned image
  else
    match slice_to image 4 with
    | [magic; _; flash_mode; flash_size_freq] =>
        if negb (address =? BOOTLOADER_FLASH_OFFSET) then Returned image
        else
          match args_flash_mode args, args_flash_freq args, args_flash_size args with
          | flash_mode_keep, flash_freq_keep, flash_size_keep => Returned image
          | _, _, _ =>
              if negb (ord magic =? ESPLoader.ESP_IMAGE_MAGIC) then Returned image
              else
                match BOOTLOADER_IMAGE (mk_file image 0) with
                | Failed _ => Returned image
                | Returned _ =>
                    let flash_mode :=
                      match args_flash_mode args with
                      | flash_mode_keep => ord flash_mode
                      | qio => 0 | qout => 1 | dio => 2 | dout => 3
                      end in
                    let flash_freq :=
                      match args_flash_freq args with
                      | flash_freq_keep => Z.land (ord flash_size_freq) 0x0F
                      | freq_40m => 0 | freq_26m => 1 | freq_20m => 2 | freq_80m => 0xf
                      end in
                    let* flash_size :=
                      match args_flash_size args with
                      | flash_size_keep => Returned (Z.land (ord flash_size_freq) 0xF0)
                      | flash_size_named name => parse_flash_size_arg name
                      end in
                    let* flash_params :=
                      lift (pack_Bs [flash_mode; flash_size + flash_freq]) in
                    if negb (bytes_eqb flash_params (slice image 2 4))
                    then Returned (slice image 0 2 ++ flash_params ++ slice_from image 4)
                    else Returned image
                end
          end
    | _ => Failed (Raised StructError)
    end.

End UpdateImageFlashParams.

(** Whether all three arguments are [keep]. *)
Definition keeps_all (args : flash_args) : bool :=
  match args_flash_mode args, args_flash_freq args, args_flash_size args with
  | flash_mode_keep, flash_freq_keep, flash_size_keep => true
  | _, _, _ => false
  end.

(** ** Merging adjacent segments *)

Section MergeAdjacentSegments.

(** The class attribute [ROM_LOADER.MEMORY_MAP] of the image: ranges
    with their names. *)
Variable MEMORY_MAP : list (Z * Z * String.string).

(** [ImageSegment.get_memory_type(image)]. *)
Definition get_memory_type (self : ImageSegment.t) : list String.string :=
  map (fun map_range => snd map_range)
      (filter (fun map_range =>
                 (fst (fst map_range) <=? ImageSegment.addr self)
                 && (ImageSegment.addr self <? snd (fst map_range)))
              MEMORY_MAP).

(** The three conditions of the [if all((...))] of the loop. *)
Definition can_merge (elem next_elem : ImageSegment.t) : bool :=
  (if list_eq_dec String.string_dec (get_memory_type elem) (get_memory_type next_elem)
   then true else false)
  && Bool.eqb (ImageSegment.include_in_checksum elem)
              (ImageSegment.include_in_checksum next_elem)
  && (ImageSegment.addr next_elem
      =? ImageSegment.addr elem + len (ImageSegment.data elem)).

(** [elem] after [elem.data += next_elem.data]. *)
Definition merged_with (elem next_elem : ImageSegment.t) : ImageSegment.t :=
  {| ImageSegment.addr := ImageSegment.addr elem;
     ImageSegment.data := ImageSegment.data elem ++ ImageSegment.data next_elem;
     ImageSegment.file_offs := ImageSegment.file_offs elem;
     ImageSegment.include_in_checksum := ImageSegment.include_in_checksum elem |}.

(** The loop of [merge_adjacent_segments], which goes through
    [self.segments] from its end: for the part of the list given, its
    first segment as the loop leaves it, with the data of those merged
    into it, and after it the list [segments] built so far. *)
Fixpoint merge_loop (segs : list ImageSegment.t) : list ImageSegment.t :=
  match segs with
  | [] => []
  | elem :: rest =>
      match merge_loop rest with
      | [] => [elem]
      | next_elem :: segments =>
          if can_merge elem next_elem
          then merged_with elem next_elem :: segments
          else elem :: next_elem :: segments
      end
  end.

(** [merge_adjacent_segments()]: the new value of [self.segments]. *)
Definition merge_adjacent_segments (segments : list ImageSegment.t)
  : list ImageSegment.t :=
  match segments with
  | [] => []
  | _ :: _ => merge_loop segments
  end.

End MergeAdjacentSegments.

(** The bytes [d] loaded from address [a] on, each with its address,
    and what a list of segments loads. *)
Fixpoint place (a : Z) (d : bytes) : list (Z * byte) :=
  match d with
  | [] => []
  | b :: d' => (a, b) :: place (a + 1) d'
  end.

Definition loads (segments : list ImageSegment.t) : list (Z * byte) :=
  flat_map (fun s => place (ImageSegment.addr s) (ImageSegment.data s)) segments.

(** An image with drive strengths set, one of them wider than four
    bits, and a minimum chip revision. *)
Definition driven_image : firmware_image :=
  {| segments := []; entrypoint := 0;
     elf_sha256 := None; elf_sha256_offset := 0;
     flash_mode := 0; flash_size_freq := 0;
     secure_pad := None; wp_pin := 0xEE;
     clk_drv := 0x13; q_drv := 2; d_drv := 3; cs_drv := 4; hd_drv := 5;
     wp_drv := 6; min_rev := 3; append_digest := false |}.

(** A version 1 image of three segments: one in IRAM of three bytes,
    which the constructor pads to four, one in IROM, one in DRAM. *)
Definition three_segment_image : firmware_image :=
  ESP8266ROMFirmwareImage.init
    [ImageSegment.init 0x40100000 [x01; x02; x03] None;
     ImageSegment.init 0x40210000 [xaa; xbb; xcc; xdd] None;
     ImageSegment.init 0x3ffe8000 [x05; x06; x07; x08; x09; x0a; x0b; x0c] None]
    0x40100004 0x02 0x20.

(** An image for secure boot version 2 with no segments, and an empty
    file with its position 60 bytes before a 64KB boundary. *)
Definition secure_image : firmware_image :=
  {| segments := []; entrypoint := 0;
     elf_sha256 := None; elf_sha256_offset := 0;
     flash_mode := 0; flash_size_freq := 0;
     secure_pad := Some SecurePad2; wp_pin := 0xEE;
     clk_drv := 0; q_drv := 0; d_drv := 0; cs_drv := 0; hd_drv := 0;
     wp_drv := 0; min_rev := 0; append_digest := true |}.

Definition sought_to_65476 : file := seek new_file 65476.

(** A stand-in for [binascii.crc32], and the version 2 file of
    [three_segment_image] with it. *)
Definition stand_in_crc32 (data : bytes) (value : Z) : Z := 0x12345678.

Definition three_segment_image_v2_saved : bytes :=
  match ESP8266V2FirmwareImage_save stand_in_crc32 three_segment_image with
  | Ok out => out
  | Err _ => []
  end.

(** [ESP8266ROM.FLASH_SIZES], [ESP8266ROM.BOOTLOADER_IMAGE] as
    [_update_image_flash_params] uses it, and the 0x00000 file of
    [three_segment_image]. *)
Module FlashSizes.
Import String.

Definition ESP8266ROM_FLASH_SIZES : list (string * Z) :=
  [("512KB"%string, 0x00); ("256KB"%string, 0x10); ("1MB"%string, 0x20);
   ("2MB"%string, 0x30); ("4MB"%string, 0x40); ("2MB-c1"%string, 0x50);
   ("4MB-c1"%string, 0x60); ("8MB"%string, 0x80); ("16MB"%string, 0x90)].

Definition size_4MB : string := "4MB"%string.

End FlashSizes.

Definition ESP8266ROM_BOOTLOADER_FLASH_OFFSET : Z := 0.

Definition ESP8266ROM_BOOTLOADER_IMAGE (load_file : file) : outcome unit :=
  let* (image, _) := ESP8266ROMFirmwareImage_load load_file in
  verify (segments image).

Definition three_segment_image_saved : bytes :=
  match ESP8266ROMFirmwareImage.save three_segment_image with
  | Ok (_, out) => out
  | Err _ => []
  end.

(* ================================================================== *)
(** * Properties *)

(** ** Framing *)

Lemma for_loop_app (chunk more : bytes) (l : slip_reader.locals) :
  slip_reader.for_loop l (chunk ++ more) =
  match slip_reader.for_loop l chunk with
  | slip_reader.Exhausted l' => slip_reader.for_loop l' more
  | slip_reader.Yielded p l' rest => slip_reader.Yielded p l' (rest ++ more)
  | slip_reader.Raised e => slip_reader.Raised e
  end.
Proof.
  revert l; induction chunk as [|b chunk IH]; intros l; simpl; [reflexivity|].
  destruct (slip_reader.on_byte l b); auto.
Qed.

Lemma replace_twice_cons (b : byte) (packet : bytes) :
  replace xc0 [xdb; xdc] (replace xdb [xdb; xdd] (b :: packet)) =
  spec_escape b ++ replace xc0 [xdb; xdc] (replace xdb [xdb; xdd] packet).
Proof.
  unfold replace at 2; simpl flat_map; fold (replace xdb [xdb; xdd] packet).
  unfold replace at 1; rewrite flat_map_app.
  fold (replace xc0 [xdb; xdc] (replace xdb [xdb; xdd] packet)).
  f_equal. unfold spec_escape.
  destruct (Byte.eqb b xdb) eqn:Hdb; simpl; [reflexivity|].
  destruct (Byte.eqb b xc0); reflexivity.
Qed.

Lemma write_is_spec_encode (packet : bytes) :
  ESPLoader.write packet = spec_encode packet.
Proof.
  unfold ESPLoader.write, spec_encode. do 2 f_equal.
  induction packet as [|b packet IH]; [reflexivity|].
  rewrite replace_twice_cons, IH. reflexivity.
Qed.

(** Inside a packet and outside an escape, the escaped form of one byte
    appends that byte to the partial packet. *)
Lemma for_loop_escape (b : byte) (p more : bytes) :
  slip_reader.for_loop (slip_reader.mk_locals (Some p) false) (spec_escape b ++ more) =
  slip_reader.for_loop (slip_reader.mk_locals (Some (p ++ [b])) false) more.
Proof.
  unfold spec_escape.
  destruct (Byte.eqb b xdb) eqn:Hdb.
  - apply Byte.byte_dec_bl in Hdb; subst b. reflexivity.
  - destruct (Byte.eqb b xc0) eqn:Hc0.
    + apply Byte.byte_dec_bl in Hc0; subst b. reflexivity.
    + simpl. unfold slip_reader.on_byte; simpl. rewrite Hdb, Hc0. reflexivity.
Qed.

Lemma for_loop_body (packet p more : bytes) :
  slip_reader.for_loop (slip_reader.mk_locals (Some p) false)
    (flat_map spec_escape packet ++ more) =
  slip_reader.for_loop (slip_reader.mk_locals (Some (p ++ packet)) false) more.
Proof.
  revert p; induction packet as [|b packet IH]; intros p; simpl.
  - now rewrite app_nil_r.
  - rewrite <- app_assoc, for_loop_escape, IH, <- app_assoc. reflexivity.
Qed.

Lemma for_loop_frame (packet more : bytes) :
  slip_reader.for_loop slip_reader.start (spec_encode packet ++ more) =
  slip_reader.Yielded packet slip_reader.start more.
Proof.
  unfold spec_encode. simpl.
  rewrite <- app_assoc, for_loop_body. reflexivity.
Qed.

(** Reading a stream in pieces: when the [for] loop over the whole of
    [concat reads] yields at its last byte, the [while] loop over the
    reads yields the same packet with nothing left over. *)
Lemma while_loop_reads (reads later : list bytes) :
  forall (l l' : slip_reader.locals) (p : bytes),
    Forall (fun r => r <> []) reads ->
    slip_reader.for_loop l (concat reads) = slip_reader.Yielded p l' [] ->
    slip_reader.while_loop l (reads ++ later) =
    Ok (p, slip_reader.mk_generator l' [] later).
Proof.
  induction reads as [|chunk reads IH]; intros l l' p Hne Hfor; simpl in *.
  - discriminate.
  - inversion Hne as [|? ? Hchunk Hrest]; subst.
    destruct chunk as [|b chunk]; [congruence|].
    rewrite for_loop_app in Hfor.
    destruct (slip_reader.for_loop l (b :: chunk)) as [l1|p1 l1 rest|e].
    + now apply IH.
    + inversion Hfor; subst.
      match goal with H : _ ++ _ = [] |- _ => apply app_eq_nil in H; destruct H as [-> Hc] end.
      destruct reads as [|r reads]; [reflexivity|].
      inversion Hrest; subst. simpl in Hc.
      apply app_eq_nil in Hc. tauto.
    + discriminate.
Qed.

(** C1. Framing round trip: the writer's buffer for [b] is [0xC0], the
    body of [b] with [0xDB] escaped as [0xDB 0xDD] and [0xC0] as
    [0xDB 0xDC], then [0xC0]; and when the port delivers that buffer, in
    whatever non-empty reads, the reader's next packet is exactly [b] and
    the reader is back between packets with nothing buffered. *)
Theorem framing_round_trip :
  forall (b : bytes) (reads later : list bytes),
    concat reads = ESPLoader.write b ->
    Forall (fun r => r <> []) reads ->
    ESPLoader.write b = [xc0] ++ flat_map spec_escape b ++ [xc0] /\
    ESPLoader.read (slip_reader.create (reads ++ later)) =
    Ok (b, slip_reader.create later).
Proof.
  intros b reads later Hcat Hne. split.
  - apply write_is_spec_encode.
  - unfold ESPLoader.read, slip_reader.next, slip_reader.create; simpl.
    apply while_loop_reads; [assumption|].
    rewrite Hcat, write_is_spec_encode.
    rewrite <- (app_nil_r (spec_encode b)). apply for_loop_frame.
Qed.

(** C1 at the packet [C0 DB 00], delivered in three reads and followed
    by another read. *)
Lemma framing_round_trip_witness :
  ESPLoader.write [xc0; xdb; x00] = [xc0; xdb; xdc; xdb; xdd; x00; xc0] /\
  ESPLoader.read
    (slip_reader.create ([[xc0; xdb]; [xdc; xdb; xdd]; [x00; xc0]] ++ [[x41]])) =
  Ok ([xc0; xdb; x00], slip_reader.create [[x41]]).
Proof.
  destruct (framing_round_trip [xc0; xdb; x00]
              [[xc0; xdb]; [xdc; xdb; xdd]; [x00; xc0]] [[x41]]) as [_ H].
  - reflexivity.
  - repeat constructor; discriminate.
  - split; [reflexivity | exact H].
Defined.

(** C9. Between packets ([partial_packet is None]) a byte other than
    [0xC0] raises "Invalid head of packet": whether it is the next byte
    of the buffer being iterated or, that buffer being finished, the
    first byte of the next read. *)
Theorem junk_between_frames_raises :
  forall (b : byte) (esc : bool) (rest : bytes) (port : list bytes),
    b <> xc0 ->
    slip_reader.on_byte (slip_reader.mk_locals None esc) b =
      slip_reader.Raise (InvalidHeadOfPacket b) /\
    slip_reader.next
      (slip_reader.mk_generator (slip_reader.mk_locals None esc) (b :: rest) port) =
      Err (InvalidHeadOfPacket b) /\
    slip_reader.next
      (slip_reader.mk_generator (slip_reader.mk_locals None esc) [] ((b :: rest) :: port)) =
      Err (InvalidHeadOfPacket b).
Proof.
  intros b esc rest port Hb.
  assert (Heq : Byte.eqb b xc0 = false).
  { destruct (Byte.eqb b xc0) eqn:E; [|reflexivity].
    apply Byte.byte_dec_bl in E. contradiction. }
  unfold slip_reader.next, slip_reader.on_byte; simpl.
  unfold slip_reader.on_byte; simpl. rewrite Heq. auto.
Qed.

(** C9 at a port whose first byte is [0x41]. *)
Lemma junk_between_frames_raises_witness :
  slip_reader.next (slip_reader.create [[x41; xc0; xc0]]) =
  Err (InvalidHeadOfPacket x41).
Proof.
  apply (junk_between_frames_raises x41 false [xc0; xc0] []).
  discriminate.
Defined.

(** ** Erase sizing *)

(** [ceil a b] is the least integer [q] with [a <= q * b]. *)
Lemma ceil_least (a b : Z) :
  0 < b -> a <= ceil a b * b /\ forall q, a <= q * b -> ceil a b <= q.
Proof.
  intros Hb. unfold ceil.
  pose proof (Z.div_mod (- a) b ltac:(lia)) as Hdm.
  pose proof (Z.mod_pos_bound (- a) b Hb) as Hm.
  split; [nia|].
  intros q Hq. nia.
Qed.

Lemma ceil_as_floor (a b : Z) : 0 < b -> (a + b - 1) / b = ceil a b.
Proof.
  intros Hb. unfold ceil.
  pose proof (Z.div_mod (- a) b ltac:(lia)) as Hdm.
  pose proof (Z.mod_pos_bound (- a) b Hb) as Hm.
  symmetry. apply Z.div_unique with (r := b - 1 - (- a) mod b); [lia|nia].
Qed.

(** C2. The ESP8266 ROM erase size is the specification's formula at
    every offset and size (sector-aligned or not), and it takes the
    three listed values. *)
Theorem get_erase_size_formula :
  (forall offset size : Z,
      ESP8266ROM.get_erase_size offset size = spec_erase_size offset size) /\
  ESP8266ROM.get_erase_size 0x1000 0x1000 = 0x1000 /\
  ESP8266ROM.get_erase_size 0x1000 0xF000 = 0x8000 /\
  ESP8266ROM.get_erase_size 0x0 0x1000 = 0x1000.
Proof.
  split; [|repeat split; reflexivity].
  intros offset size.
  unfold ESP8266ROM.get_erase_size, spec_erase_size, ESPLoader.FLASH_SECTOR_SIZE.
  cbv zeta.
  rewrite (ceil_as_floor size 0x1000) by lia.
  set (n := ceil size 4096).
  set (h := 16 - (offset / 4096) mod 16).
  replace ((n + 1) / 2) with (ceil n 2)
    by (rewrite <- ceil_as_floor by lia; f_equal; lia).
  destruct (n <? h) eqn:Hlt.
  - apply Z.ltb_lt in Hlt. rewrite Z.min_r by lia. reflexivity.
  - apply Z.ltb_ge in Hlt. rewrite Z.min_l by lia. reflexivity.
Qed.

(** C3, as the specification has it, fails: at offset 0x4000 and size
    0x10000 the result is not 0x10000. *)
Lemma erase_size_0x4000_not_0x10000 :
  ESP8266ROM.get_erase_size 0x4000 0x10000 <> 0x10000.
Proof. vm_compute. discriminate. Qed.

(** C3, amended. At offset 0x4000 and size 0x10000 there are 16 sectors
    starting at sector 4 and 12 head sectors; 16 < 2 * 12, so the
    half-round path is taken and the erase size is 8 sectors, 0x8000. *)
Theorem erase_size_0x4000_0x10000 :
  (0x10000 + 0x1000 - 1) / 0x1000 = 16 /\
  0x4000 / 0x1000 = 4 /\
  Z.min (16 - 4 mod 16) 16 = 12 /\
  (16 <? 2 * 12) = true /\
  ESP8266ROM.get_erase_size 0x4000 0x10000 = (16 + 1) / 2 * 0x1000 /\
  ESP8266ROM.get_erase_size 0x4000 0x10000 = 0x8000.
Proof. repeat split; reflexivity. Qed.

(** ** [_mask_to_shift] and [update_reg] *)

Lemma land_1_is_bit0 (mask : Z) :
  (Z.land mask 0x1 =? 0) = negb (Z.testbit mask 0).
Proof.
  change 0x1 with (Z.ones 1). rewrite Z.land_ones by lia.
  rewrite Z.bit0_eqb. change (2 ^ 1) with 2.
  pose proof (Z.mod_pos_bound mask 2 ltac:(lia)).
  destruct (mask mod 2 =? 0) eqn:E0, (mask mod 2 =? 1) eqn:E1; try reflexivity; lia.
Qed.

(** A mask below [2 ^ n] with a set bit: the loop stops within [n]
    evaluations of its condition, having added the index of the lowest
    set bit to [shift]. *)
Lemma mask_to_shift_loop_lsb (n : nat) :
  forall (fuel : nat) (mask shift : Z),
    0 < mask < 2 ^ Z.of_nat n ->
    (n <= fuel)%nat ->
    exists k,
      0 <= k < Z.of_nat n /\
      Z.testbit mask k = true /\
      (forall j, 0 <= j < k -> Z.testbit mask j = false) /\
      mask_to_shift_loop fuel mask shift = Some (shift + k).
Proof.
  induction n as [|n IH]; intros fuel mask shift Hmask Hfuel.
  - simpl in Hmask. lia.
  - destruct fuel as [|fuel]; [lia|]. simpl mask_to_shift_loop.
    rewrite land_1_is_bit0.
    destruct (Z.testbit mask 0) eqn:Hb0; simpl.
    + exists 0. rewrite Z.add_0_r. repeat split; try lia. exact Hb0.
    + assert (Hhalf : 0 < Z.shiftr mask 1 < 2 ^ Z.of_nat n).
      { rewrite Z.shiftr_div_pow2 by lia. change (2 ^ 1) with 2.
        rewrite Z.bit0_odd in Hb0.
        pose proof (Z.div_mod mask 2 ltac:(lia)) as Hdm.
        rewrite Zmod_odd, Hb0 in Hdm.
        replace (2 ^ Z.of_nat (S n)) with (2 * 2 ^ Z.of_nat n) in Hmask
          by (rewrite Nat2Z.inj_succ, Z.pow_succ_r by lia; reflexivity).
        lia. }
      destruct (IH fuel (Z.shiftr mask 1) (shift + 1) Hhalf ltac:(lia))
        as (k & Hk & Hset & Hlow & Hloop).
      exists (k + 1). repeat split; try lia.
      * rewrite Z.shiftr_spec in Hset by lia. exact Hset.
      * intros j Hj. destruct (Z.eq_dec j 0) as [->|Hj0]; [exact Hb0|].
        specialize (Hlow (j - 1) ltac:(lia)).
        rewrite Z.shiftr_spec in Hlow by lia.
        replace (j - 1 + 1) with j in Hlow by lia. exact Hlow.
      * rewrite Hloop. f_equal. lia.
Qed.

Lemma mask_to_shift_loop_zero (fuel : nat) :
  forall shift, mask_to_shift_loop fuel 0 shift = None.
Proof.
  induction fuel as [|fuel IH]; intros shift; simpl; [reflexivity|apply IH].
Qed.

(** C10. For a 32-bit mask with a set bit, [_mask_to_shift] returns
    within 32 evaluations of its loop condition, and what it returns is
    the index of the mask's lowest set bit; [update_reg] then reads the
    register, writes [(old & ~mask) | ((new_val << shift) & mask)] and
    returns that value.  For mask 0 the loop is still running after any
    number of steps, and so is [update_reg]. *)
Theorem mask_to_shift_lsb :
  forall mask : Z,
    0 < mask < 2 ^ 32 ->
    (exists shift,
        0 <= shift < 32 /\
        Z.testbit mask shift = true /\
        (forall j, 0 <= j < shift -> Z.testbit mask j = false) /\
        (forall fuel, (32 <= fuel)%nat -> _mask_to_shift fuel mask = Some shift) /\
        (forall (target : Type) read_reg write_reg (t : target) addr new_val fuel,
            (32 <= fuel)%nat ->
            update_reg target read_reg write_reg fuel t addr mask new_val =
            Some (let! (old, t1) := read_reg t addr in
                  let written :=
                    Z.lor (Z.land old (Z.lnot mask))
                          (Z.land (Z.shiftl new_val shift) mask) in
                  let! t2 := write_reg t1 addr written in
                  Ok (written, t2)))) /\
    (forall fuel, _mask_to_shift fuel 0 = None) /\
    (forall (target : Type) read_reg write_reg (t : target) addr new_val fuel,
        update_reg target read_reg write_reg fuel t addr 0 new_val = None).
Proof.
  intros mask Hmask. split; [|split].
  - destruct (mask_to_shift_loop_lsb 32 32 mask 0 Hmask (le_n _))
      as (k & Hk & Hset & Hlow & _).
    exists k.
    assert (Hret : forall fuel, (32 <= fuel)%nat -> _mask_to_shift fuel mask = Some k).
    { intros fuel Hfuel.
      destruct (mask_to_shift_loop_lsb 32 fuel mask 0 Hmask Hfuel)
        as (k' & Hk' & Hset' & Hlow' & Hloop').
      unfold _mask_to_shift. rewrite Hloop'. f_equal.
      destruct (Z.lt_trichotomy k k') as [Hlt|[Heq|Hgt]]; [|lia|].
      - rewrite (Hlow' k) in Hset by lia. discriminate.
      - rewrite (Hlow k') in Hset' by lia. discriminate. }
    repeat split; try lia; try assumption.
    intros target read_reg write_reg t addr new_val fuel Hfuel.
    unfold update_reg. rewrite (Hret fuel Hfuel). reflexivity.
  - intros fuel. apply mask_to_shift_loop_zero.
  - intros. unfold update_reg, _mask_to_shift.
    rewrite mask_to_shift_loop_zero. reflexivity.
Qed.

(** C10 at the mask [0x0F00]: shift 8, and [0xABCD] updated with 5 under
    the mask is [0xA5CD]. *)
Lemma mask_to_shift_lsb_witness :
  _mask_to_shift 32 0x0F00 = Some 8 /\
  option_map (fun r => match r with Ok (v, _) => Some v | Err _ => None end)
    (update_reg (Z -> Z) example_read_reg example_write_reg 32
       (fun a => if a =? 0x60000200 then 0xABCD else 0) 0x60000200 0x0F00 0x5) =
  Some (Some 0xA5CD).
Proof.
  destruct (mask_to_shift_lsb 0x0F00 ltac:(lia))
    as [(shift & _ & _ & _ & Hret & Hupd) _].
  split; [reflexivity|].
  rewrite (Hupd (Z -> Z) example_read_reg example_write_reg _ _ _ 32%nat (le_n _)).
  assert (Hs : Some shift = Some 8)
    by (rewrite <- (Hret 32%nat (le_n _)); reflexivity).
  injection Hs as ->. reflexivity.
Defined.

(** ** Status bytes of a reply *)

Lemma len_app (a b : bytes) : len (a ++ b) = len a + len b.
Proof. unfold len. rewrite length_app. lia. Qed.

Lemma len_nonneg (a : bytes) : 0 <= len a.
Proof. unfold len. lia. Qed.

(** The two negative slices of [check_command] cut a body into the data
    before the status bytes and the status bytes. *)
Lemma slices_of_body (data status : bytes) :
  0 < len status ->
  slice_from (data ++ status) (- len status) = status /\
  slice_to (data ++ status) (- len status) = data.
Proof.
  intros Hpos. unfold slice_from, slice_to, slice_bound.
  rewrite len_app.
  replace (- len status <? 0) with true by (symmetry; apply Z.ltb_lt; lia).
  pose proof (len_nonneg data).
  rewrite Z.max_r by lia.
  replace (len data + len status + - len status) with (len data) by lia.
  unfold len. rewrite Nat2Z.id. split.
  - rewrite skipn_app, skipn_all, Nat.sub_diag. reflexivity.
  - rewrite firstn_app, firstn_all, Nat.sub_diag, app_nil_r. reflexivity.
Qed.

(** C8. [check_command] on a reply [(val, body)], with a positive status
    length: a body shorter than the status length raises the status
    length error; a body that is [data] followed by the status bytes
    raises the remote failure carrying the status bytes when their first
    byte is not zero, and otherwise returns [data] when [data] is not
    empty and [val] when it is.  An exception of [command] passes
    through. *)
Theorem check_command_cases :
  forall (status_len val : Z),
    0 < status_len ->
    (forall body,
        len body < status_len ->
        check_command status_len (Ok (val, body)) =
        Err (OnlyGotStatusResponse (len body))) /\
    (forall data first status,
        len (first :: status) = status_len ->
        check_command status_len (Ok (val, data ++ first :: status)) =
        if ord first =? 0
        then match data with
             | [] => Ok (inr val)
             | _ :: _ => Ok (inl data)
             end
        else Err (FailedWithResult (first :: status))) /\
    (forall e, check_command status_len (Err e) = Err e).
Proof.
  intros status_len val Hpos. split; [|split].
  - intros body Hshort. unfold check_command; simpl.
    replace (len body <? status_len) with true by (symmetry; apply Z.ltb_lt; lia).
    reflexivity.
  - intros data first status Hlen. unfold check_command; simpl bind.
    pose proof (len_nonneg data) as Hd.
    rewrite len_app.
    replace (len data + len (first :: status) <? status_len) with false
      by (symmetry; apply Z.ltb_ge; lia).
    subst status_len.
    destruct (slices_of_body data (first :: status) Hpos) as [-> ->].
    simpl. destruct (ord first =? 0); simpl; [|reflexivity].
    destruct data as [|d data].
    + rewrite Z.gtb_ltb.
      replace (_ <? _) with false; [reflexivity|].
      symmetry. apply Z.ltb_ge. simpl. lia.
    + rewrite Z.gtb_ltb.
      replace (_ <? _) with true; [reflexivity|].
      symmetry. apply Z.ltb_lt. unfold len. simpl length. lia.
  - reflexivity.
Qed.

(** C8 at status lengths 2 and 4. *)
Lemma check_command_cases_witness :
  check_command 2 (Ok (7, [x01])) = Err (OnlyGotStatusResponse 1) /\
  check_command 2 (Ok (7, [xaa; xbb] ++ [x00; x00])) = Ok (inl [xaa; xbb]) /\
  check_command 2 (Ok (7, [] ++ [x00; x00])) = Ok (inr 7) /\
  check_command 4 (Ok (7, [xaa] ++ [x01; x05; x00; x00])) =
    Err (FailedWithResult [x01; x05; x00; x00]).
Proof.
  destruct (check_command_cases 2 7 ltac:(lia)) as (Hshort & Hbody & _).
  destruct (check_command_cases 4 7 ltac:(lia)) as (_ & Hbody4 & _).
  split; [|split; [|split]].
  - apply (Hshort [x01]). reflexivity.
  - apply (Hbody [xaa; xbb] x00 [x00]). reflexivity.
  - apply (Hbody [] x00 [x00]). reflexivity.
  - apply (Hbody4 [xaa] x01 [x05; x00; x00]). reflexivity.
Defined.

(** ** Version 1 image *)

(** C4, as the specification has it, fails: the file saved for the
    scenario is not the header, the segment and 15 bytes of padding
    before the checksum byte. *)
Lemma v1_image_not_15_bytes_of_padding :
  ~ exists irom_file,
      ESP8266ROMFirmwareImage.save scenario_image =
      Ok (irom_file,
          [xe9; x01; x02; x20; x00; x00; x10; x40;
           x00; x00; x10; x40; x08; x00; x00; x00]
          ++ zeros 8 ++ zeros 15 ++ [xef]).
Proof.
  intros [irom_file H]. vm_compute in H. discriminate.
Qed.

(** C4, amended. The file saved for the scenario is the bytes
    E9 01 02 20 00 00 10 40 00 00 10 40 08 00 00 00, the eight data
    bytes, 7 bytes of zero padding and the checksum byte 0xEF: 32 bytes,
    the checksum byte being the last of a 16-byte block; no IROM file is
    written. *)
Theorem v1_image_scenario :
  ESP8266ROMFirmwareImage.save scenario_image =
  Ok (None,
      [xe9; x01; x02; x20; x00; x00; x10; x40;
       x00; x00; x10; x40; x08; x00; x00; x00]
      ++ zeros 8 ++ zeros 7 ++ [xef]) /\
  len ([xe9; x01; x02; x20; x00; x00; x10; x40;
        x00; x00; x10; x40; x08; x00; x00; x00]
       ++ zeros 8 ++ zeros 7 ++ [xef]) mod 16 = 0 /\
  ESPLoader.checksum (zeros 8) ESPLoader.ESP_CHECKSUM_MAGIC = 0xEF.
Proof. repeat split; vm_compute; reflexivity. Qed.

(** ** Placing the digest of the ELF file *)

(** C7, evaluated where the code departs from it.  The only segment of
    the image has its header at file offset 8 and its 40 zero bytes of
    data at [16, 56).  With the digest to go at file offset 20, the 32
    bytes [20, 52) lie strictly inside the data and are zero, and [save]
    raises the segment boundary error; with a segment of 48 zero bytes
    the same place is accepted and the digest is written there.  With
    the digest to go at file offset 50, inside the data of the 40-byte
    segment, [save] raises nothing and writes the segment as it is. *)
Theorem digest_window_at_end_of_data :
  (8 + BaseFirmwareImage.SEG_HEADER_LEN < 20 /\
   20 + BaseFirmwareImage.SHA256_DIGEST_LEN
     < 8 + BaseFirmwareImage.SEG_HEADER_LEN + len (zeros 40)) /\
  BaseFirmwareImage.maybe_patch_segment_data (digest_image 40 20)
    (mk_file [xe9; x01; x02; x20; x00; x00; x10; x40] 8) (zeros 40) =
  Err (DigestOnSegmentBoundary 20 8 40) /\
  ESP8266ROMFirmwareImage.save (digest_image 40 20) =
  Err (DigestOnSegmentBoundary 20 8 40) /\
  BaseFirmwareImage.maybe_patch_segment_data (digest_image 48 20)
    (mk_file [xe9; x01; x02; x20; x00; x00; x10; x40] 8) (zeros 48) =
  Ok (zeros 4 ++ repeat xaa 32 ++ zeros 12) /\
  (8 + BaseFirmwareImage.SEG_HEADER_LEN <= 50
   < 8 + BaseFirmwareImage.SEG_HEADER_LEN + len (zeros 40)) /\
  BaseFirmwareImage.maybe_patch_segment_data (digest_image 40 50)
    (mk_file [xe9; x01; x02; x20; x00; x00; x10; x40] 8) (zeros 40) =
  Ok (zeros 40) /\
  ESP8266ROMFirmwareImage.save (digest_image 40 50) =
  Ok (None,
      [xe9; x01; x02; x20; x00; x00; x10; x40;
       x00; x00; x10; x40; x28; x00; x00; x00]
      ++ zeros 40 ++ zeros 7 ++ [xef]).
Proof. repeat split; vm_compute; solve [reflexivity | discriminate]. Qed.

(** ** Padding before a flash segment *)

Lemma slice_to_firstn (s : bytes) (n : Z) :
  0 <= n -> slice_to s n = firstn (Z.to_nat n) s.
Proof.
  intros Hn. unfold slice_to, slice_bound.
  replace (n <? 0) with false by (symmetry; apply Z.ltb_ge; lia).
  destruct (Z.le_ge_cases n (len s)) as [Hle|Hge].
  - rewrite Z.min_l by lia. reflexivity.
  - rewrite Z.min_r by lia. unfold len in *. rewrite Nat2Z.id.
    rewrite !firstn_all2 by lia. reflexivity.
Qed.

Lemma slice_from_skipn (s : bytes) (n : Z) :
  0 <= n -> slice_from s n = skipn (Z.to_nat n) s.
Proof.
  intros Hn. unfold slice_from, slice_bound.
  replace (n <? 0) with false by (symmetry; apply Z.ltb_ge; lia).
  destruct (Z.le_ge_cases n (len s)) as [Hle|Hge].
  - rewrite Z.min_l by lia. reflexivity.
  - rewrite Z.min_r by lia. unfold len in *. rewrite Nat2Z.id.
    rewrite !skipn_all2 by lia. reflexivity.
Qed.

(** C6, as the specification has it, fails.  Saving [pad8_image] for the
    ESP32: the loop starts with the DROM and IROM segments to place and
    one RAM segment; its first iteration writes the DROM segment; the
    IROM segment then needs a pad of 8 bytes, which is at least
    [SEG_HEADER_LEN], with the RAM segment still there; and the padding
    segment is 8 zero bytes at address 0, not the front of the RAM
    segment. *)
Lemma pad_of_8_bytes_is_not_split :
  filter (fun s => ESP32FirmwareImage.is_flash_addr ESP32ROM (ImageSegment.addr s))
    (sorted_by_addr (segments pad8_image)) = [pad8_drom; pad8_irom] /\
  filter (fun s => negb (ESP32FirmwareImage.is_flash_addr ESP32ROM (ImageSegment.addr s)))
    (sorted_by_addr (segments pad8_image)) = [pad8_ram] /\
  match
    (let! f := BaseFirmwareImage.write_common_header pad8_image new_file
                 (segments pad8_image) in
     let! f := ESP32FirmwareImage.save_extended_header ESP32ROM pad8_image f in
     ESP32FirmwareImage.loop_body pad8_image f pad8_drom [pad8_irom] [pad8_ram]
       ESPLoader.ESP_CHECKSUM_MAGIC 0)
  with
  | Ok (f, flash_segments, ram_segments, _, _) =>
      flash_segments = [pad8_irom] /\
      ram_segments = [pad8_ram] /\
      ESP32FirmwareImage.get_alignment_data_needed f pad8_irom = 8 /\
      8 >= ESP32FirmwareImage.SEG_HEADER_LEN /\
      ESP32FirmwareImage.take_pad_segment f ram_segments 8 =
        (ImageSegment.mk 0 (zeros 8) (Some 65512) true, [pad8_ram]) /\
      fst (ESP32FirmwareImage.take_pad_segment f ram_segments 8) <>
        fst (ImageSegment.split_image pad8_ram 8)
  | Err _ => False
  end.
Proof.
  split; [reflexivity|]. split; [reflexivity|].
  vm_compute.
  repeat split; try reflexivity; try discriminate.
Qed.

(** C6, amended. In the loop of [save], with a flash segment that needs
    a pad [pad_len > 0]: when [pad_len] is greater than [SEG_HEADER_LEN]
    and a RAM segment is left, the padding segment written is the first
    [pad_len] bytes of the first RAM segment (all of it when it is
    shorter) at that segment's address, and the RAM segment keeps the
    rest at its address plus [pad_len], or is dropped when nothing is
    left of it; in every other case, no RAM segment or [pad_len] at most
    [SEG_HEADER_LEN], the padding segment written is [pad_len] zero bytes
    at address 0 and the RAM segments stay as they are.  The flash
    segment stays first in line either way. *)
Theorem flash_pad_choice :
  forall (self : firmware_image) (f : file) (segment : ImageSegment.t)
         (flash_rest ram_segments : list ImageSegment.t)
         (checksum total_segments pad_len : Z),
    ESP32FirmwareImage.get_alignment_data_needed f segment = pad_len ->
    0 < pad_len ->
    (forall first others,
        ram_segments = first :: others ->
        ESP32FirmwareImage.SEG_HEADER_LEN < pad_len ->
        ESP32FirmwareImage.loop_body self f segment flash_rest ram_segments
          checksum total_segments =
        let! (f', checksum') :=
          BaseFirmwareImage.save_segment self f
            (ImageSegment.mk (ImageSegment.addr first)
               (firstn (Z.to_nat pad_len) (ImageSegment.data first))
               None (ImageSegment.include_in_checksum first))
            checksum in
        Ok (f', segment :: flash_rest,
            (if len (ImageSegment.data first) <=? pad_len
             then others
             else ImageSegment.mk (ImageSegment.addr first + pad_len)
                    (skipn (Z.to_nat pad_len) (ImageSegment.data first))
                    None (ImageSegment.include_in_checksum first) :: others),
            checksum', total_segments + 1)) /\
    (ram_segments = [] \/ pad_len <= ESP32FirmwareImage.SEG_HEADER_LEN ->
     ESP32FirmwareImage.loop_body self f segment flash_rest ram_segments
       checksum total_segments =
     let! (f', checksum') :=
       BaseFirmwareImage.save_segment self f
         (ImageSegment.mk 0 (zeros pad_len) (Some (tell f)) true) checksum in
     Ok (f', segment :: flash_rest, ram_segments, checksum', total_segments + 1)).
Proof.
  intros self f segment flash_rest ram_segments checksum total_segments pad_len
         Hneed Hpos.
  assert (Hgt : (pad_len >? 0) = true) by (rewrite Z.gtb_ltb; apply Z.ltb_lt; lia).
  split.
  - intros first others -> Hbig.
    unfold ESP32FirmwareImage.loop_body. rewrite Hneed, Hgt.
    unfold ESP32FirmwareImage.take_pad_segment.
    replace (pad_len >? ESP32FirmwareImage.SEG_HEADER_LEN) with true
      by (symmetry; rewrite Z.gtb_ltb; apply Z.ltb_lt; lia).
    unfold ImageSegment.split_image; simpl ImageSegment.data.
    rewrite slice_to_firstn, slice_from_skipn by lia.
    destruct (BaseFirmwareImage.save_segment _ _ _ _) as [[f' checksum']|e];
      simpl; [|reflexivity].
    do 3 f_equal.
    assert (Hlen : len (skipn (Z.to_nat pad_len) (ImageSegment.data first)) =
                   Z.max 0 (len (ImageSegment.data first) - pad_len)).
    { unfold len. rewrite length_skipn. lia. }
    rewrite Hlen.
    destruct (len (ImageSegment.data first) <=? pad_len) eqn:Hle.
    + apply Z.leb_le in Hle. rewrite Z.max_l by lia. reflexivity.
    + apply Z.leb_gt in Hle. rewrite Z.max_r by lia.
      replace (_ =? 0) with false by (symmetry; apply Z.eqb_neq; lia).
      reflexivity.
  - intros Hcase.
    unfold ESP32FirmwareImage.loop_body. rewrite Hneed, Hgt.
    assert (Htake :
      ESP32FirmwareImage.take_pad_segment f ram_segments pad_len =
      (ImageSegment.mk 0 (zeros pad_len) (Some (tell f)) true, ram_segments)).
    { unfold ESP32FirmwareImage.take_pad_segment.
      destruct Hcase as [-> | Hsmall]; [reflexivity|].
      destruct ram_segments as [|first others]; [reflexivity|].
      replace (pad_len >? ESP32FirmwareImage.SEG_HEADER_LEN) with false
        by (symmetry; rewrite Z.gtb_ltb; apply Z.ltb_ge; lia).
      reflexivity. }
    rewrite Htake. reflexivity.
Qed.

(** C6, amended, at a flash segment that needs 65752 bytes of padding,
    with one RAM segment and with none. *)
Lemma flash_pad_choice_witness :
  (ESP32FirmwareImage.loop_body pad8_image (mk_file (zeros 24) 24) pad_irom []
     [pad8_ram] 0xEF 0 =
   let! (f', checksum') :=
     BaseFirmwareImage.save_segment pad8_image (mk_file (zeros 24) 24)
       (ImageSegment.mk (ImageSegment.addr pad8_ram)
          (firstn (Z.to_nat 65752) (ImageSegment.data pad8_ram))
          None (ImageSegment.include_in_checksum pad8_ram))
       0xEF in
   Ok (f', [pad_irom],
       (if len (ImageSegment.data pad8_ram) <=? 65752
        then []
        else [ImageSegment.mk (ImageSegment.addr pad8_ram + 65752)
                (skipn (Z.to_nat 65752) (ImageSegment.data pad8_ram))
                None (ImageSegment.include_in_checksum pad8_ram)]),
       checksum', 0 + 1)) /\
  (ESP32FirmwareImage.loop_body pad8_image (mk_file (zeros 24) 24) pad_irom []
     [] 0xEF 0 =
   let! (f', checksum') :=
     BaseFirmwareImage.save_segment pad8_image (mk_file (zeros 24) 24)
       (ImageSegment.mk 0 (zeros 65752) (Some (tell (mk_file (zeros 24) 24))) true)
       0xEF in
   Ok (f', [pad_irom], [], checksum', 0 + 1)).
Proof.
  split.
  - apply (proj1 (flash_pad_choice pad8_image (mk_file (zeros 24) 24) pad_irom []
                    [pad8_ram] 0xEF 0 65752 eq_refl ltac:(lia))
             pad8_ram [] eq_refl).
    unfold ESP32FirmwareImage.SEG_HEADER_LEN, BaseFirmwareImage.SEG_HEADER_LEN. lia.
  - apply (proj2 (flash_pad_choice pad8_image (mk_file (zeros 24) 24) pad_irom []
                    [] 0xEF 0 65752 eq_refl ltac:(lia))).
    left. reflexivity.
Defined.

(** ** Files written at their end *)

Lemma write_at_end (f : file) (d : bytes) :
  at_end f ->
  contents (write f d) = contents f ++ d /\ at_end (write f d).
Proof.
  unfold at_end. intros Hend. destruct d as [|b d].
  - simpl. rewrite app_nil_r. auto.
  - unfold write. cbn [contents position]. rewrite Hend.
    assert (Hpos : Z.to_nat (len (contents f)) = length (contents f))
      by (unfold len; apply Nat2Z.id).
    rewrite !Hpos, Nat.sub_diag. simpl repeat.
    rewrite !app_nil_r, firstn_all, skipn_all2 by lia.
    rewrite app_nil_r. split; [reflexivity|].
    rewrite len_app. reflexivity.
Qed.

Lemma extends_refl (c : bytes) : extends c c.
Proof. exists []. now rewrite app_nil_r. Qed.

Lemma extends_trans (a b c : bytes) : extends a b -> extends b c -> extends a c.
Proof.
  intros [t1 ->] [t2 ->]. exists (t1 ++ t2). now rewrite app_assoc.
Qed.

Lemma extends_len (a b : bytes) : extends a b -> len a <= len b.
Proof. intros [t ->]. rewrite len_app. pose proof (len_nonneg t). lia. Qed.

Lemma pack_I_len (v : Z) (b : bytes) : pack_I v = Ok b -> len b = 4.
Proof.
  unfold pack_I. destruct (in_range v _); [|discriminate].
  intros H; inversion H; reflexivity.
Qed.

Lemma pack_II_len (a b : Z) (h : bytes) : pack_II a b = Ok h -> len h = 8.
Proof.
  unfold pack_II.
  destruct (pack_I a) as [x|] eqn:Ha; simpl; [|discriminate].
  destruct (pack_I b) as [y|] eqn:Hb; simpl; [|discriminate].
  intros H; inversion H; subst. rewrite len_app.
  rewrite (pack_I_len _ _ Ha), (pack_I_len _ _ Hb). reflexivity.
Qed.

Lemma pack_B_len (v : Z) (b : bytes) : pack_B v = Ok b -> len b = 1.
Proof.
  unfold pack_B. destruct (in_range v _); [|discriminate].
  intros H; inversion H; reflexivity.
Qed.

Lemma pack_H_len (v : Z) (b : bytes) : pack_H v = Ok b -> len b = 2.
Proof.
  unfold pack_H. destruct (in_range v _); [|discriminate].
  intros H; inversion H; reflexivity.
Qed.

Lemma pack_Bs_len (vs : list Z) :
  forall b, pack_Bs vs = Ok b -> len b = Z.of_nat (length vs).
Proof.
  induction vs as [|v vs IH]; intros b; simpl.
  - intros H; inversion H; reflexivity.
  - destruct (pack_B v) as [x|] eqn:Hx; simpl; [|discriminate].
    destruct (pack_Bs vs) as [y|] eqn:Hy; simpl; [|discriminate].
    intros H; inversion H; subst. rewrite len_app, (pack_B_len _ _ Hx), (IH _ eq_refl).
    lia.
Qed.

(** ** Saving one segment *)

Lemma slice_from_0 (s : bytes) (j : Z) : slice s 0 j = slice_to s j.
Proof.
  unfold slice, slice_to, slice_bound at 1. simpl (0 <? 0).
  pose proof (len_nonneg s). rewrite Z.min_l by lia. reflexivity.
Qed.

Lemma len_firstn (s : bytes) (n : Z) :
  0 <= n <= len s -> len (firstn (Z.to_nat n) s) = n.
Proof. unfold len. intros H. rewrite length_firstn. lia. Qed.

Lemma len_skipn (s : bytes) (n : Z) :
  0 <= n <= len s -> len (skipn (Z.to_nat n) s) = len s - n.
Proof. unfold len. intros H. rewrite length_skipn. lia. Qed.

(** Placing the digest does not change the length of the data. *)
Lemma maybe_patch_len (self : firmware_image) (f : file) (d d' : bytes) :
  BaseFirmwareImage.maybe_patch_segment_data self f d = Ok d' -> len d' = len d.
Proof.
  unfold BaseFirmwareImage.maybe_patch_segment_data,
    BaseFirmwareImage.SEG_HEADER_LEN, BaseFirmwareImage.SHA256_DIGEST_LEN.
  destruct (_ && _); [|intros H; inversion H; reflexivity].
  destruct (_ || _) eqn:Hbounds; [discriminate|].
  destruct (negb _); [discriminate|].
  destruct (elf_sha256 self) as [sha|]; [|discriminate].
  destruct (len sha =? 32) eqn:Hsha; [|discriminate].
  intros H; inversion H; subst d'; clear H.
  apply orb_false_iff in Hbounds. destruct Hbounds as [Hlow Hhigh].
  apply Z.ltb_ge in Hlow. rewrite Z.gtb_ltb in Hhigh. apply Z.ltb_ge in Hhigh.
  apply Z.eqb_eq in Hsha.
  set (p := elf_sha256_offset self - tell f - 8) in *.
  rewrite slice_from_0, slice_to_firstn, slice_from_skipn by lia.
  rewrite !len_app, len_firstn, len_skipn by lia. lia.
Qed.

(** Only the position of the file matters to it. *)
Lemma maybe_patch_at_position (self : firmware_image) (f : file) (d : bytes) :
  BaseFirmwareImage.maybe_patch_segment_data self f d =
  BaseFirmwareImage.maybe_patch_segment_data self (seek new_file (tell f)) d.
Proof. reflexivity. Qed.

(** [save_segment] at the end of a file adds the header and the data. *)
Lemma save_segment_at_end
    (self : firmware_image) (f f' : file) (seg : ImageSegment.t) (ck ck' : Z) :
  at_end f ->
  BaseFirmwareImage.save_segment self f seg ck = Ok (f', ck') ->
  exists header data,
    BaseFirmwareImage.maybe_patch_segment_data self f (ImageSegment.data seg) = Ok data /\
    pack_II (ImageSegment.addr seg) (len data) = Ok header /\
    contents f' = contents f ++ header ++ data /\
    at_end f' /\
    tell f' = tell f + 8 + len (ImageSegment.data seg).
Proof.
  intros Hend. unfold BaseFirmwareImage.save_segment.
  destruct (BaseFirmwareImage.maybe_patch_segment_data _ _ _) as [data|] eqn:Hpatch;
    simpl; [|discriminate].
  destruct (pack_II _ _) as [header|] eqn:Hpack; simpl; [|discriminate].
  intros H; inversion H; subst; clear H.
  destruct (write_at_end f header Hend) as [Hc1 He1].
  destruct (write_at_end (write f header) data He1) as [Hc2 He2].
  exists header, data. repeat split; try assumption.
  - rewrite Hc2, Hc1, <- app_assoc. reflexivity.
  - unfold tell. rewrite He2, Hc2, Hc1, !len_app, Hend.
    rewrite (pack_II_len _ _ _ Hpack), (maybe_patch_len _ _ _ _ Hpatch). lia.
Qed.

Lemma placed_from_extends (base : Z) (self : firmware_image) (c c' : bytes)
    (s : ImageSegment.t) :
  extends c c' -> placed_from base self c s -> placed_from base self c' s.
Proof.
  intros [tail ->] (pre & header & data & post & k & -> & H).
  exists pre, header, data, (post ++ tail), k. split; [|exact H].
  rewrite <- !app_assoc. reflexivity.
Qed.

Lemma placed_from_base (base base' : Z) (self : firmware_image) (c : bytes)
    (s : ImageSegment.t) :
  base' <= base -> placed_from base self c s -> placed_from base' self c s.
Proof.
  intros Hle (pre & header & data & post & k & Hc & Hb & H).
  exists pre, header, data, post, k. repeat split; try tauto. lia.
Qed.

(** ** The loop that places the flash segments *)

(** One iteration from the end of the file: it writes at the end, and
    either keeps the flash segment first in line or has placed it. *)
Lemma loop_body_at_end
    (self : firmware_image) (f f' : file) (seg : ImageSegment.t)
    (rest ram flash' ram' : list ImageSegment.t) (ck tot ck' tot' : Z) :
  at_end f ->
  ESP32FirmwareImage.loop_body self f seg rest ram ck tot =
    Ok (f', flash', ram', ck', tot') ->
  at_end f' /\
  extends (contents f) (contents f') /\
  (flash' = seg :: rest \/
   flash' = rest /\ placed_from (len (contents f)) self (contents f') seg).
Proof.
  intros Hend. unfold ESP32FirmwareImage.loop_body.
  destruct (_ >? 0).
  - destruct (ESP32FirmwareImage.take_pad_segment _ _ _) as [pad ram1].
    destruct (BaseFirmwareImage.save_segment _ _ _ _) as [[f1 ck1]|] eqn:Hsave;
      simpl; [|discriminate].
    intros H; inversion H; subst; clear H.
    destruct (save_segment_at_end _ _ _ _ _ _ Hend Hsave)
      as (header & data & _ & _ & Hc & He & _).
    split; [exact He|]. split; [|left; reflexivity].
    exists (header ++ data). exact Hc.
  - destruct (_ =? _) eqn:Haligned; [|discriminate].
    apply Z.eqb_eq in Haligned.
    unfold ESP32FirmwareImage.save_flash_segment.
    set (rem := (tell f + len (ImageSegment.data seg)
                 + ESP32FirmwareImage.SEG_HEADER_LEN) mod ESP32FirmwareImage.IROM_ALIGN).
    assert (Hrem : 0 <= rem)
      by (apply Z.mod_pos_bound; unfold ESP32FirmwareImage.IROM_ALIGN; lia).
    clearbody rem.
    set (seg' := if rem <? 0x24 then _ else seg).
    assert (Hseg' : exists k, 0 <= k <= 0x24 /\
                      ImageSegment.addr seg' = ImageSegment.addr seg /\
                      ImageSegment.data seg' = ImageSegment.data seg ++ zeros k).
    { subst seg'. destruct (rem <? 0x24) eqn:Hlt.
      - apply Z.ltb_lt in Hlt. exists (0x24 - rem).
        cbn [ImageSegment.addr ImageSegment.data]. repeat split; lia.
      - exists 0. simpl. rewrite app_nil_r. repeat split; lia. }
    destruct Hseg' as (k & Hk & Haddr & Hdata).
    destruct (BaseFirmwareImage.save_segment _ _ _ _) as [[f1 ck1]|] eqn:Hsave;
      simpl; [|discriminate].
    intros H; inversion H; subst; clear H.
    destruct (save_segment_at_end _ _ _ _ _ _ Hend Hsave)
      as (header & data & Hpatch & Hpack & Hc & He & _).
    split; [exact He|]. split; [exists (header ++ data); exact Hc|].
    right. split; [reflexivity|].
    exists (contents f), header, data, [], k.
    rewrite app_nil_r. repeat split; try tauto; try lia.
    + rewrite <- Haddr. exact Hpack.
    + rewrite <- Hdata, <- Hend. rewrite <- Hpatch. symmetry.
      apply maybe_patch_at_position.
    + rewrite len_app, (pack_II_len _ _ _ Hpack), <- Hend.
      exact Haligned.
Qed.

Lemma flash_loop_at_end (self : firmware_image) (fuel : nat) :
  forall (f f' : file) (flash ram ram' : list ImageSegment.t) (ck tot ck' tot' : Z),
    at_end f ->
    ESP32FirmwareImage.flash_loop fuel self f flash ram ck tot =
      Ok (f', ram', ck', tot') ->
    at_end f' /\
    extends (contents f) (contents f') /\
    forall s, In s flash -> placed_from (len (contents f)) self (contents f') s.
Proof.
  induction fuel as [|fuel IH]; intros f f' flash ram ram' ck tot ck' tot' Hend;
    destruct flash as [|seg rest]; simpl.
  - intros H; inversion H; subst. repeat split; auto using extends_refl. intros s [].
  - discriminate.
  - intros H; inversion H; subst. repeat split; auto using extends_refl. intros s [].
  - destruct (ESP32FirmwareImage.loop_body _ _ _ _ _ _ _)
      as [[[[[f1 flash1] ram1] ck1] tot1]|] eqn:Hbody; simpl; [|discriminate].
    intros Hloop.
    destruct (loop_body_at_end _ _ _ _ _ _ _ _ _ _ _ _ Hend Hbody)
      as (He1 & Hx1 & Hcase).
    destruct (IH _ _ _ _ _ _ _ _ _ He1 Hloop) as (He' & Hx' & Hplaced).
    split; [exact He'|]. split; [eapply extends_trans; eassumption|].
    pose proof (extends_len _ _ Hx1) as Hlen.
    intros s Hin.
    destruct Hcase as [-> | [-> Hseg]].
    + apply placed_from_base with (base := len (contents f1)); auto.
    + destruct Hin as [<- | Hin].
      * eapply placed_from_extends; eassumption.
      * apply placed_from_base with (base := len (contents f1)); auto.
Qed.

Lemma ram_loop_at_end (self : firmware_image) (ram : list ImageSegment.t) :
  forall (f f' : file) (ck tot ck' tot' : Z),
    at_end f ->
    ESP32FirmwareImage.ram_loop self f ram ck tot = Ok (f', ck', tot') ->
    at_end f' /\ extends (contents f) (contents f').
Proof.
  induction ram as [|seg ram IH]; intros f f' ck tot ck' tot' Hend; simpl.
  - intros H; inversion H; subst. auto using extends_refl.
  - destruct (BaseFirmwareImage.save_segment _ _ _ _) as [[f1 ck1]|] eqn:Hsave;
      simpl; [|discriminate].
    intros Hloop.
    destruct (save_segment_at_end _ _ _ _ _ _ Hend Hsave)
      as (header & data & _ & _ & Hc & He & _).
    destruct (IH _ _ _ _ _ _ He Hloop) as [He' Hx'].
    split; [exact He'|].
    apply extends_trans with (b := contents f1); [|exact Hx'].
    exists (header ++ data). exact Hc.
Qed.

Lemma secure_padding_at_end (self : firmware_image) (f f' : file) (ck tot ck' tot' : Z) :
  at_end f ->
  ESP32FirmwareImage.secure_padding self f ck tot = Ok (f', ck', tot') ->
  at_end f' /\ extends (contents f) (contents f').
Proof.
  intros Hend. unfold ESP32FirmwareImage.secure_padding.
  destruct (secure_pad self) as [v|].
  - destruct (negb _); [discriminate|].
    destruct (BaseFirmwareImage.save_segment _ _ _ _) as [[f1 ck1]|] eqn:Hsave;
      simpl; [|discriminate].
    intros H; inversion H; subst; clear H.
    destruct (save_segment_at_end _ _ _ _ _ _ Hend Hsave)
      as (header & data & _ & _ & Hc & He & _).
    split; [exact He|]. exists (header ++ data). exact Hc.
  - intros H; inversion H; subst. auto using extends_refl.
Qed.

(** Writing past the end of a file fills the gap with zero bytes. *)
Lemma write_past_end (f : file) (gap : Z) (b : byte) (d : bytes) :
  at_end f ->
  0 <= gap ->
  contents (write (seek_cur f gap) (b :: d)) = contents f ++ zeros gap ++ b :: d /\
  at_end (write (seek_cur f gap) (b :: d)).
Proof.
  unfold at_end. intros Hend Hgap.
  pose proof (len_nonneg (contents f)) as Hc.
  assert (Hcontents :
    contents (write (seek_cur f gap) (b :: d)) = contents f ++ zeros gap ++ b :: d).
  { unfold write, seek_cur, zeros. cbn [contents position].
    rewrite Hend. set (c := contents f) in *.
    assert (Hpos : Z.to_nat (len c + gap) = (length c + Z.to_nat gap)%nat)
      by (unfold len in *; lia).
    rewrite Hpos.
    replace (length c + Z.to_nat gap - length c)%nat with (Z.to_nat gap) by lia.
    assert (Hold : length (c ++ repeat x00 (Z.to_nat gap))
                   = (length c + Z.to_nat gap)%nat)
      by (rewrite length_app, repeat_length; reflexivity).
    rewrite <- Hold at 1. rewrite firstn_all.
    rewrite skipn_all2 by (rewrite Hold; simpl length; lia).
    rewrite app_nil_r, <- app_assoc. reflexivity. }
  split; [exact Hcontents|].
  rewrite Hcontents. unfold write, seek_cur. cbn [position].
  rewrite !len_app. unfold zeros, len at 3. rewrite repeat_length. lia.
Qed.

(** The checksum byte goes after the zero bytes that bring the file to
    one byte short of a multiple of 16. *)
Lemma append_checksum_at_end (f f' : file) (ck : Z) :
  at_end f ->
  BaseFirmwareImage.append_checksum f ck = Ok f' ->
  contents f' = contents f ++ zeros (15 - len (contents f) mod 16) ++ [chr ck] /\
  at_end f' /\
  len (contents f') mod 16 = 0.
Proof.
  intros Hend. unfold BaseFirmwareImage.append_checksum.
  unfold pack_B. destruct (in_range ck 256); unfold bind; [|discriminate].
  unfold align_file_position, tell.
  replace (16 - 1 - position f mod 16) with (15 - len (contents f) mod 16)
    by (rewrite Hend; lia).
  intros H.
  assert (Hf' : f' = write (seek_cur f (15 - len (contents f) mod 16)) [chr ck])
    by congruence.
  subst f'. clear H.
  pose proof (Z.mod_pos_bound (len (contents f)) 16 ltac:(lia)) as Hmod.
  destruct (write_past_end f (15 - len (contents f) mod 16) (chr ck) [] Hend
              ltac:(lia)) as [Hc He].
  split; [exact Hc|]. split; [exact He|].
  rewrite Hc, !len_app.
  assert (Hz : len (zeros (15 - len (contents f) mod 16))
               = 15 - len (contents f) mod 16)
    by (unfold zeros; unfold len at 1; rewrite repeat_length; lia).
  rewrite Hz. change (len [chr ck]) with 1.
  clear. Z.div_mod_to_equations. lia.
Qed.

(** The two headers: 24 bytes. *)
Lemma headers_at_end (rom : rom_loader) (self : firmware_image)
    (segs : list ImageSegment.t) (f0 f : file) :
  BaseFirmwareImage.write_common_header self new_file segs = Ok f0 ->
  ESP32FirmwareImage.save_extended_header rom self f0 = Ok f ->
  at_end f /\ len (contents f) = 24.
Proof.
  unfold BaseFirmwareImage.write_common_header.
  destruct (pack_B ESPLoader.ESP_IMAGE_MAGIC) as [b1|] eqn:H1; simpl; [|discriminate].
  destruct (pack_B (Z.of_nat (length segs))) as [b2|] eqn:H2; simpl; [|discriminate].
  destruct (pack_B (flash_mode self)) as [b3|] eqn:H3; simpl; [|discriminate].
  destruct (pack_B (flash_size_freq self)) as [b4|] eqn:H4; simpl; [|discriminate].
  destruct (pack_I (entrypoint self)) as [b5|] eqn:H5; simpl; [|discriminate].
  intros H; inversion H; subst f0; clear H.
  unfold ESP32FirmwareImage.save_extended_header.
  destruct (pack_Bs [_; _; _; _]) as [h|] eqn:Hh; [|discriminate].
  cbn [bind].
  destruct (pack_H _) as [c|] eqn:Hc; cbn [bind]; [|discriminate].
  destruct (pack_Bs (_ ++ _)) as [t|] eqn:Ht; cbn [bind]; [|discriminate].
  intros H; inversion H; subst f; clear H.
  assert (He0 : at_end new_file) by reflexivity.
  destruct (write_at_end new_file (b1 ++ b2 ++ b3 ++ b4 ++ b5) He0) as [Hc1 He1].
  destruct (write_at_end _ (h ++ c ++ t) He1) as [Hc2 He2].
  split; [exact He2|].
  rewrite Hc2, Hc1. simpl contents. rewrite !len_app.
  rewrite (pack_B_len _ _ H1), (pack_B_len _ _ H2), (pack_B_len _ _ H3),
    (pack_B_len _ _ H4), (pack_I_len _ _ H5), (pack_Bs_len _ _ Hh),
    (pack_H_len _ _ Hc), (pack_Bs_len _ _ Ht).
  reflexivity.
Qed.

Lemma In_insert_by_addr (x s : ImageSegment.t) (l : list ImageSegment.t) :
  In x (insert_by_addr s l) <-> x = s \/ In x l.
Proof.
  induction l as [|y l IH]; simpl.
  - intuition.
  - destruct (_ <=? _); simpl; [intuition|]. rewrite IH. intuition.
Qed.

Lemma In_sorted_by_addr (x : ImageSegment.t) (l : list ImageSegment.t) :
  In x (sorted_by_addr l) <-> In x l.
Proof.
  induction l as [|y l IH]; simpl; [tauto|].
  rewrite In_insert_by_addr, IH. intuition.
Qed.

(** ** The saved image *)

(** Writing the segment count over the second byte of the file. *)
Lemma write_segment_count (f : file) (b : byte) :
  2 <= len (contents f) ->
  contents (write (seek f 1) [b]) =
    firstn 1 (contents f) ++ [b] ++ skipn 2 (contents f).
Proof.
  intros Hlen. unfold write, seek. cbn [contents position].
  change (Z.to_nat 1) with 1%nat. change (1 + length [b])%nat with 2%nat.
  replace (1 - length (contents f))%nat with 0%nat by (unfold len in Hlen; lia).
  simpl repeat. rewrite app_nil_r. reflexivity.
Qed.

Lemma len_write_segment_count (c : bytes) (b : byte) :
  2 <= len c -> len (firstn 1 c ++ [b] ++ skipn 2 c) = len c.
Proof.
  unfold len. intros Hlen.
  rewrite !length_app, length_firstn, length_skipn. simpl length. lia.
Qed.

(** A segment placed past the headers stays placed when the count is
    written. *)
Lemma placed_from_write_segment_count
    (self : firmware_image) (c : bytes) (b : byte) (s : ImageSegment.t) :
  placed_from 24 self c s ->
  placed_from 24 self (firstn 1 c ++ [b] ++ skipn 2 c) s.
Proof.
  intros (pre & header & data & post & k & -> & Hbase & Hpack & Hk & Hpatch & Hal).
  assert (Hpre : (2 <= length pre)%nat) by (unfold len in Hbase; lia).
  exists (firstn 1 pre ++ [b] ++ skipn 2 pre), header, data, post, k.
  assert (Hlen : len (firstn 1 pre ++ [b] ++ skipn 2 pre) = len pre)
    by (apply len_write_segment_count; lia).
  split.
  - rewrite firstn_app, skipn_app.
    replace (1 - length pre)%nat with 0%nat by lia.
    replace (2 - length pre)%nat with 0%nat by lia.
    simpl firstn at 2. simpl skipn at 2.
    rewrite app_nil_r, <- !app_assoc. reflexivity.
  - rewrite (len_app _ header), !Hlen. rewrite len_app in Hal. tauto.
Qed.

(** C5. In every image [save] produces for a loader of the ESP32
    family, each segment of the image object whose load address lies in
    the loader's IROM or DROM range is in the file, header then data,
    past the 24 bytes of the two headers, with the file offset of its
    data equal to its load address modulo 0x10000. *)
Theorem flash_segments_aligned :
  forall (rom : rom_loader) (sha256 : bytes -> bytes)
         (self : firmware_image) (out : bytes),
    ESP32FirmwareImage.save rom sha256 self = Ok out ->
    forall s,
      In s (segments self) ->
      ESP32FirmwareImage.is_flash_addr rom (ImageSegment.addr s) = true ->
      exists (pre header data post : bytes) (k : Z),
        out = pre ++ header ++ data ++ post /\
        24 <= len pre /\
        pack_II (ImageSegment.addr s) (len data) = Ok header /\
        0 <= k <= 0x24 /\
        BaseFirmwareImage.maybe_patch_segment_data self (seek new_file (len pre))
          (ImageSegment.data s ++ zeros k) = Ok data /\
        len (pre ++ header) mod 0x10000 = ImageSegment.addr s mod 0x10000.
Proof.
  intros rom sha256 self out Hsave s Hin Hflash.
  change (placed_from 24 self out s).
  unfold ESP32FirmwareImage.save in Hsave.
  destruct (BaseFirmwareImage.write_common_header _ _ _) as [f0|] eqn:Hh0;
    cbn [bind] in Hsave; [|discriminate].
  destruct (ESP32FirmwareImage.save_extended_header _ _ _) as [f1|] eqn:Hh1;
    cbn [bind] in Hsave; [|discriminate].
  destruct (headers_at_end _ _ _ _ _ Hh0 Hh1) as [He1 Hl1].
  set (flash := filter _ _) in Hsave.
  set (ram := filter (fun s => negb _) _) in Hsave.
  destruct (match flash with [] => Ok tt | _ => _ end) as [[]|];
    cbn [bind] in Hsave; [|discriminate].
  destruct (ESP32FirmwareImage.flash_loop _ _ _ _ _ _ _)
    as [[[[f2 ram2] ck2] tot2]|] eqn:Hloop; cbn [bind] in Hsave; [|discriminate].
  destruct (ESP32FirmwareImage.ram_loop _ _ _ _ _)
    as [[[f3 ck3] tot3]|] eqn:Hram; cbn [bind] in Hsave; [|discriminate].
  destruct (ESP32FirmwareImage.secure_padding _ _ _ _)
    as [[[f4 ck4] tot4]|] eqn:Hpad; cbn [bind] in Hsave; [|discriminate].
  destruct (BaseFirmwareImage.append_checksum _ _) as [f5|] eqn:Hck;
    cbn [bind] in Hsave; [|discriminate].
  destruct (match secure_pad self with None => Ok tt | _ => _ end) as [[]|];
    cbn [bind] in Hsave; [|discriminate].
  destruct (in_range tot4 256); cbn [bind] in Hsave; [|discriminate].
  destruct (flash_loop_at_end _ _ _ _ _ _ _ _ _ _ _ He1 Hloop) as (He2 & Hx2 & Hplaced).
  destruct (ram_loop_at_end _ _ _ _ _ _ _ _ He2 Hram) as (He3 & Hx3).
  destruct (secure_padding_at_end _ _ _ _ _ _ _ He3 Hpad) as (He4 & Hx4).
  destruct (append_checksum_at_end _ _ _ He4 Hck) as (Hc5 & He5 & _).
  assert (Hx5 : extends (contents f4) (contents f5)) by (eexists; exact Hc5).
  assert (Hin' : In s flash).
  { subst flash. apply filter_In. split; [|exact Hflash].
    apply In_sorted_by_addr. exact Hin. }
  assert (Hs5 : placed_from 24 self (contents f5) s).
  { rewrite <- Hl1.
    eapply placed_from_extends; [exact Hx5|].
    eapply placed_from_extends; [exact Hx4|].
    eapply placed_from_extends; [exact Hx3|].
    apply Hplaced. exact Hin'. }
  assert (Hl5 : 24 <= len (contents f5)).
  { rewrite <- Hl1.
    pose proof (extends_len _ _ Hx2). pose proof (extends_len _ _ Hx3).
    pose proof (extends_len _ _ Hx4). pose proof (extends_len _ _ Hx5). lia. }
  pose proof (write_segment_count f5 (chr tot4) ltac:(lia)) as Hc6.
  pose proof (placed_from_write_segment_count _ _ (chr tot4) _ Hs5) as Hs6.
  rewrite <- Hc6 in Hs6.
  set (f6 := write (seek f5 1) [chr tot4]) in *. clearbody f6.
  destruct (append_digest self).
  - unfold read in Hsave. cbn [seek contents position] in Hsave.
    set (image := firstn _ _) in Hsave.
    assert (He7 : at_end (mk_file (contents f6) (0 + len image))).
    { unfold at_end. cbn [contents position]. subst image.
      change (Z.to_nat 0) with 0%nat. simpl skipn.
      unfold tell. rewrite He5.
      assert (Hl6 : len (contents f6) = len (contents f5))
        by (rewrite Hc6; apply len_write_segment_count; lia).
      rewrite <- Hl6. unfold len at 2. rewrite Nat2Z.id, firstn_all. lia. }
    destruct (write_at_end _ (sha256 image) He7) as [Hc7 _].
    cbn [contents] in Hc7. rewrite Hc7 in Hsave.
    assert (Hout : out = contents f6 ++ sha256 image) by congruence.
    rewrite Hout.
    eapply placed_from_extends; [|exact Hs6]. eexists; reflexivity.
  - assert (Hout : out = contents f6) by congruence.
    rewrite Hout. exact Hs6.
Qed.

(** C5 at the DROM segment of [small_image]. *)
Lemma flash_segments_aligned_witness :
  exists (pre header data post : bytes) (k : Z),
    small_image_saved = pre ++ header ++ data ++ post /\
    24 <= len pre /\
    pack_II (ImageSegment.addr small_drom) (len data) = Ok header /\
    0 <= k <= 0x24 /\
    BaseFirmwareImage.maybe_patch_segment_data small_image (seek new_file (len pre))
      (ImageSegment.data small_drom ++ zeros k) = Ok data /\
    len (pre ++ header) mod 0x10000 = ImageSegment.addr small_drom mod 0x10000.
Proof.
  apply (flash_segments_aligned ESP32ROM stand_in_sha256 small_image
           small_image_saved).
  - vm_compute. reflexivity.
  - right. left. reflexivity.
  - reflexivity.
Defined.

(** ** The loop of [save] ends *)











(* ================================================================== *)
(** * Further properties *)

(** ** Frames on a stream *)

(** The [while] loop over reads behaves as the [for] loop over the bytes
    they carry. *)
Lemma while_loop_concat (reads later : list bytes) :
  forall l : slip_reader.locals,
    Forall (fun r => r <> []) reads ->
    match slip_reader.for_loop l (concat reads) with
    | slip_reader.Exhausted l' =>
        slip_reader.while_loop l (reads ++ later) = slip_reader.while_loop l' later
    | slip_reader.Yielded p l' rest =>
        exists pending reads',
          slip_reader.while_loop l (reads ++ later) =
            Ok (p, slip_reader.mk_generator l' pending (reads' ++ later)) /\
          pending ++ concat reads' = rest /\
          Forall (fun r => r <> []) reads'
    | slip_reader.Raised e => slip_reader.while_loop l (reads ++ later) = Err e
    end.
Proof.
  induction reads as [|chunk reads IH]; intros l Hne; simpl concat.
  - reflexivity.
  - inversion Hne as [|? ? Hchunk Hrest]; subst.
    rewrite for_loop_app. simpl app.
    destruct chunk as [|b chunk]; [congruence|].
    cbn [slip_reader.while_loop].
    destruct (slip_reader.for_loop l (b :: chunk)) as [l1|p1 l1 rest|e].
    + apply IH. exact Hrest.
    + exists rest, reads. auto.
    + reflexivity.
Qed.

(** A suspended generator behaves as the [for] loop over the bytes it
    holds and those the port will deliver. *)
Lemma next_on_stream (l : slip_reader.locals) (pending : bytes)
    (reads later : list bytes) :
  Forall (fun r => r <> []) reads ->
  match slip_reader.for_loop l (pending ++ concat reads) with
  | slip_reader.Exhausted l' =>
      slip_reader.next (slip_reader.mk_generator l pending (reads ++ later)) =
      slip_reader.while_loop l' later
  | slip_reader.Yielded p l' rest =>
      exists pending' reads',
        slip_reader.next (slip_reader.mk_generator l pending (reads ++ later)) =
          Ok (p, slip_reader.mk_generator l' pending' (reads' ++ later)) /\
        pending' ++ concat reads' = rest /\
        Forall (fun r => r <> []) reads'
  | slip_reader.Raised e =>
      slip_reader.next (slip_reader.mk_generator l pending (reads ++ later)) = Err e
  end.
Proof.
  intros Hne. rewrite for_loop_app. unfold slip_reader.next.
  cbn [slip_reader.vars slip_reader.read_bytes slip_reader.port].
  destruct (slip_reader.for_loop l pending) as [l1|p1 l1 rest|e].
  - apply while_loop_concat. exact Hne.
  - exists rest, reads. auto.
  - reflexivity.
Qed.

Lemma spec_escape_no_delimiter (b : byte) : ~ In xc0 (spec_escape b).
Proof.
  unfold spec_escape.
  destruct (Byte.eqb b xdb) eqn:Hdb; [simpl; intuition discriminate|].
  destruct (Byte.eqb b xc0) eqn:Hc0; [simpl; intuition discriminate|].
  simpl. intros [H|[]]. subst b. discriminate.
Qed.

(** The buffer [write] sends has [0xC0] as its first and last byte and
    nowhere between. *)
Theorem write_delimiters_only_at_ends :
  forall packet : bytes,
    exists body,
      ESPLoader.write packet = [xc0] ++ body ++ [xc0] /\
      ~ In xc0 body /\
      len packet <= len body <= 2 * len packet.
Proof.
  intros packet. exists (flat_map spec_escape packet).
  split; [apply write_is_spec_encode|]. split.
  - intros Hin. apply in_flat_map in Hin. destruct Hin as (b & _ & Hb).
    exact (spec_escape_no_delimiter b Hb).
  - induction packet as [|b packet IH]; simpl flat_map;
      [unfold len; simpl length; lia|].
    rewrite len_app. unfold len in *. simpl length.
    assert (1 <= length (spec_escape b) <= 2)%nat.
    { unfold spec_escape. destruct (Byte.eqb b xdb); [simpl; lia|].
      destruct (Byte.eqb b xc0); simpl; lia. }
    lia.
Qed.

Lemma read_packets_stream (later : list bytes) (packets : list bytes) :
  forall (reads : list bytes) (pending : bytes),
    pending ++ concat reads = concat (map ESPLoader.write packets) ->
    Forall (fun r => r <> []) reads ->
    read_packets (length packets)
      (slip_reader.mk_generator slip_reader.start pending (reads ++ later)) =
    Ok (packets, slip_reader.mk_generator slip_reader.start [] later).
Proof.
  induction packets as [|p packets IH]; intros reads pending Hcat Hne.
  - simpl in *. apply app_eq_nil in Hcat. destruct Hcat as [-> Hc].
    destruct reads as [|r reads]; [reflexivity|].
    inversion Hne; subst. simpl in Hc. apply app_eq_nil in Hc. tauto.
  - cbn [map concat] in Hcat.
    pose proof (next_on_stream slip_reader.start pending reads later Hne) as Hnext.
    rewrite Hcat, write_is_spec_encode, for_loop_frame in Hnext.
    destruct Hnext as (pending' & reads' & Hread & Hrest & Hne').
    cbn [read_packets length]. unfold ESPLoader.read. rewrite Hread. cbn [bind].
    rewrite (IH reads' pending' Hrest Hne'). reflexivity.
Qed.

(** Frames sent one after the other are read one after the other: when
    the port delivers the buffers [write] makes of [packets], in
    whatever non-empty reads, as many calls of [read] return the
    packets in order and leave the reader between packets. *)
Theorem read_packets_in_order :
  forall (packets : list bytes) (reads later : list bytes),
    concat reads = concat (map ESPLoader.write packets) ->
    Forall (fun r => r <> []) reads ->
    read_packets (length packets) (slip_reader.create (reads ++ later)) =
    Ok (packets, slip_reader.create later).
Proof.
  intros packets reads later Hcat Hne. unfold slip_reader.create.
  apply read_packets_stream; assumption.
Qed.

(** Two frames delivered in three reads that cut across both. *)
Lemma read_packets_in_order_witness :
  read_packets 2
    (slip_reader.create ([[xc0; x01; xdb]; [xdc; xc0; xc0]; [x02; xc0]] ++ [[x41]])) =
  Ok ([[x01; xc0]; [x02]], slip_reader.create [[x41]]).
Proof.
  apply (read_packets_in_order [[x01; xc0]; [x02]]
           [[xc0; x01; xdb]; [xdc; xc0; xc0]; [x02; xc0]] [[x41]]).
  - reflexivity.
  - repeat constructor; discriminate.
Defined.

(** A read that returns nothing is a timeout, waiting for the header
    when no packet has begun and for content once one has: with the
    port silent from the start, and with the port silent after the start
    of a frame, its escaped body so far and perhaps the first byte of an
    escape. *)
Theorem timeout_header_or_content :
  forall (stop : list bytes),
    stop = [] \/ (exists later, stop = [] :: later) ->
    slip_reader.next (slip_reader.create stop) =
      Err (TimedOutWaitingForPacket false) /\
    forall (body tail : bytes) (reads : list bytes),
      tail = [] \/ tail = [xdb] ->
      concat reads = [xc0] ++ flat_map spec_escape body ++ tail ->
      Forall (fun r => r <> []) reads ->
      slip_reader.next (slip_reader.create (reads ++ stop)) =
        Err (TimedOutWaitingForPacket true).
Proof.
  intros stop Hstop. split.
  - destruct Hstop as [-> | [later ->]]; reflexivity.
  - intros body tail reads Htail Hcat Hne.
    pose proof (next_on_stream slip_reader.start [] reads stop Hne) as Hnext.
    simpl app in Hnext. rewrite Hcat in Hnext.
    change (slip_reader.for_loop slip_reader.start
              ([xc0] ++ flat_map spec_escape body ++ tail))
      with (slip_reader.for_loop (slip_reader.mk_locals (Some []) false)
              (flat_map spec_escape body ++ tail)) in Hnext.
    rewrite for_loop_body in Hnext. simpl app in Hnext.
    unfold slip_reader.create.
    destruct Htail as [-> | ->]; simpl in Hnext; rewrite Hnext;
      destruct Hstop as [-> | [later ->]]; reflexivity.
Qed.

(** A port that goes silent in the middle of an escape. *)
Lemma timeout_header_or_content_witness :
  slip_reader.next (slip_reader.create ([[xc0; x01]; [xdb]] ++ [])) =
  Err (TimedOutWaitingForPacket true).
Proof.
  apply (proj2 (timeout_header_or_content [] (or_introl eq_refl))
           [x01] [xdb] [[xc0; x01]; [xdb]]).
  - right. reflexivity.
  - reflexivity.
  - repeat constructor; discriminate.
Defined.

(** Inside a packet, [0xDB] followed by a byte that is neither [0xDC]
    nor [0xDD] raises "Invalid SLIP escape", whatever was read of the
    packet before and whatever follows. *)
Theorem invalid_escape_raises :
  forall (body more : bytes) (x : byte) (reads later : list bytes),
    x <> xdc -> x <> xdd ->
    concat reads = [xc0] ++ flat_map spec_escape body ++ [xdb; x] ++ more ->
    Forall (fun r => r <> []) reads ->
    slip_reader.next (slip_reader.create (reads ++ later)) =
    Err (InvalidSlipEscape x).
Proof.
  intros body more x reads later Hdc Hdd Hcat Hne.
  pose proof (next_on_stream slip_reader.start [] reads later Hne) as Hnext.
  simpl app in Hnext. rewrite Hcat in Hnext.
  change (slip_reader.for_loop slip_reader.start
            ([xc0] ++ flat_map spec_escape body ++ [xdb; x] ++ more))
    with (slip_reader.for_loop (slip_reader.mk_locals (Some []) false)
            (flat_map spec_escape body ++ [xdb; x] ++ more)) in Hnext.
  rewrite for_loop_body in Hnext. simpl in Hnext.
  unfold slip_reader.on_byte in Hnext. simpl in Hnext.
  assert (Edc : Byte.eqb x xdc = false).
  { destruct (Byte.eqb x xdc) eqn:E; [|reflexivity].
    apply Byte.byte_dec_bl in E. contradiction. }
  assert (Edd : Byte.eqb x xdd = false).
  { destruct (Byte.eqb x xdd) eqn:E; [|reflexivity].
    apply Byte.byte_dec_bl in E. contradiction. }
  rewrite Edc, Edd in Hnext. exact Hnext.
Qed.

(** An unescaped [0xDB 0x00] in the body. *)
Lemma invalid_escape_raises_witness :
  slip_reader.next (slip_reader.create ([[xc0; x01; xdb]; [x00; xc0]] ++ [])) =
  Err (InvalidSlipEscape x00).
Proof.
  apply (invalid_escape_raises [x01] [xc0] x00 [[xc0; x01; xdb]; [x00; xc0]] []);
    try discriminate.
  - reflexivity.
  - repeat constructor; discriminate.
Defined.

(** ** Packing and unpacking *)

Lemma ord_range (b : byte) : 0 <= ord b < 0x100.
Proof.
  unfold ord. pose proof (Byte.to_N_bounded b). lia.
Qed.

Lemma ord_chr (v : Z) : 0 <= v < 0x100 -> ord (chr v) = v.
Proof.
  intros Hv. unfold ord, chr.
  destruct (Byte.of_N (Z.to_N v)) as [b|] eqn:Hb.
  - apply Byte.to_of_N in Hb. rewrite Hb. lia.
  - apply Byte.of_N_None_iff in Hb. lia.
Qed.

Lemma chr_ord (b : byte) : chr (ord b) = b.
Proof.
  unfold ord, chr. rewrite N2Z.id, Byte.of_to_N. reflexivity.
Qed.

Lemma in_range_spec (v bound : Z) : in_range v bound = true <-> 0 <= v < bound.
Proof.
  unfold in_range. rewrite andb_true_iff, Z.leb_le, Z.ltb_lt. tauto.
Qed.

Lemma pack_B_value (v : Z) (b : bytes) :
  pack_B v = Ok b -> 0 <= v < 0x100 /\ b = [chr v].
Proof.
  unfold pack_B. destruct (in_range v 256) eqn:Hr; [|discriminate].
  apply in_range_spec in Hr. intros H; inversion H. auto.
Qed.

Lemma pack_H_value (v : Z) (b : bytes) :
  pack_H v = Ok b -> 0 <= v < 0x10000 /\ len b = 2 /\ le_value b = v.
Proof.
  unfold pack_H. destruct (in_range v 65536) eqn:Hr; [|discriminate].
  apply in_range_spec in Hr. intros H; inversion H; subst b; clear H.
  split; [exact Hr|]. split; [reflexivity|].
  cbn [le_value].
  rewrite !ord_chr by (Z.div_mod_to_equations; lia).
  Z.div_mod_to_equations; lia.
Qed.

Lemma pack_I_value (v : Z) (b : bytes) :
  pack_I v = Ok b -> 0 <= v < 0x100000000 /\ len b = 4 /\ le_value b = v.
Proof.
  unfold pack_I. destruct (in_range v 4294967296) eqn:Hr; [|discriminate].
  apply in_range_spec in Hr. intros H; inversion H; subst b; clear H.
  split; [exact Hr|]. split; [reflexivity|].
  cbn [le_value].
  rewrite !ord_chr by (Z.div_mod_to_equations; lia).
  Z.div_mod_to_equations; lia.
Qed.

Lemma len_is (n : nat) (b : bytes) : len b = Z.of_nat n -> length b = n.
Proof. unfold len. lia. Qed.

Lemma unpack_pack_BBHI (a b c d : Z) (h : bytes) :
  pack_BBHI a b c d = Ok h ->
  len h = 8 /\ unpack_BBHI h = Ok (a, b, c, d).
Proof.
  unfold pack_BBHI.
  destruct (pack_B a) as [x|] eqn:Ha; cbn [bind]; [|discriminate].
  destruct (pack_B b) as [y|] eqn:Hb; cbn [bind]; [|discriminate].
  destruct (pack_H c) as [z|] eqn:Hc; cbn [bind]; [|discriminate].
  destruct (pack_I d) as [w|] eqn:Hd; cbn [bind]; [|discriminate].
  intros H; inversion H; subst h; clear H.
  apply pack_B_value in Ha. destruct Ha as [Ha ->].
  apply pack_B_value in Hb. destruct Hb as [Hb ->].
  apply pack_H_value in Hc. destruct Hc as (Hc & Hlz & Hvz).
  apply pack_I_value in Hd. destruct Hd as (Hd & Hlw & Hvw).
  apply (len_is 2) in Hlz. apply (len_is 4) in Hlw.
  destruct z as [|z0 [|z1 [|]]]; try discriminate.
  destruct w as [|w0 [|w1 [|w2 [|w3 [|]]]]]; try discriminate.
  split; [reflexivity|].
  cbn [app unpack_BBHI]. rewrite !ord_chr by lia. rewrite Hvz, Hvw. reflexivity.
Qed.

(** A packet is cut after its 8-byte header. *)
Lemma header_and_body (header body : bytes) :
  len header = 8 ->
  slice_to (header ++ body) 8 = header /\ slice_from (header ++ body) 8 = body.
Proof.
  intros Hlen. rewrite slice_to_firstn, slice_from_skipn by lia.
  apply (len_is 8) in Hlen. change (Z.to_nat 8) with 8%nat.
  rewrite <- Hlen, firstn_app, skipn_app, firstn_all, skipn_all, Nat.sub_diag.
  simpl. rewrite app_nil_r. auto.
Qed.

(** ** Replies to a command *)

Lemma responses_step_past (op : Z) (p : bytes) (g g1 : slip_reader.generator)
    (retries : nat) :
  ESPLoader.read g = Ok (p, g1) ->
  passed_over op p ->
  responses (S retries) g (Some op) = responses retries g1 (Some op).
Proof.
  intros Hread Hpass. cbn [responses]. rewrite Hread. cbn [lift and_then].
  destruct Hpass as [Hshort | [(dir & rest & -> & Hlen & Hdir)
                              | (header & op' & n & val & body & -> & Hpack & Hop & Hbody)]].
  - replace (len p <? 8) with true by (symmetry; apply Z.ltb_lt; lia). reflexivity.
  - replace (len (dir :: rest) <? 8) with false by (symmetry; apply Z.ltb_ge; lia).
    rewrite slice_to_firstn by lia. change (Z.to_nat 8) with 8%nat.
    unfold len in Hlen. simpl length in Hlen.
    destruct rest as [|r1 [|r2 [|r3 [|r4 [|r5 [|r6 [|r7 rest]]]]]]];
      simpl length in Hlen; try lia.
    cbn [firstn unpack_BBHI lift and_then].
    replace (ord dir =? 1) with false; [reflexivity|].
    symmetry. apply Z.eqb_neq. intros Hd. apply Hdir.
    rewrite <- (chr_ord dir), Hd. reflexivity.
  - destruct (unpack_pack_BBHI _ _ _ _ _ Hpack) as [Hlen Hunpack].
    destruct (header_and_body header body Hlen) as [Hto Hfrom].
    pose proof (len_nonneg body).
    replace (len (header ++ body) <? 8) with false
      by (symmetry; apply Z.ltb_ge; rewrite len_app; lia).
    rewrite Hto, Hfrom, Hunpack. cbn [lift and_then].
    change (1 =? 1) with true. cbn [negb].
    replace (op' =? op) with false by (symmetry; apply Z.eqb_neq; exact Hop).
    destruct Hbody as (rest & [-> | (status & reason & -> & Hreason)]).
    + reflexivity.
    + change (byte_at (status :: reason :: rest) 0) with (@Ok Z (ord status)).
      change (byte_at (status :: reason :: rest) 1) with (@Ok Z (ord reason)).
      cbn [lift and_then].
      destruct (negb (ord status =? 0)); [|reflexivity].
      replace (ord reason =? ROM_INVALID_RECV_MSG) with false; [reflexivity|].
      symmetry. apply Z.eqb_neq. intros Hr. apply Hreason.
      rewrite <- (chr_ord reason), Hr. reflexivity.
Qed.

Lemma responses_pass_over (op : Z) (junk : list bytes) :
  forall (g g1 : slip_reader.generator) (retries : nat),
    reads_as g junk g1 ->
    Forall (passed_over op) junk ->
    responses (length junk + retries) g (Some op) = responses retries g1 (Some op).
Proof.
  induction junk as [|p junk IH]; intros g g1 retries Hreads Hpass.
  - simpl in *. subst. reflexivity.
  - destruct Hreads as (g0 & Hread & Hrest).
    inversion Hpass as [|? ? Hp Hjunk]; subst.
    simpl length. simpl Nat.add.
    rewrite (responses_step_past op p g g0 _ Hread Hp).
    apply IH; assumption.
Qed.

(** [command] returns the reply to its own request: having sent the
    request, it passes over up to 99 packets that are too short, are not
    responses, or answer another command without the invalid-message
    status, and returns the value and the body of the first response to
    [op], whatever the length field of that response says. *)
Theorem command_returns_matching_response :
  forall (self : connection) (op chk n val : Z) (data request header body : bytes)
         (junk : list bytes) (g1 g2 : slip_reader.generator),
    pack_BBHI 0x00 op (len data) chk = Ok request ->
    reads_as (_slip_reader self) junk g1 ->
    Forall (passed_over op) junk ->
    (length junk < 100)%nat ->
    ESPLoader.read g1 = Ok (header ++ body, g2) ->
    pack_BBHI 0x01 op n val = Ok header ->
    command self (Some op) data chk true =
    Returned (Some (val, body),
              {| _slip_reader := g2;
                 written := ESPLoader.write (request ++ data) :: written self |}).
Proof.
  intros self op chk n val data request header body junk g1 g2
         Hreq Hreads Hpass Hcount Hread Hhdr.
  unfold command. rewrite Hreq. cbn [lift and_then negb _slip_reader written].
  replace 100%nat with (length junk + S (99 - length junk))%nat by lia.
  rewrite (responses_pass_over op junk _ g1 _ Hreads Hpass).
  cbn [responses]. rewrite Hread. cbn [lift and_then].
  destruct (unpack_pack_BBHI _ _ _ _ _ Hhdr) as [Hlen Hunpack].
  destruct (header_and_body header body Hlen) as [Hto Hfrom].
  pose proof (len_nonneg body).
  replace (len (header ++ body) <? 8) with false
    by (symmetry; apply Z.ltb_ge; rewrite len_app; lia).
  rewrite Hto, Hfrom, Hunpack. cbn [lift and_then].
  change (1 =? 1) with true. cbn [negb]. rewrite Z.eqb_refl. reflexivity.
Qed.

(** A READ_REG request answered, after a stray SYNC response, with the
    value [0x12345678]. *)
Lemma command_returns_matching_response_witness :
  command
    {| _slip_reader :=
         slip_reader.create
           [ESPLoader.write [x01; x08; x02; x00; x00; x00; x00; x00; x00; x00];
            ESPLoader.write [x01; x0a; x02; x00; x78; x56; x34; x12; x00; x00]];
       written := [] |}
    (Some ESP_READ_REG) [x00; x10; x00; x40] 0 true =
  Returned (Some (0x12345678, [x00; x00]),
            {| _slip_reader := slip_reader.create [];
               written :=
                 [ESPLoader.write ([x00; x0a; x04; x00; x00; x00; x00; x00]
                                   ++ [x00; x10; x00; x40])] |}).
Proof.
  apply (command_returns_matching_response
           {| _slip_reader :=
                slip_reader.create
                  [ESPLoader.write [x01; x08; x02; x00; x00; x00; x00; x00; x00; x00];
                   ESPLoader.write [x01; x0a; x02; x00; x78; x56; x34; x12; x00; x00]];
              written := [] |}
           ESP_READ_REG 0 2 0x12345678
           [x00; x10; x00; x40] [x00; x0a; x04; x00; x00; x00; x00; x00]
           [x01; x0a; x02; x00; x78; x56; x34; x12] [x00; x00]
           [[x01; x08; x02; x00; x00; x00; x00; x00; x00; x00]]
           (slip_reader.create
              [ESPLoader.write [x01; x0a; x02; x00; x78; x56; x34; x12; x00; x00]])
           (slip_reader.create [])).
  - reflexivity.
  - eexists. split; reflexivity.
  - constructor; [|constructor].
    right. right.
    exists [x01; x08; x02; x00; x00; x00; x00; x00], 0x08, 2, 0, [x00; x00].
    repeat split; try reflexivity; try discriminate.
    exists [x00]. left. reflexivity.
  - simpl. lia.
  - reflexivity.
  - reflexivity.
Defined.

(** [command] gives up on the hundredth packet it has to pass over: it
    raises "Response doesn't match request". *)
Theorem command_gives_up_after_100_packets :
  forall (self : connection) (op chk : Z) (data request : bytes)
         (junk : list bytes) (g1 : slip_reader.generator),
    pack_BBHI 0x00 op (len data) chk = Ok request ->
    reads_as (_slip_reader self) junk g1 ->
    Forall (passed_over op) junk ->
    length junk = 100%nat ->
    command self (Some op) data chk true = Failed ResponseDoesntMatchRequest.
Proof.
  intros self op chk data request junk g1 Hreq Hreads Hpass Hcount.
  unfold command. rewrite Hreq. cbn [lift and_then negb _slip_reader written].
  replace 100%nat with (length junk + 0)%nat by lia.
  rewrite (responses_pass_over op junk _ g1 _ Hreads Hpass). reflexivity.
Qed.

Lemma reads_as_repeat (p : bytes) (n : nat) (later : list bytes) :
  reads_as (slip_reader.create (repeat (ESPLoader.write p) n ++ later))
    (repeat p n) (slip_reader.create later).
Proof.
  induction n as [|n IH]; [reflexivity|].
  cbn [repeat app reads_as]. exists (slip_reader.create (repeat (ESPLoader.write p) n ++ later)).
  split; [|exact IH].
  unfold ESPLoader.read, slip_reader.next, slip_reader.create.
  cbn [slip_reader.vars slip_reader.read_bytes slip_reader.port slip_reader.for_loop].
  apply (while_loop_reads [ESPLoader.write p]).
  - repeat constructor. discriminate.
  - cbn [concat]. rewrite app_nil_r, write_is_spec_encode.
    rewrite <- (app_nil_r (spec_encode p)). apply for_loop_frame.
Qed.

(** A target that sends a hundred empty packets. *)
Lemma command_gives_up_after_100_packets_witness :
  command
    {| _slip_reader := slip_reader.create (repeat (ESPLoader.write []) 100 ++ []);
       written := [] |}
    (Some ESP_READ_REG) [x00; x10; x00; x40] 0 true =
  Failed ResponseDoesntMatchRequest.
Proof.
  apply (command_gives_up_after_100_packets
           {| _slip_reader :=
                slip_reader.create (repeat (ESPLoader.write []) 100 ++ []);
              written := [] |}
           ESP_READ_REG 0
           [x00; x10; x00; x40] [x00; x0a; x04; x00; x00; x00; x00; x00]
           (repeat [] 100) (slip_reader.create [])).
  - reflexivity.
  - apply reads_as_repeat.
  - apply Forall_forall. intros p Hp. apply repeat_spec in Hp. subst p.
    left. unfold len. simpl. lia.
  - apply repeat_length.
Defined.

(** The response to another command whose status byte is not zero and
    whose reason byte is [0x05] makes [command] raise
    [UnsupportedCommandError] at once; one with no body at all, or with
    a non-zero status byte and nothing after it, makes it raise
    [IndexError]. *)
Theorem command_on_response_to_other_command :
  forall (self : connection) (op chk op' n val : Z) (data request header : bytes)
         (junk : list bytes) (g1 g2 : slip_reader.generator) (body : bytes),
    pack_BBHI 0x00 op (len data) chk = Ok request ->
    reads_as (_slip_reader self) junk g1 ->
    Forall (passed_over op) junk ->
    (length junk < 100)%nat ->
    ESPLoader.read g1 = Ok (header ++ body, g2) ->
    pack_BBHI 0x01 op' n val = Ok header ->
    op' <> op ->
    (forall status rest,
        body = status :: x05 :: rest -> status <> x00 ->
        command self (Some op) data chk true =
        Failed (UnsupportedCommandError (Some op))) /\
    (body = [] ->
     command self (Some op) data chk true = Failed (Raised IndexError)) /\
    (forall status,
        body = [status] -> status <> x00 ->
        command self (Some op) data chk true = Failed (Raised IndexError)).
Proof.
  intros self op chk op' n val data request header junk g1 g2 body
         Hreq Hreads Hpass Hcount Hread Hhdr Hop.
  assert (Hcmd :
    command self (Some op) data chk true =
    let* status := lift (byte_at body 0) in
    if negb (status =? 0)
    then
      let* reason := lift (byte_at body 1) in
      if reason =? ROM_INVALID_RECV_MSG
      then Failed (UnsupportedCommandError (Some op))
      else let* (v, d, g) := responses (99 - length junk) g2 (Some op) in
           Returned (Some (v, d),
                     {| _slip_reader := g;
                        written := ESPLoader.write (request ++ data) :: written self |})
    else let* (v, d, g) := responses (99 - length junk) g2 (Some op) in
         Returned (Some (v, d),
                   {| _slip_reader := g;
                      written := ESPLoader.write (request ++ data) :: written self |})).
  { unfold command. rewrite Hreq. cbn [lift and_then negb _slip_reader written].
    replace 100%nat with (length junk + S (99 - length junk))%nat by lia.
    rewrite (responses_pass_over op junk _ g1 _ Hreads Hpass).
    cbn [responses]. rewrite Hread. cbn [lift and_then].
    destruct (unpack_pack_BBHI _ _ _ _ _ Hhdr) as [Hlen Hunpack].
    destruct (header_and_body header body Hlen) as [Hto Hfrom].
    pose proof (len_nonneg body).
    replace (len (header ++ body) <? 8) with false
      by (symmetry; apply Z.ltb_ge; rewrite len_app; lia).
    rewrite Hto, Hfrom, Hunpack. cbn [lift and_then].
    change (1 =? 1) with true. cbn [negb].
    replace (op' =? op) with false by (symmetry; apply Z.eqb_neq; exact Hop).
    destruct (byte_at body 0) as [status|e]; cbn [lift and_then]; [|reflexivity].
    destruct (negb (status =? 0)); [|reflexivity].
    destruct (byte_at body 1) as [reason|e]; cbn [lift and_then]; [|reflexivity].
    destruct (reason =? ROM_INVALID_RECV_MSG); reflexivity. }
  assert (Hnz : forall status, status <> x00 -> negb (ord status =? 0) = true).
  { intros status Hs. apply negb_true_iff, Z.eqb_neq. intros H0. apply Hs.
    rewrite <- (chr_ord status), H0. reflexivity. }
  split; [|split].
  - intros status rest -> Hstatus. rewrite Hcmd.
    change (byte_at (status :: x05 :: rest) 0) with (@Ok Z (ord status)).
    change (byte_at (status :: x05 :: rest) 1) with (@Ok Z (ord x05)).
    cbn [lift and_then]. rewrite (Hnz status Hstatus). reflexivity.
  - intros ->. rewrite Hcmd. reflexivity.
  - intros status -> Hstatus. rewrite Hcmd.
    change (byte_at [status] 0) with (@Ok Z (ord status)).
    cbn [lift and_then]. rewrite (Hnz status Hstatus). reflexivity.
Qed.

(** A stray response to FLASH_BEGIN with status [01 05], while waiting
    for the reply to READ_REG. *)
Lemma command_on_response_to_other_command_witness :
  command
    {| _slip_reader :=
         slip_reader.create
           [ESPLoader.write [x01; x02; x02; x00; x00; x00; x00; x00; x01; x05]];
       written := [] |}
    (Some ESP_READ_REG) [x00; x10; x00; x40] 0 true =
  Failed (UnsupportedCommandError (Some ESP_READ_REG)).
Proof.
  apply (proj1 (command_on_response_to_other_command
           {| _slip_reader :=
                slip_reader.create
                  [ESPLoader.write [x01; x02; x02; x00; x00; x00; x00; x00; x01; x05]];
              written := [] |}
           ESP_READ_REG 0 0x02 2 0
           [x00; x10; x00; x40] [x00; x0a; x04; x00; x00; x00; x00; x00]
           [x01; x02; x02; x00; x00; x00; x00; x00]
           []
           (slip_reader.create
              [ESPLoader.write [x01; x02; x02; x00; x00; x00; x00; x00; x01; x05]])
           (slip_reader.create [])
           [x01; x05]
           eq_refl eq_refl (Forall_nil _) ltac:(simpl; lia) eq_refl eq_refl
           ltac:(discriminate))
         x01 []).
  - reflexivity.
  - discriminate.
Defined.

(** ** [sync] *)

Lemma responses_first (g g1 : slip_reader.generator) (op : option Z)
    (op' n val : Z) (header body : bytes) (retries : nat) :
  ESPLoader.read g = Ok (header ++ body, g1) ->
  pack_BBHI 0x01 op' n val = Ok header ->
  op = None \/ op = Some op' ->
  responses (S retries) g op = Returned (val, body, g1).
Proof.
  intros Hread Hhdr Hop. cbn [responses]. rewrite Hread. cbn [lift and_then].
  destruct (unpack_pack_BBHI _ _ _ _ _ Hhdr) as [Hlen Hunpack].
  destruct (header_and_body header body Hlen) as [Hto Hfrom].
  pose proof (len_nonneg body).
  replace (len (header ++ body) <? 8) with false
    by (symmetry; apply Z.ltb_ge; rewrite len_app; lia).
  rewrite Hto, Hfrom, Hunpack. cbn [lift and_then].
  change (1 =? 1) with true. cbn [negb].
  destruct Hop as [-> | ->]; [reflexivity|]. rewrite Z.eqb_refl. reflexivity.
Qed.

Lemma sync_drain_values (n : nat) :
  forall (packets : list bytes) (vals : list Z) (self : connection)
         (g' : slip_reader.generator) (flag : bool),
    length packets = n ->
    reads_as (_slip_reader self) packets g' ->
    Forall2 response_with packets vals ->
    sync_drain n self flag =
    Returned (flag && forallb (fun v => v =? 0) vals,
              {| _slip_reader := g'; written := written self |}).
Proof.
  induction n as [|n IH]; intros packets vals self g' flag Hlen Hreads Hvals.
  - destruct packets; [|discriminate]. inversion Hvals; subst.
    simpl in *. subst g'. rewrite andb_true_r. destruct self; reflexivity.
  - destruct packets as [|p packets]; [discriminate|].
    inversion Hvals as [|? v ? vs Hp Hrest]; subst.
    destruct Hreads as (g1 & Hread & Hreads).
    destruct Hp as (op & k & header & body & Hhdr & ->).
    cbn [sync_drain]. unfold command, unpacked.
    cbn [and_then negb].
    rewrite (responses_first _ g1 None op k v header body 99 Hread Hhdr (or_introl eq_refl)).
    cbn [and_then].
    rewrite (IH packets vs {| _slip_reader := g1; written := written self |} g'
               (flag && (v =? 0)) ltac:(simpl in Hlen; lia) Hreads Hrest).
    cbn [written forallb]. rewrite andb_assoc. reflexivity.
Qed.

(** [sync] sends the SYNC request, takes the value of its reply and the
    values of the next seven responses, whatever commands they answer,
    and leaves [sync_stub_detected] true exactly when all eight values
    are zero. *)
Theorem sync_detects_stub :
  forall (self : connection) (n0 val0 : Z) (header0 body0 : bytes)
         (packets : list bytes) (vals : list Z) (g' : slip_reader.generator),
    reads_as (_slip_reader self) ((header0 ++ body0) :: packets) g' ->
    pack_BBHI 0x01 ESP_SYNC n0 val0 = Ok header0 ->
    length packets = 7%nat ->
    Forall2 response_with packets vals ->
    sync self =
    Returned (forallb (fun v => v =? 0) (val0 :: vals),
              {| _slip_reader := g';
                 written :=
                   ESPLoader.write
                     ([x00; x08; x24; x00; x00; x00; x00; x00]
                      ++ [x07; x07; x12; x20] ++ repeat x55 32) :: written self |}).
Proof.
  intros self n0 val0 header0 body0 packets vals g' Hreads Hhdr Hlen Hvals.
  destruct Hreads as (g1 & Hread & Hreads).
  unfold sync, command, unpacked.
  change (pack_BBHI 0 ESP_SYNC (len ([x07; x07; x12; x20] ++ repeat x55 32)) 0)
    with (@Ok bytes [x00; x08; x24; x00; x00; x00; x00; x00]).
  cbn [lift and_then negb _slip_reader written].
  rewrite (responses_first _ g1 (Some ESP_SYNC) ESP_SYNC n0 val0 header0 body0 99
             Hread Hhdr (or_intror eq_refl)).
  cbn [and_then].
  rewrite (sync_drain_values 7 packets vals
             {| _slip_reader := g1;
                written :=
                  ESPLoader.write
                    ([x00; x08; x24; x00; x00; x00; x00; x00]
                     ++ [x07; x07; x12; x20] ++ repeat x55 32) :: written self |}
             g' (val0 =? 0) Hlen Hreads Hvals).
  reflexivity.
Qed.

(** A stub answers: eight responses to SYNC, all with value 0. *)
Lemma sync_detects_stub_witness :
  sync
    {| _slip_reader :=
         slip_reader.create
           (repeat (ESPLoader.write
                      ([x01; x08; x02; x00; x00; x00; x00; x00] ++ [x00; x00])) 8 ++ []);
       written := [] |} =
  Returned (true,
            {| _slip_reader := slip_reader.create [];
               written :=
                 [ESPLoader.write
                    ([x00; x08; x24; x00; x00; x00; x00; x00]
                     ++ [x07; x07; x12; x20] ++ repeat x55 32)] |}).
Proof.
  apply (sync_detects_stub
           {| _slip_reader :=
                slip_reader.create
                  (repeat (ESPLoader.write
                             ([x01; x08; x02; x00; x00; x00; x00; x00] ++ [x00; x00])) 8
                   ++ []);
              written := [] |}
           2 0 [x01; x08; x02; x00; x00; x00; x00; x00] [x00; x00]
           (repeat ([x01; x08; x02; x00; x00; x00; x00; x00] ++ [x00; x00]) 7)
           (repeat 0 7) (slip_reader.create [])).
  - apply (reads_as_repeat ([x01; x08; x02; x00; x00; x00; x00; x00] ++ [x00; x00])
             8 []).
  - reflexivity.
  - reflexivity.
  - repeat constructor;
      exists 0x08, 2, [x01; x08; x02; x00; x00; x00; x00; x00], [x00; x00];
      split; reflexivity.
Defined.

(** ** [read_reg] *)

(** [read_reg] returns the value field of the reply when the first byte
    of its body is zero, raises the failure carrying the whole body when
    it is not, and raises [IndexError] on a reply with no body. *)
Theorem read_reg_value_or_failure :
  forall (self : connection) (addr n val : Z) (packed header body : bytes)
         (junk : list bytes) (g1 g2 : slip_reader.generator),
    pack_I addr = Ok packed ->
    reads_as (_slip_reader self) junk g1 ->
    Forall (passed_over ESP_READ_REG) junk ->
    (length junk < 100)%nat ->
    ESPLoader.read g1 = Ok (header ++ body, g2) ->
    pack_BBHI 0x01 ESP_READ_REG n val = Ok header ->
    read_reg self addr =
    match body with
    | [] => Failed (Raised IndexError)
    | status :: _ =>
        if ord status =? 0
        then Returned
               (val,
                {| _slip_reader := g2;
                   written :=
                     ESPLoader.write
                       ([x00; x0a; x04; x00; x00; x00; x00; x00] ++ packed)
                     :: written self |})
        else Failed (Raised (FailedWithResult body))
    end.
Proof.
  intros self addr n val packed header body junk g1 g2
         Hpack Hreads Hpass Hcount Hread Hhdr.
  unfold read_reg, unpacked, command. rewrite Hpack. cbn [lift and_then].
  destruct (pack_I_value _ _ Hpack) as (_ & Hlen & _). rewrite Hlen.
  change (pack_BBHI 0 ESP_READ_REG 4 0)
    with (@Ok bytes [x00; x0a; x04; x00; x00; x00; x00; x00]).
  cbn [lift and_then negb _slip_reader written].
  replace 100%nat with (length junk + S (99 - length junk))%nat by lia.
  rewrite (responses_pass_over ESP_READ_REG junk _ g1 _ Hreads Hpass).
  rewrite (responses_first g1 g2 (Some ESP_READ_REG) ESP_READ_REG n val header body _
             Hread Hhdr (or_intror eq_refl)).
  cbn [and_then].
  destruct body as [|status rest]; [reflexivity|].
  change (byte_at (status :: rest) 0) with (@Ok Z (ord status)).
  cbn [lift and_then]. destruct (ord status =? 0); reflexivity.
Qed.

(** The register at [0x40001000] read as [0x00F01D83]. *)
Lemma read_reg_value_or_failure_witness :
  read_reg
    {| _slip_reader :=
         slip_reader.create
           [ESPLoader.write ([x01; x0a; x04; x00; x83; x1d; xf0; x00]
                             ++ [x00; x00; x00; x00])];
       written := [] |}
    0x40001000 =
  Returned (0x00F01D83,
            {| _slip_reader := slip_reader.create [];
               written :=
                 [ESPLoader.write ([x00; x0a; x04; x00; x00; x00; x00; x00]
                                   ++ [x00; x10; x00; x40])] |}).
Proof.
  apply (read_reg_value_or_failure
           {| _slip_reader :=
                slip_reader.create
                  [ESPLoader.write ([x01; x0a; x04; x00; x83; x1d; xf0; x00]
                                    ++ [x00; x00; x00; x00])];
              written := [] |}
           0x40001000 4 0x00F01D83 [x00; x10; x00; x40]
           [x01; x0a; x04; x00; x83; x1d; xf0; x00] [x00; x00; x00; x00]
           [] (slip_reader.create
                 [ESPLoader.write ([x01; x0a; x04; x00; x83; x1d; xf0; x00]
                                   ++ [x00; x00; x00; x00])])
           (slip_reader.create [])).
  - reflexivity.
  - reflexivity.
  - constructor.
  - simpl. lia.
  - reflexivity.
  - reflexivity.
Defined.

(** ** Bounds of the erase size *)

(** For a size that is not negative, the ESP8266 ROM erase size is a
    whole number of sectors: never more than the sectors that hold
    [size] bytes, never fewer than half of them. *)
Theorem get_erase_size_bounds :
  forall offset size : Z,
    0 <= size ->
    exists sectors,
      ESP8266ROM.get_erase_size offset size = sectors * ESPLoader.FLASH_SECTOR_SIZE /\
      sectors <= (size + 0xFFF) / 0x1000 <= 2 * sectors.
Proof.
  intros offset size Hsize.
  unfold ESP8266ROM.get_erase_size, ESPLoader.FLASH_SECTOR_SIZE. cbv zeta.
  replace (size + 4096 - 1) with (size + 4095) by lia.
  set (n := (size + 4095) / 4096).
  assert (Hn : 0 <= n) by (apply Z.div_pos; lia).
  pose proof (Z.mod_pos_bound (offset / 4096) 16 ltac:(lia)) as Hmod.
  set (h0 := 16 - (offset / 4096) mod 16) in *.
  set (h := if n <? h0 then n else h0).
  assert (Hh : 0 <= h <= n \/ (0 <= h /\ n < h0 /\ h = n)).
  { subst h. destruct (Z.ltb_spec n h0); lia. }
  assert (Hh' : 0 <= h) by lia.
  destruct (n <? 2 * h) eqn:Hbranch.
  - exists ((n + 1) / 2). split; [reflexivity|].
    Z.div_mod_to_equations; lia.
  - apply Z.ltb_ge in Hbranch. exists (n - h). split; [reflexivity|]. lia.
Qed.

Lemma get_erase_size_bounds_witness :
  exists sectors,
    ESP8266ROM.get_erase_size 0x3000 0x5800 = sectors * ESPLoader.FLASH_SECTOR_SIZE /\
    sectors <= (0x5800 + 0xFFF) / 0x1000 <= 2 * sectors.
Proof.
  apply (get_erase_size_bounds 0x3000 0x5800). lia.
Defined.

(** ** Segments *)

Lemma pad_to_boundary (data : bytes) (alignment : Z) (c : byte) :
  0 < alignment ->
  exists k,
    0 <= k < alignment /\
    pad_to data alignment c = data ++ repeat c (Z.to_nat k) /\
    len (pad_to data alignment c) mod alignment = 0 /\
    (len data mod alignment = 0 -> k = 0).
Proof.
  intros Ha. unfold pad_to.
  pose proof (Z.mod_pos_bound (len data) alignment Ha) as Hmod.
  destruct (Z.eqb_spec (len data mod alignment) 0) as [E|E]; cbn [negb].
  - exists 0. simpl. rewrite app_nil_r. repeat split; auto; lia.
  - exists (alignment - len data mod alignment). repeat split; try lia.
    rewrite len_app. unfold len at 2. rewrite repeat_length, Z2Nat.id by lia.
    replace (len data + (alignment - len data mod alignment))
      with (len data - len data mod alignment + 1 * alignment) by lia.
    rewrite Z.mod_add by lia.
    rewrite Zminus_mod, Zmod_mod, Z.sub_diag. apply Z.mod_0_l. lia.
Qed.

(** [pad_to] adds fewer than [alignment] pad bytes and brings the length
    to a multiple of [alignment]; so an [ImageSegment] made at an
    address that is not 0 holds the bytes given, up to three zero bytes
    more, in a number that is a multiple of 4, and one made at address 0
    holds the bytes given. *)
Theorem segment_data_padded_to_4 :
  (forall (data : bytes) (alignment : Z) (c : byte),
      0 < alignment ->
      exists k,
        0 <= k < alignment /\
        pad_to data alignment c = data ++ repeat c (Z.to_nat k) /\
        len (pad_to data alignment c) mod alignment = 0 /\
        (len data mod alignment = 0 -> pad_to data alignment c = data)) /\
  (forall (addr : Z) (data : bytes) (file_offs : option Z),
      ImageSegment.addr (ImageSegment.init addr data file_offs) = addr /\
      ImageSegment.include_in_checksum (ImageSegment.init addr data file_offs) = true /\
      (addr = 0 -> ImageSegment.data (ImageSegment.init addr data file_offs) = data) /\
      (addr <> 0 ->
       exists k,
         0 <= k < 4 /\
         ImageSegment.data (ImageSegment.init addr data file_offs) = data ++ zeros k /\
         len (ImageSegment.data (ImageSegment.init addr data file_offs)) mod 4 = 0)).
Proof.
  split.
  - intros data alignment c Ha.
    destruct (pad_to_boundary data alignment c Ha) as (k & Hk & Heq & Hmod & Hzero).
    exists k. repeat split; try tauto; try lia.
    intros H0. rewrite Heq, (Hzero H0). simpl. apply app_nil_r.
  - intros addr data file_offs. unfold ImageSegment.init.
    cbn [ImageSegment.addr ImageSegment.data ImageSegment.include_in_checksum].
    repeat split.
    + intros ->. reflexivity.
    + intros Haddr.
      replace (negb (addr =? 0)) with true
        by (symmetry; apply negb_true_iff, Z.eqb_neq; exact Haddr).
      destruct (pad_to_boundary data 4 x00 ltac:(lia)) as (k & Hk & Heq & Hmod & _).
      exists k. unfold zeros. tauto.
Qed.

Lemma segment_data_padded_to_4_witness :
  exists k,
    0 <= k < 4 /\
    ImageSegment.data (ImageSegment.init 0x40100000 [x01; x02; x03; x04; x05] None) =
      [x01; x02; x03; x04; x05] ++ zeros k /\
    len (ImageSegment.data
           (ImageSegment.init 0x40100000 [x01; x02; x03; x04; x05] None)) mod 4 = 0.
Proof.
  apply (proj2 segment_data_padded_to_4 0x40100000 [x01; x02; x03; x04; x05] None).
  discriminate.
Defined.

(** [split_image] loses no byte: the segment returned holds the first
    [split_len] bytes at the address of the segment, the segment keeps
    the rest, in order, and its address moves on by [split_len]; when
    the segment has [split_len] bytes or more, that is the address of
    the first byte it keeps. *)
Theorem split_image_keeps_bytes :
  forall (self : ImageSegment.t) (split_len : Z),
    0 <= split_len ->
    let (result, rest) := ImageSegment.split_image self split_len in
    ImageSegment.data result ++ ImageSegment.data rest = ImageSegment.data self /\
    ImageSegment.addr result = ImageSegment.addr self /\
    ImageSegment.addr rest = ImageSegment.addr self + split_len /\
    len (ImageSegment.data result) = Z.min split_len (len (ImageSegment.data self)) /\
    ImageSegment.file_offs result = None /\
    ImageSegment.file_offs rest = None /\
    (split_len <= len (ImageSegment.data self) ->
     ImageSegment.addr rest =
       ImageSegment.addr result + len (ImageSegment.data result)).
Proof.
  intros self split_len Hn. unfold ImageSegment.split_image.
  cbn [ImageSegment.data ImageSegment.addr ImageSegment.file_offs].
  rewrite slice_to_firstn, slice_from_skipn by lia.
  rewrite firstn_skipn.
  assert (Hlen : len (firstn (Z.to_nat split_len) (ImageSegment.data self))
                 = Z.min split_len (len (ImageSegment.data self)))
    by (unfold len; rewrite length_firstn; lia).
  repeat split; auto. intros Hle. rewrite Hlen. lia.
Qed.

Lemma split_image_keeps_bytes_witness :
  let (result, rest) := ImageSegment.split_image pad8_ram 6 in
  ImageSegment.data result ++ ImageSegment.data rest = ImageSegment.data pad8_ram /\
  ImageSegment.addr result = ImageSegment.addr pad8_ram /\
  ImageSegment.addr rest = ImageSegment.addr pad8_ram + 6 /\
  len (ImageSegment.data result) = Z.min 6 (len (ImageSegment.data pad8_ram)) /\
  ImageSegment.file_offs result = None /\
  ImageSegment.file_offs rest = None /\
  (6 <= len (ImageSegment.data pad8_ram) ->
   ImageSegment.addr rest = ImageSegment.addr result + len (ImageSegment.data result)).
Proof.
  apply (split_image_keeps_bytes pad8_ram 6). lia.
Defined.

(** ** Checksums *)

Lemma lxor_byte_range (a b : Z) :
  0 <= a < 0x100 -> 0 <= b < 0x100 -> 0 <= Z.lxor a b < 0x100.
Proof.
  intros Ha Hb.
  assert (Hnn : 0 <= Z.lxor a b) by (apply Z.lxor_nonneg; lia).
  split; [exact Hnn|].
  destruct (Z.eq_dec (Z.lxor a b) 0) as [E|E]; [lia|].
  change 0x100 with (2 ^ 8). apply Z.log2_lt_pow2; [lia|].
  eapply Z.le_lt_trans; [apply Z.log2_lxor; lia|].
  apply Z.max_lub_lt.
  - destruct (Z.eq_dec a 0) as [->|]; [reflexivity|]. apply Z.log2_lt_pow2; lia.
  - destruct (Z.eq_dec b 0) as [->|]; [reflexivity|]. apply Z.log2_lt_pow2; lia.
Qed.

Lemma checksum_app (a b : bytes) (state : Z) :
  ESPLoader.checksum (a ++ b) state = ESPLoader.checksum b (ESPLoader.checksum a state).
Proof. unfold ESPLoader.checksum. apply fold_left_app. Qed.

Lemma checksum_range (data : bytes) :
  forall state, 0 <= state < 0x100 -> 0 <= ESPLoader.checksum data state < 0x100.
Proof.
  induction data as [|b data IH]; intros state Hs; [exact Hs|].
  unfold ESPLoader.checksum in *. simpl fold_left. apply IH.
  apply lxor_byte_range; [exact Hs|apply ord_range].
Qed.

Lemma checksum_xor (data : bytes) :
  forall state, ESPLoader.checksum data state = Z.lxor state (ESPLoader.checksum data 0).
Proof.
  induction data as [|b data IH]; intros state.
  - simpl. symmetry. apply Z.lxor_0_r.
  - change (ESPLoader.checksum (b :: data) state)
      with (ESPLoader.checksum data (Z.lxor state (ord b))).
    change (ESPLoader.checksum (b :: data) 0)
      with (ESPLoader.checksum data (Z.lxor 0 (ord b))).
    rewrite IH, (IH (Z.lxor 0 (ord b))), Z.lxor_0_l, Z.lxor_assoc. reflexivity.
Qed.

Lemma calculate_checksum_from (segments : list ImageSegment.t) :
  forall state,
    fold_left
      (fun checksum seg =>
         if ImageSegment.include_in_checksum seg
         then ESPLoader.checksum (ImageSegment.data seg) checksum
         else checksum) segments state =
    ESPLoader.checksum
      (concat (map ImageSegment.data
                 (filter ImageSegment.include_in_checksum segments))) state.
Proof.
  induction segments as [|s segments IH]; intros state; [reflexivity|].
  simpl. destruct (ImageSegment.include_in_checksum s); simpl.
  - rewrite IH, checksum_app. reflexivity.
  - apply IH.
Qed.

(** The checksum of a blob is its seed exclusive-or the checksum of the
    blob from 0, so the checksum of two blobs in a row is that of the
    second seeded with that of the first; from the seed [0xEF] it is a
    byte.  [calculate_checksum] is the checksum, from [0xEF], of the
    data of the segments marked for it, one after the other, and is a
    byte. *)
Theorem checksum_of_segments :
  (forall (data : bytes) (state : Z),
      ESPLoader.checksum data state = Z.lxor state (ESPLoader.checksum data 0)) /\
  (forall (a b : bytes) (state : Z),
      ESPLoader.checksum (a ++ b) state =
      ESPLoader.checksum b (ESPLoader.checksum a state)) /\
  (forall data : bytes,
      0 <= ESPLoader.checksum data ESPLoader.ESP_CHECKSUM_MAGIC < 0x100) /\
  (forall segments : list ImageSegment.t,
      calculate_checksum segments =
      ESPLoader.checksum
        (concat (map ImageSegment.data
                   (filter ImageSegment.include_in_checksum segments)))
        ESPLoader.ESP_CHECKSUM_MAGIC /\
      0 <= calculate_checksum segments < 0x100).
Proof.
  split; [intros; apply checksum_xor|].
  split; [intros; apply checksum_app|].
  split.
  - intros data. apply checksum_range. unfold ESPLoader.ESP_CHECKSUM_MAGIC. lia.
  - intros segments. unfold calculate_checksum.
    rewrite calculate_checksum_from. split; [reflexivity|].
    apply checksum_range. unfold ESPLoader.ESP_CHECKSUM_MAGIC. lia.
Qed.

Lemma read_checksum_after_append :
  forall (f f' : file) (checksum : Z),
    at_end f ->
    BaseFirmwareImage.append_checksum f checksum = Ok f' ->
    read_checksum (mk_file (contents f') (position f)) =
      Returned (checksum, mk_file (contents f') (len (contents f'))) /\
    (exists k, 0 <= k < 16 /\
               contents f' = contents f ++ zeros k ++ [chr checksum]) /\
    len (contents f') mod 16 = 0.
Proof.
  intros f f' ck Hend Happend.
  destruct (append_checksum_at_end _ _ _ Hend Happend) as (Hc & He & Hmod).
  pose proof (Z.mod_pos_bound (len (contents f)) 16 ltac:(lia)) as Hm.
  assert (Hck : 0 <= ck < 0x100).
  { unfold BaseFirmwareImage.append_checksum in Happend.
    destruct (pack_B ck) as [b|] eqn:Hb; [|discriminate].
    apply pack_B_value in Hb. tauto. }
  split; [|split; [exists (15 - len (contents f) mod 16); split; [lia|exact Hc]|exact Hmod]].
  unfold read_checksum, align_file_position, seek_cur, read, tell.
  cbn [contents position].
  unfold at_end in Hend. rewrite Hend.
  replace (16 - 1 - len (contents f) mod 16) with (15 - len (contents f) mod 16) by lia.
  set (gap := 15 - len (contents f) mod 16) in *.
  assert (Hskip : skipn (Z.to_nat (len (contents f) + gap)) (contents f')
                  = [chr ck]).
  { rewrite Hc, app_assoc.
    assert (Hl : Z.to_nat (len (contents f) + gap)
                 = length (contents f ++ zeros gap)).
    { rewrite length_app. unfold zeros, len. rewrite repeat_length. lia. }
    rewrite Hl, skipn_app, skipn_all, Nat.sub_diag. reflexivity. }
  rewrite Hskip. change (firstn (Z.to_nat 1) [chr ck]) with [chr ck].
  cbv beta iota.
  rewrite ord_chr by exact Hck.
  do 3 f_equal. rewrite Hc, !len_app.
  replace (len (zeros gap)) with gap
    by (unfold zeros, len; rewrite repeat_length; lia).
  symmetry; apply Z.add_assoc.
Qed.

(** The checksum byte written by [append_checksum] is the one
    [read_checksum] returns to a reader that has read the segments: it
    is the last byte of the file, after zero bytes that make the length
    of the file a multiple of 16. *)
Theorem checksum_written_is_checksum_read :
  forall (f f' : file) (checksum : Z),
    at_end f ->
    BaseFirmwareImage.append_checksum f checksum = Ok f' ->
    read_checksum (mk_file (contents f') (position f)) =
      Returned (checksum, mk_file (contents f') (len (contents f'))) /\
    (exists k, 0 <= k < 16 /\
               contents f' = contents f ++ zeros k ++ [chr checksum]) /\
    len (contents f') mod 16 = 0.
Proof. exact read_checksum_after_append. Qed.

Lemma checksum_written_is_checksum_read_witness :
  read_checksum (mk_file ([x01; x02; x03] ++ zeros 12 ++ [xab]) 3) =
  Returned (0xAB, mk_file ([x01; x02; x03] ++ zeros 12 ++ [xab]) 16).
Proof.
  apply (checksum_written_is_checksum_read (mk_file [x01; x02; x03] 3)
           (mk_file ([x01; x02; x03] ++ zeros 12 ++ [xab]) 16) 0xAB).
  - reflexivity.
  - reflexivity.
Defined.

(** ** Loading what was saved *)

Lemma read_at (pre d post : bytes) :
  read (mk_file (pre ++ d ++ post) (len pre)) (len d) =
  (d, mk_file (pre ++ d ++ post) (len pre + len d)).
Proof.
  unfold read. cbn [contents position].
  assert (Hgot : firstn (Z.to_nat (len d))
                   (skipn (Z.to_nat (len pre)) (pre ++ d ++ post)) = d).
  { unfold len. rewrite !Nat2Z.id.
    rewrite skipn_app, skipn_all, Nat.sub_diag. cbn [app skipn].
    rewrite firstn_app, firstn_all, Nat.sub_diag. cbn [firstn].
    apply app_nil_r. }
  rewrite Hgot. reflexivity.
Qed.

Lemma unpack_pack_II (a b : Z) (h : bytes) :
  pack_II a b = Ok h ->
  len h = 8 /\ unpack_II h = Ok (a, b) /\ 0 <= b < 0x100000000.
Proof.
  unfold pack_II.
  destruct (pack_I a) as [x|] eqn:Ha; cbn [bind]; [|discriminate].
  destruct (pack_I b) as [y|] eqn:Hb; cbn [bind]; [|discriminate].
  intros H; inversion H; subst h; clear H.
  apply pack_I_value in Ha. destruct Ha as (Ha & Hlx & Hvx).
  apply pack_I_value in Hb. destruct Hb as (Hb & Hly & Hvy).
  apply (len_is 4) in Hlx. apply (len_is 4) in Hly.
  destruct x as [|x0 [|x1 [|x2 [|x3 [|]]]]]; try discriminate.
  destruct y as [|y0 [|y1 [|y2 [|y3 [|]]]]]; try discriminate.
  split; [reflexivity|]. split; [|exact Hb].
  cbn [app unpack_II]. rewrite Hvx, Hvy. reflexivity.
Qed.

Lemma checksum_zeros (n : nat) (state : Z) :
  ESPLoader.checksum (repeat x00 n) state = state.
Proof.
  induction n as [|n IH]; [reflexivity|].
  change (ESPLoader.checksum (repeat x00 (S n)) state)
    with (ESPLoader.checksum (repeat x00 n) (Z.lxor state 0)).
  rewrite Z.lxor_0_r. exact IH.
Qed.

Lemma checksum_init (addr : Z) (d : bytes) (offs : option Z) (state : Z) :
  ESPLoader.checksum (ImageSegment.data (ImageSegment.init addr d offs)) state =
  ESPLoader.checksum d state.
Proof.
  unfold ImageSegment.init, pad_to. cbn [ImageSegment.data].
  destruct (negb (addr =? 0)); [|reflexivity].
  destruct (negb (len d mod 4 =? 0)); [|reflexivity].
  rewrite checksum_app. apply checksum_zeros.
Qed.

Lemma not_patched (self : firmware_image) (f : file) (d : bytes) :
  elf_sha256_offset self < BaseFirmwareImage.SEG_HEADER_LEN ->
  BaseFirmwareImage.SEG_HEADER_LEN <= position f ->
  BaseFirmwareImage.maybe_patch_segment_data self f d = Ok d.
Proof.
  unfold BaseFirmwareImage.SEG_HEADER_LEN. intros Ho Hp.
  unfold BaseFirmwareImage.maybe_patch_segment_data, tell.
  assert (Hge : (elf_sha256_offset self >=? position f) = false).
  { rewrite Z.geb_leb. apply Z.leb_gt. lia. }
  rewrite Hge. reflexivity.
Qed.

Lemma load_segment_at (pre header d post : bytes) (a : Z) :
  pack_II a (len d) = Ok header ->
  load_segment (mk_file (pre ++ header ++ d ++ post) (len pre)) =
  Returned (ImageSegment.init a d (Some (len pre)),
            mk_file (pre ++ header ++ d ++ post) (len pre + 8 + len d)).
Proof.
  intros Hpack. apply unpack_pack_II in Hpack. destruct Hpack as (Hl & Hu & _).
  unfold load_segment, tell. cbn [position].
  rewrite <- Hl at 1. rewrite read_at. cbv beta iota.
  rewrite Hu. cbn [lift and_then].
  assert (Hread : read (mk_file (pre ++ header ++ d ++ post) (len pre + len header))
                    (len d) =
                  (d, mk_file (pre ++ header ++ d ++ post) (len pre + 8 + len d))).
  { replace (pre ++ header ++ d ++ post) with ((pre ++ header) ++ d ++ post)
      by (rewrite <- app_assoc; reflexivity).
    rewrite <- len_app, read_at, len_app, Hl. reflexivity. }
  rewrite Hread. cbv beta iota. rewrite Z.ltb_irrefl. reflexivity.
Qed.

Lemma save_segment_unpatched
    (self : firmware_image) (f f' : file) (seg : ImageSegment.t) (ck ck' : Z) :
  elf_sha256_offset self < BaseFirmwareImage.SEG_HEADER_LEN ->
  BaseFirmwareImage.SEG_HEADER_LEN <= position f ->
  at_end f ->
  BaseFirmwareImage.save_segment self f seg ck = Ok (f', ck') ->
  exists header,
    pack_II (ImageSegment.addr seg) (len (ImageSegment.data seg)) = Ok header /\
    contents f' = contents f ++ header ++ ImageSegment.data seg /\
    at_end f' /\
    position f' = position f + 8 + len (ImageSegment.data seg) /\
    ck' = ESPLoader.checksum (ImageSegment.data seg) ck.
Proof.
  intros Ho Hp Hend Hsave.
  destruct (save_segment_at_end _ _ _ _ _ _ Hend Hsave)
    as (header & d & Hpatch & Hpack & Hc & He & Ht).
  rewrite (not_patched _ _ _ Ho Hp) in Hpatch.
  assert (Hd : d = ImageSegment.data seg) by congruence. subst d.
  exists header. split; [exact Hpack|]. split; [exact Hc|].
  split; [exact He|]. split; [exact Ht|].
  unfold BaseFirmwareImage.save_segment in Hsave.
  rewrite (not_patched _ _ _ Ho Hp) in Hsave. cbn [bind] in Hsave.
  rewrite Hpack in Hsave. cbn [bind] in Hsave. congruence.
Qed.

Lemma load_segments_after_save (self : firmware_image) :
  elf_sha256_offset self < BaseFirmwareImage.SEG_HEADER_LEN ->
  forall (segs : list ImageSegment.t) (f f' : file) (ck ck' : Z),
    BaseFirmwareImage.SEG_HEADER_LEN <= position f ->
    at_end f ->
    ESP8266ROMFirmwareImage.save_segments self f segs ck = Ok (f', ck') ->
    at_end f' /\
    ck' = ESPLoader.checksum (concat (map ImageSegment.data segs)) ck /\
    exists body,
      contents f' = contents f ++ body /\
      forall post, exists loaded,
        load_segments (length segs) (mk_file (contents f' ++ post) (position f)) =
          Returned (loaded, mk_file (contents f' ++ post) (position f')) /\
        map loaded_at loaded =
          map (fun s => loaded_at (ImageSegment.init (ImageSegment.addr s)
                                     (ImageSegment.data s) None)) segs /\
        forall state,
          fold_left
            (fun checksum seg =>
               if ImageSegment.include_in_checksum seg
               then ESPLoader.checksum (ImageSegment.data seg) checksum
               else checksum) loaded state =
          ESPLoader.checksum (concat (map ImageSegment.data segs)) state.
Proof.
  intros Ho segs. induction segs as [|s rest IH]; intros f f' ck ck' Hp Hend Hsave.
  - cbn [ESP8266ROMFirmwareImage.save_segments] in Hsave.
    assert (f' = f) by congruence. assert (ck' = ck) by congruence. subst.
    split; [exact Hend|]. split; [reflexivity|].
    exists []. split; [symmetry; apply app_nil_r|].
    intros post. exists []. split; [reflexivity|]. split; [reflexivity|].
    intros state. reflexivity.
  - cbn [ESP8266ROMFirmwareImage.save_segments] in Hsave.
    destruct (BaseFirmwareImage.save_segment self f s ck) as [[f1 ck1]|] eqn:H1;
      cbn [bind] in Hsave; [|discriminate].
    destruct (save_segment_unpatched _ _ _ _ _ _ Ho Hp Hend H1)
      as (header & Hpack & Hc1 & He1 & Hp1 & Hck1).
    assert (Hp1' : BaseFirmwareImage.SEG_HEADER_LEN <= position f1).
    { rewrite Hp1. pose proof (len_nonneg (ImageSegment.data s)). lia. }
    destruct (IH _ _ _ _ Hp1' He1 Hsave) as (He' & Hck' & body & Hc' & Hload).
    split; [exact He'|]. split.
    { rewrite Hck', Hck1. cbn [map concat]. rewrite checksum_app. reflexivity. }
    exists (header ++ ImageSegment.data s ++ body). split.
    { rewrite Hc', Hc1, <- !app_assoc. reflexivity. }
    intros post. destruct (Hload post) as (loaded & Hl & Hm & Hf).
    exists (ImageSegment.init (ImageSegment.addr s) (ImageSegment.data s)
              (Some (position f)) :: loaded).
    split; [|split].
    + cbn [length load_segments].
      assert (Hfirst :
        load_segment (mk_file (contents f' ++ post) (position f)) =
        Returned (ImageSegment.init (ImageSegment.addr s) (ImageSegment.data s)
                    (Some (position f)),
                  mk_file (contents f' ++ post) (position f1))).
      { unfold at_end in Hend. rewrite Hp1, Hend.
        replace (contents f' ++ post)
          with (contents f ++ header ++ ImageSegment.data s ++ body ++ post)
          by (rewrite Hc', Hc1, <- !app_assoc; reflexivity).
        apply load_segment_at. exact Hpack. }
      rewrite Hfirst. cbn [and_then]. rewrite Hl. reflexivity.
    + cbn [map]. rewrite Hm. reflexivity.
    + intros state. cbn [fold_left map concat].
      rewrite Hf. cbn [ImageSegment.init ImageSegment.include_in_checksum].
      rewrite checksum_app.
      f_equal. apply (checksum_init (ImageSegment.addr s) (ImageSegment.data s)
                        (Some (position f))).
Qed.

Lemma common_header_written
    (self : firmware_image) (segs : list ImageSegment.t) (f0 : file) :
  BaseFirmwareImage.write_common_header self new_file segs = Ok f0 ->
  exists header,
    contents f0 = header /\ at_end f0 /\ len header = 8 /\
    unpack_BBBBI header =
      Ok (ESPLoader.ESP_IMAGE_MAGIC, Z.of_nat (length segs),
          flash_mode self, flash_size_freq self, entrypoint self).
Proof.
  unfold BaseFirmwareImage.write_common_header.
  destruct (pack_B ESPLoader.ESP_IMAGE_MAGIC) as [m|] eqn:Hm; cbn [bind]; [|discriminate].
  destruct (pack_B (Z.of_nat (length segs))) as [c|] eqn:Hc; cbn [bind]; [|discriminate].
  destruct (pack_B (flash_mode self)) as [fm|] eqn:Hfm; cbn [bind]; [|discriminate].
  destruct (pack_B (flash_size_freq self)) as [sf|] eqn:Hsf; cbn [bind]; [|discriminate].
  destruct (pack_I (entrypoint self)) as [e|] eqn:He; cbn [bind]; [|discriminate].
  intros H. assert (Hf0 : f0 = write new_file (m ++ c ++ fm ++ sf ++ e)) by congruence.
  clear H. subst f0.
  destruct (write_at_end new_file (m ++ c ++ fm ++ sf ++ e) eq_refl) as [Hcont Hend].
  exists (m ++ c ++ fm ++ sf ++ e).
  split; [exact Hcont|]. split; [exact Hend|].
  apply pack_B_value in Hm. destruct Hm as [Hm ->].
  apply pack_B_value in Hc. destruct Hc as [Hc ->].
  apply pack_B_value in Hfm. destruct Hfm as [Hfm ->].
  apply pack_B_value in Hsf. destruct Hsf as [Hsf ->].
  apply pack_I_value in He. destruct He as (He & Hle & Hve).
  apply (len_is 4) in Hle.
  destruct e as [|e0 [|e1 [|e2 [|e3 [|]]]]]; try discriminate.
  split; [reflexivity|].
  cbn [app unpack_BBBBI]. rewrite !ord_chr by assumption. rewrite Hve. reflexivity.
Qed.

Lemma load_after_save
    (self : firmware_image) (irom : option (Z * bytes)) (out : bytes)
    (normal : list ImageSegment.t) :
  elf_sha256_offset self < BaseFirmwareImage.SEG_HEADER_LEN ->
  ESP8266ROMFirmwareImage.save self = Ok (irom, out) ->
  BaseFirmwareImage.get_non_irom_segments self = Ok normal ->
  exists loaded checksum rest,
    load_common_header (mk_file out 0) ESPLoader.ESP_IMAGE_MAGIC =
      Returned (Z.of_nat (length normal), flash_mode self, flash_size_freq self,
                entrypoint self, mk_file out 8) /\
    load_segments (length normal) (mk_file out 8) = Returned (loaded, rest) /\
    read_checksum rest = Returned (checksum, mk_file out (len out)) /\
    length loaded = length normal /\
    map loaded_at loaded =
      map (fun s => loaded_at (ImageSegment.init (ImageSegment.addr s)
                                 (ImageSegment.data s) None)) normal /\
    checksum = calculate_checksum loaded /\
    checksum = ESPLoader.checksum (concat (map ImageSegment.data normal))
                 ESPLoader.ESP_CHECKSUM_MAGIC /\
    len out mod 16 = 0.
Proof.
  intros Ho Hsave Hnormal.
  unfold ESP8266ROMFirmwareImage.save in Hsave.
  destruct (BaseFirmwareImage.get_irom_segment self) as [irom_segment|];
    cbn [bind] in Hsave; [|discriminate].
  rewrite Hnormal in Hsave. cbn [bind] in Hsave.
  destruct (BaseFirmwareImage.write_common_header self new_file normal)
    as [f0|] eqn:Hhead; cbn [bind] in Hsave; [|discriminate].
  destruct (ESP8266ROMFirmwareImage.save_segments self f0 normal
              ESPLoader.ESP_CHECKSUM_MAGIC) as [[f1 ck]|] eqn:Hsegs;
    cbn [bind] in Hsave; [|discriminate].
  destruct (BaseFirmwareImage.append_checksum f1 ck) as [f2|] eqn:Happ;
    cbn [bind] in Hsave; [|discriminate].
  assert (Hout : out = contents f2) by congruence. clear Hsave.
  destruct (common_header_written _ _ _ Hhead) as (header & Hc0 & He0 & Hl0 & Hu0).
  assert (Hp0 : position f0 = 8).
  { unfold at_end in He0. rewrite He0, Hc0. exact Hl0. }
  assert (Hp0' : BaseFirmwareImage.SEG_HEADER_LEN <= position f0).
  { rewrite Hp0. unfold BaseFirmwareImage.SEG_HEADER_LEN. lia. }
  destruct (load_segments_after_save self Ho _ _ _ _ _ Hp0' He0 Hsegs)
    as (He1 & Hck & body & Hc1 & Hload).
  destruct (read_checksum_after_append _ _ _ He1 Happ) as (Hread & (k & Hk & Hc2) & Hmod).
  destruct (Hload (zeros k ++ [chr ck])) as (loaded & Hl & Hm & Hf).
  rewrite <- Hc2, <- Hout, Hp0 in Hl.
  exists loaded, ck, (mk_file out (position f1)).
  split.
  { unfold load_common_header.
    assert (Hr : read (mk_file out 0) 8 = (header, mk_file out 8)).
    { rewrite Hout, Hc2, Hc1, Hc0, <- app_assoc, <- Hl0.
      apply (read_at [] header (body ++ zeros k ++ [chr ck])). }
    rewrite Hr. cbv beta iota. rewrite Hu0. cbn [lift and_then].
    rewrite Z.eqb_refl. reflexivity. }
  split; [exact Hl|].
  split; [rewrite Hout; exact Hread|].
  split.
  { rewrite <- (length_map loaded_at loaded), Hm, length_map. reflexivity. }
  split; [exact Hm|].
  split; [unfold calculate_checksum; rewrite Hf; exact Hck|].
  split; [exact Hck|].
  rewrite Hout. exact Hmod.
Qed.

(** An image written by [ESP8266ROMFirmwareImage.save] with no digest
    to patch in loads back: the loader returns the entry point and the
    two flash bytes of the saved image, its segments outside IROM in
    their order, each at its address with its data as the constructor
    of a segment pads it, and as [checksum] the byte that
    [calculate_checksum] gives for the loaded segments.  That holds for
    up to 16 segments; an image saved with more is refused by the
    loader for its segment count. *)
Theorem v1_image_loads_as_saved :
  forall (self : firmware_image) (irom : option (Z * bytes)) (out : bytes)
         (normal : list ImageSegment.t),
    elf_sha256_offset self = 0 ->
    ESP8266ROMFirmwareImage.save self = Ok (irom, out) ->
    BaseFirmwareImage.get_non_irom_segments self = Ok normal ->
    if Z.of_nat (length normal) >? 16
    then ESP8266ROMFirmwareImage_load (mk_file out 0) =
         Failed (InvalidSegmentCount (Z.of_nat (length normal)))
    else exists (image : firmware_image) (checksum : Z),
        ESP8266ROMFirmwareImage_load (mk_file out 0) = Returned (image, checksum) /\
        entrypoint image = entrypoint self /\
        flash_mode image = flash_mode self /\
        flash_size_freq image = flash_size_freq self /\
        map loaded_at (segments image) =
          map (fun s => loaded_at (ImageSegment.init (ImageSegment.addr s)
                                     (ImageSegment.data s) None)) normal /\
        checksum = calculate_checksum (segments image) /\
        checksum = ESPLoader.checksum (concat (map ImageSegment.data normal))
                     ESPLoader.ESP_CHECKSUM_MAGIC.
Proof.
  intros self irom out normal Ho Hsave Hnormal.
  assert (Ho' : elf_sha256_offset self < BaseFirmwareImage.SEG_HEADER_LEN).
  { rewrite Ho. reflexivity. }
  destruct (load_after_save _ _ _ _ Ho' Hsave Hnormal)
    as (loaded & ck & rest & Hhead & Hsegs & Hread & Hlen & Hm & Hck & Hck' & _).
  unfold ESP8266ROMFirmwareImage_load.
  rewrite Hhead. cbn [and_then]. rewrite Nat2Z.id, Hsegs. cbn [and_then].
  rewrite Hread. cbn [and_then]. unfold verify. rewrite Hlen.
  destruct (Z.of_nat (length normal) >? 16); cbn [and_then]; [reflexivity|].
  eexists _, ck. split; [reflexivity|].
  cbn [ESP8266ROMFirmwareImage.init entrypoint flash_mode flash_size_freq segments].
  repeat split; assumption.
Qed.

Lemma v1_image_loads_as_saved_witness :
  exists (image : firmware_image) (checksum : Z),
    ESP8266ROMFirmwareImage_load
      (mk_file ([xe9; x02; x02; x20; x04; x00; x10; x40;
                 x00; x00; x10; x40; x04; x00; x00; x00; x01; x02; x03; x00;
                 x00; x80; xfe; x3f; x08; x00; x00; x00;
                 x05; x06; x07; x08; x09; x0a; x0b; x0c]
                ++ zeros 11 ++ [xe7]) 0) = Returned (image, checksum) /\
    entrypoint image = 0x40100004 /\
    flash_mode image = 0x02 /\
    flash_size_freq image = 0x20 /\
    map loaded_at (segments image) =
      [(0x40100000, [x01; x02; x03; x00]);
       (0x3ffe8000, [x05; x06; x07; x08; x09; x0a; x0b; x0c])] /\
    checksum = calculate_checksum (segments image) /\
    checksum = 0xE7.
Proof.
  exact (v1_image_loads_as_saved three_segment_image
           (Some (0x10000, [xaa; xbb; xcc; xdd]))
           ([xe9; x02; x02; x20; x04; x00; x10; x40;
             x00; x00; x10; x40; x04; x00; x00; x00; x01; x02; x03; x00;
             x00; x80; xfe; x3f; x08; x00; x00; x00;
             x05; x06; x07; x08; x09; x0a; x0b; x0c]
            ++ zeros 11 ++ [xe7])
           [ImageSegment.init 0x40100000 [x01; x02; x03] None;
            ImageSegment.init 0x3ffe8000
              [x05; x06; x07; x08; x09; x0a; x0b; x0c] None]
           eq_refl eq_refl eq_refl).
Defined.

(** ** Loading a file that was cut short *)

Lemma read_from (pre rest : bytes) (k : Z) :
  read (mk_file (pre ++ rest) (len pre)) k =
  (firstn (Z.to_nat k) rest,
   mk_file (pre ++ rest) (len pre + len (firstn (Z.to_nat k) rest))).
Proof.
  unfold read. cbn [contents position].
  assert (Hskip : skipn (Z.to_nat (len pre)) (pre ++ rest) = rest).
  { unfold len. rewrite Nat2Z.id, skipn_app, skipn_all, Nat.sub_diag. reflexivity. }
  rewrite Hskip. reflexivity.
Qed.








(** ** The padding for secure boot *)

Lemma len_zeros (n : Z) : 0 <= n -> len (zeros n) = n.
Proof. intros Hn. unfold len, zeros. rewrite repeat_length. lia. Qed.

Lemma tell_write (f : file) (d : bytes) : tell (write f d) = tell f + len d.
Proof.
  unfold tell, write. destruct d as [|b d]; [|reflexivity].
  change (len []) with 0. lia.
Qed.

Lemma tell_save_segment
    (self : firmware_image) (f f' : file) (seg : ImageSegment.t) (ck ck' : Z) :
  BaseFirmwareImage.save_segment self f seg ck = Ok (f', ck') ->
  tell f' = tell f + 8 + len (ImageSegment.data seg).
Proof.
  unfold BaseFirmwareImage.save_segment.
  destruct (BaseFirmwareImage.maybe_patch_segment_data self f (ImageSegment.data seg))
    as [d|] eqn:Hpatch; cbn [bind]; [|discriminate].
  destruct (pack_II (ImageSegment.addr seg) (len d)) as [h|] eqn:Hpack;
    cbn [bind]; [|discriminate].
  intros H. assert (Hf : f' = write (write f h) d) by congruence. subst f'.
  rewrite !tell_write, (pack_II_len _ _ _ Hpack), (maybe_patch_len _ _ _ _ Hpatch).
  reflexivity.
Qed.

(** With [secure_pad] set, the padding segment that [save] writes last
    is of such a length that, once the checksum byte is appended, the
    position of the file is exactly [space_after_checksum] bytes before
    a 64KB boundary: the assertion that [save] makes on the image
    length holds wherever the file was before.  One segment is counted
    for the padding, and the digest has to be asked for. *)
Theorem secure_pad_ends_before_boundary :
  forall (self : firmware_image) (v : secure_pad_version)
         (f f1 f2 : file) (checksum checksum1 total_segments total_segments1 : Z),
    secure_pad self = Some v ->
    ESP32FirmwareImage.secure_padding self f checksum total_segments =
      Ok (f1, checksum1, total_segments1) ->
    BaseFirmwareImage.append_checksum f1 checksum1 = Ok f2 ->
    (tell f2 + ESP32FirmwareImage.space_after_checksum v)
      mod ESP32FirmwareImage.IROM_ALIGN = 0 /\
    total_segments1 = total_segments + 1 /\
    append_digest self = true.
Proof.
  intros self v f f1 f2 ck ck1 tot tot1 Hv Hpad Happ.
  unfold ESP32FirmwareImage.secure_padding in Hpad. rewrite Hv in Hpad.
  destruct (append_digest self); cbn [negb] in Hpad; [|discriminate].
  set (pad_len := (ESP32FirmwareImage.IROM_ALIGN
                   - (tell f + ESP32FirmwareImage.SEG_HEADER_LEN)
                       mod ESP32FirmwareImage.IROM_ALIGN
                   - 16 - ESP32FirmwareImage.space_after_checksum v)
                  mod ESP32FirmwareImage.IROM_ALIGN) in *.
  destruct (BaseFirmwareImage.save_segment self f
              (ImageSegment.init 0 (zeros pad_len) (Some (tell f))) ck)
    as [[g ckg]|] eqn:Hsave; cbn [bind] in Hpad; [|discriminate].
  assert (Hg : g = f1) by congruence.
  assert (Htot : tot1 = tot + 1) by congruence.
  subst g. clear Hpad.
  pose proof (tell_save_segment _ _ _ _ _ _ Hsave) as Ht1.
  assert (Hpos : 0 <= pad_len < 65536).
  { apply Z.mod_pos_bound. reflexivity. }
  change (ImageSegment.data (ImageSegment.init 0 (zeros pad_len) (Some (tell f))))
    with (zeros pad_len) in Ht1.
  rewrite len_zeros in Ht1 by lia.
  assert (Ht2 : tell f2 = tell f1 + 16 - tell f1 mod 16).
  { unfold BaseFirmwareImage.append_checksum in Happ.
    destruct (pack_B ck1) as [b|] eqn:Hb; cbn [bind] in Happ; [|discriminate].
    assert (Hf2 : f2 = write (align_file_position f1 16) b) by congruence.
    rewrite Hf2, tell_write, (pack_B_len _ _ Hb).
    unfold align_file_position, seek_cur, tell. cbn [position]. lia. }
  split; [|split; [exact Htot|reflexivity]].
  rewrite Ht2, Ht1. clear - Hpos.
  subst pad_len. revert Hpos.
  unfold ESP32FirmwareImage.IROM_ALIGN, ESP32FirmwareImage.SEG_HEADER_LEN,
    BaseFirmwareImage.SEG_HEADER_LEN.
  generalize (tell f). intros t.
  destruct v; unfold ESP32FirmwareImage.space_after_checksum;
    intros Hpos; Z.div_mod_to_equations; lia.
Qed.

Lemma secure_pad_ends_before_boundary_witness :
  (tell (write (align_file_position
                  (write (write sought_to_65476
                            [x00; x00; x00; x00; x04; x00; x00; x00])
                     (zeros 4)) 16) [xef])
   + ESP32FirmwareImage.space_after_checksum SecurePad2)
    mod ESP32FirmwareImage.IROM_ALIGN = 0 /\
  1 = 0 + 1 /\
  append_digest secure_image = true.
Proof.
  apply (secure_pad_ends_before_boundary secure_image SecurePad2 sought_to_65476
           (write (write sought_to_65476 [x00; x00; x00; x00; x04; x00; x00; x00])
              (zeros 4))
           (write (align_file_position
                     (write (write sought_to_65476
                               [x00; x00; x00; x00; x04; x00; x00; x00])
                        (zeros 4)) 16) [xef])
           0xEF 0xEF 0 1).
  - reflexivity.
  - reflexivity.
  - reflexivity.
Defined.

(** ** The extended header *)

Lemma land_15 (x : Z) : Z.land x 0x0F = x mod 16.
Proof. change 0x0F with (Z.ones 4). rewrite Z.land_ones by lia. reflexivity. Qed.

Lemma split_join (ln hn : Z) :
  split_byte (ESP32FirmwareImage.join_byte ln hn) = (Z.land ln 0x0F, Z.land hn 0x0F).
Proof.
  unfold split_byte, ESP32FirmwareImage.join_byte.
  rewrite Z.shiftl_mul_pow2, Z.shiftr_div_pow2 by lia.
  rewrite !land_15. change (2 ^ 4) with 16.
  pose proof (Z.mod_pos_bound ln 16 ltac:(lia)).
  pose proof (Z.mod_pos_bound hn 16 ltac:(lia)).
  f_equal; Z.div_mod_to_equations; lia.
Qed.

Lemma join_byte_range (ln hn : Z) : 0 <= ESP32FirmwareImage.join_byte ln hn < 0x100.
Proof.
  unfold ESP32FirmwareImage.join_byte.
  rewrite Z.shiftl_mul_pow2 by lia. rewrite !land_15. change (2 ^ 4) with 16.
  pose proof (Z.mod_pos_bound ln 16 ltac:(lia)).
  pose proof (Z.mod_pos_bound hn 16 ltac:(lia)). lia.
Qed.

Lemma pack_Bs_value (vs : list Z) :
  forall b, pack_Bs vs = Ok b ->
            b = map chr vs /\ Forall (fun v => 0 <= v < 0x100) vs.
Proof.
  induction vs as [|v vs IH]; intros b; cbn [pack_Bs].
  - intros H. split; [|constructor].
    assert (Hb : @nil byte = b) by congruence. rewrite <- Hb. reflexivity.
  - destruct (pack_B v) as [x|] eqn:Hx; cbn [bind]; [|discriminate].
    destruct (pack_Bs vs) as [y|] eqn:Hy; cbn [bind]; [|discriminate].
    intros H. apply pack_B_value in Hx. destruct Hx as [Hv ->].
    destruct (IH y eq_refl) as [-> Hall].
    split; [|constructor; assumption].
    assert (Hb : b = [chr v] ++ map chr vs) by congruence.
    rewrite Hb. reflexivity.
Qed.

Lemma extended_header_loads
    (rom : rom_loader) (self : firmware_image) (f f' : file) :
  at_end f ->
  ESP32FirmwareImage.save_extended_header rom self f = Ok f' ->
  at_end f' /\
  position f' = position f + 16 /\
  exists header,
    len header = 16 /\ contents f' = contents f ++ header /\
    forall (other : firmware_image) (pre post : bytes),
      load_extended_header other (mk_file (pre ++ header ++ post) (len pre)) =
        Returned
          ({| segments := segments other; entrypoint := entrypoint other;
              elf_sha256 := elf_sha256 other;
              elf_sha256_offset := elf_sha256_offset other;
              flash_mode := flash_mode other;
              flash_size_freq := flash_size_freq other;
              secure_pad := secure_pad other; wp_pin := wp_pin self;
              clk_drv := Z.land (clk_drv self) 0x0F;
              q_drv := Z.land (q_drv self) 0x0F;
              d_drv := Z.land (d_drv self) 0x0F;
              cs_drv := Z.land (cs_drv self) 0x0F;
              hd_drv := Z.land (hd_drv self) 0x0F;
              wp_drv := Z.land (wp_drv self) 0x0F;
              min_rev := min_rev other;
              append_digest := append_digest self |},
           mk_file (pre ++ header ++ post) (len pre + 16)).
Proof.
  intros Hend Hsave. unfold ESP32FirmwareImage.save_extended_header in Hsave.
  destruct (pack_Bs [wp_pin self;
                     ESP32FirmwareImage.join_byte (clk_drv self) (q_drv self);
                     ESP32FirmwareImage.join_byte (d_drv self) (cs_drv self);
                     ESP32FirmwareImage.join_byte (hd_drv self) (wp_drv self)])
    as [head|] eqn:Hhead; cbn [bind] in Hsave; [|discriminate].
  destruct (pack_H (IMAGE_CHIP_ID rom)) as [chip|] eqn:Hchip;
    cbn [bind] in Hsave; [|discriminate].
  destruct (pack_Bs ([min_rev self] ++ repeat 0 8 ++
                     [if append_digest self then 1 else 0]))
    as [tail|] eqn:Htail; cbn [bind] in Hsave; [|discriminate].
  assert (Hf' : f' = write f (head ++ chip ++ tail)) by congruence. clear Hsave.
  apply pack_Bs_value in Hhead. destruct Hhead as [-> Hwp].
  apply Forall_inv in Hwp.
  apply pack_Bs_value in Htail. destruct Htail as [-> _].
  apply pack_H_value in Hchip. destruct Hchip as (_ & Hlc & _).
  apply (len_is 2) in Hlc.
  destruct chip as [|c0 [|c1 [|]]]; try discriminate. clear Hlc.
  cbn [map app repeat] in Hf'.
  match type of Hf' with
  | _ = write _ ?h => set (header := h) in *
  end.
  destruct (write_at_end f header Hend) as [Hc He]. rewrite <- Hf' in Hc, He.
  assert (Hlh : len header = 16) by reflexivity.
  assert (Hp : position f' = position f + 16).
  { unfold at_end in Hend, He. rewrite He, Hc, len_app, Hlh, Hend. reflexivity. }
  split; [exact He|]. split; [exact Hp|].
  exists header. split; [exact Hlh|]. split; [exact Hc|].
  intros other pre post.
  unfold load_extended_header.
  assert (Hread : read (mk_file (pre ++ header ++ post) (len pre)) 16 =
                  (header, mk_file (pre ++ header ++ post) (len pre + 16))).
  { rewrite <- Hlh. apply read_at. }
  rewrite Hread. cbv beta iota.
  subst header. cbn [unpack_extended_header lift and_then map app].
  rewrite !ord_chr
    by first [apply join_byte_range | exact Hwp | destruct (append_digest self); lia].
  rewrite !split_join.
  destruct (append_digest self); reflexivity.
Qed.

(** The extended header that [save_extended_header] writes is read back
    by [load_extended_header] with the write-protect pin, the low four
    bits of each of the six drive strengths and the digest flag of the
    image saved.  The minimum chip revision, though written, is not
    read back: the loading image keeps its own. *)
Theorem extended_header_round_trip :
  forall (rom : rom_loader) (self other : firmware_image) (f f' : file),
    at_end f ->
    ESP32FirmwareImage.save_extended_header rom self f = Ok f' ->
    exists loaded,
      load_extended_header other (mk_file (contents f') (position f)) =
        Returned (loaded, mk_file (contents f') (position f')) /\
      position f' = position f + 16 /\
      wp_pin loaded = wp_pin self /\
      (clk_drv loaded, q_drv loaded) =
        (Z.land (clk_drv self) 0x0F, Z.land (q_drv self) 0x0F) /\
      (d_drv loaded, cs_drv loaded) =
        (Z.land (d_drv self) 0x0F, Z.land (cs_drv self) 0x0F) /\
      (hd_drv loaded, wp_drv loaded) =
        (Z.land (hd_drv self) 0x0F, Z.land (wp_drv self) 0x0F) /\
      append_digest loaded = append_digest self /\
      min_rev loaded = min_rev other.
Proof.
  intros rom self other f f' Hend Hsave.
  destruct (extended_header_loads rom self f f' Hend Hsave)
    as (_ & Hp & header & _ & Hc & Hload).
  specialize (Hload other (contents f) []).
  rewrite app_nil_r, <- Hc in Hload.
  unfold at_end in Hend. rewrite <- Hend, <- Hp in Hload.
  eexists. split; [exact Hload|]. split; [exact Hp|].
  cbn [wp_pin clk_drv q_drv d_drv cs_drv hd_drv wp_drv append_digest min_rev].
  repeat split.
Qed.

Lemma extended_header_round_trip_witness :
  exists loaded,
    load_extended_header (ESP32FirmwareImage.init [] 0 0 0)
      (mk_file (zeros 8 ++ [xee; x23; x43; x65; x00; x00; x03; x00; x00; x00;
                            x00; x00; x00; x00; x00; x00]) 8) =
      Returned (loaded,
                mk_file (zeros 8 ++ [xee; x23; x43; x65; x00; x00; x03; x00; x00;
                                     x00; x00; x00; x00; x00; x00; x00]) 24) /\
    24 = 8 + 16 /\
    wp_pin loaded = 0xEE /\
    (clk_drv loaded, q_drv loaded) = (3, 2) /\
    (d_drv loaded, cs_drv loaded) = (3, 4) /\
    (hd_drv loaded, wp_drv loaded) = (5, 6) /\
    append_digest loaded = false /\
    min_rev loaded = 0.
Proof.
  exact (extended_header_round_trip ESP32ROM driven_image
           (ESP32FirmwareImage.init [] 0 0 0)
           (mk_file (zeros 8) 8)
           (mk_file (zeros 8 ++ [xee; x23; x43; x65; x00; x00; x03; x00; x00;
                                 x00; x00; x00; x00; x00; x00; x00]) 24)
           eq_refl eq_refl).
Defined.

(** ** What [save] of the ESP32 family writes, segment by segment *)

Lemma holds_segments_app (written more : list (Z * bytes)) :
  forall body tail,
    holds_segments body written ->
    holds_segments tail more ->
    holds_segments (body ++ tail) (written ++ more).
Proof.
  induction written as [|[a d] written IH]; intros body tail Hb Ht.
  - cbn [holds_segments] in Hb. subst body. exact Ht.
  - cbn [holds_segments app] in *.
    destruct Hb as (header & rest & Hpack & Hbody & Hrest).
    exists header, (rest ++ tail). split; [exact Hpack|]. split.
    + rewrite Hbody, <- !app_assoc. reflexivity.
    + apply IH; assumption.
Qed.

Lemma wrote_nothing (f : file) (ck : Z) : at_end f -> wrote f f [] ck ck.
Proof.
  intros Hend. split; [exact Hend|]. split; [|reflexivity].
  exists []. split; [symmetry; apply app_nil_r|reflexivity].
Qed.

Lemma wrote_more (f0 f1 f2 : file) (w1 w2 : list (Z * bytes)) (ck0 ck1 ck2 : Z) :
  wrote f0 f1 w1 ck0 ck1 -> wrote f1 f2 w2 ck1 ck2 ->
  wrote f0 f2 (w1 ++ w2) ck0 ck2.
Proof.
  intros (_ & (b1 & Hc1 & Hh1) & Hk1) (He2 & (b2 & Hc2 & Hh2) & Hk2).
  split; [exact He2|]. split.
  - exists (b1 ++ b2). split.
    + rewrite Hc2, Hc1, <- app_assoc. reflexivity.
    + apply holds_segments_app; assumption.
  - rewrite Hk2, Hk1, map_app, concat_app, checksum_app. reflexivity.
Qed.

Lemma save_segment_wrote
    (self : firmware_image) (f f' : file) (seg : ImageSegment.t) (ck ck' : Z) :
  at_end f ->
  BaseFirmwareImage.save_segment self f seg ck = Ok (f', ck') ->
  exists d, wrote f f' [(ImageSegment.addr seg, d)] ck ck'.
Proof.
  intros Hend Hsave.
  destruct (save_segment_at_end _ _ _ _ _ _ Hend Hsave)
    as (header & d & Hpatch & Hpack & Hc & He & _).
  exists d. split; [exact He|]. split.
  - exists (header ++ d). split; [exact Hc|].
    cbn [holds_segments]. exists header, []. split; [exact Hpack|].
    split; [rewrite app_nil_r; reflexivity|reflexivity].
  - unfold BaseFirmwareImage.save_segment in Hsave.
    rewrite Hpatch in Hsave. cbn [bind] in Hsave.
    rewrite Hpack in Hsave. cbn [bind] in Hsave.
    cbn [map snd concat]. rewrite app_nil_r. congruence.
Qed.

Lemma loop_body_wrote
    (self : firmware_image) (f f' : file) (seg : ImageSegment.t)
    (rest ram flash' ram' : list ImageSegment.t) (ck tot ck' tot' : Z) :
  at_end f ->
  ESP32FirmwareImage.loop_body self f seg rest ram ck tot =
    Ok (f', flash', ram', ck', tot') ->
  exists w, wrote f f' w ck ck' /\ tot' = tot + Z.of_nat (length w).
Proof.
  intros Hend. unfold ESP32FirmwareImage.loop_body.
  destruct (ESP32FirmwareImage.get_alignment_data_needed f seg >? 0).
  - destruct (ESP32FirmwareImage.take_pad_segment _ _ _) as [pad ram1].
    destruct (BaseFirmwareImage.save_segment self f pad ck) as [[f1 ck1]|] eqn:Hsave;
      cbn [bind]; [|discriminate].
    intros H.
    assert (Hf : f1 = f') by congruence. assert (Hk : ck1 = ck') by congruence.
    assert (Ht : tot' = tot + 1) by congruence. subst f1 ck1.
    destruct (save_segment_wrote _ _ _ _ _ _ Hend Hsave) as (d & Hw).
    eexists. split; [exact Hw|exact Ht].
  - destruct (_ =? _); [|discriminate].
    unfold ESP32FirmwareImage.save_flash_segment.
    match goal with
    | |- context [BaseFirmwareImage.save_segment self f ?s ck] =>
        destruct (BaseFirmwareImage.save_segment self f s ck) as [[f1 ck1]|] eqn:Hsave
    end; cbn [bind]; [|discriminate].
    intros H.
    assert (Hf : f1 = f') by congruence. assert (Hk : ck1 = ck') by congruence.
    assert (Ht : tot' = tot + 1) by congruence. subst f1 ck1.
    destruct (save_segment_wrote _ _ _ _ _ _ Hend Hsave) as (d & Hw).
    eexists. split; [exact Hw|exact Ht].
Qed.

Lemma flash_loop_wrote (self : firmware_image) (fuel : nat) :
  forall (f f' : file) (flash ram ram' : list ImageSegment.t) (ck tot ck' tot' : Z),
    at_end f ->
    ESP32FirmwareImage.flash_loop fuel self f flash ram ck tot =
      Ok (f', ram', ck', tot') ->
    exists w, wrote f f' w ck ck' /\ tot' = tot + Z.of_nat (length w).
Proof.
  induction fuel as [|fuel IH]; intros f f' flash ram ram' ck tot ck' tot' Hend;
    destruct flash as [|seg rest]; cbn [ESP32FirmwareImage.flash_loop].
  - intros H. assert (f = f') by congruence. assert (ck = ck') by congruence.
    assert (tot = tot') by congruence. subst.
    exists []. split; [apply wrote_nothing; exact Hend|cbn [length]; lia].
  - discriminate.
  - intros H. assert (f = f') by congruence. assert (ck = ck') by congruence.
    assert (tot = tot') by congruence. subst.
    exists []. split; [apply wrote_nothing; exact Hend|cbn [length]; lia].
  - destruct (ESP32FirmwareImage.loop_body _ _ _ _ _ _ _)
      as [[[[[f1 flash1] ram1] ck1] tot1]|] eqn:Hbody; cbn [bind]; [|discriminate].
    intros Hloop.
    destruct (loop_body_wrote _ _ _ _ _ _ _ _ _ _ _ _ Hend Hbody) as (w1 & Hw1 & Ht1).
    destruct (IH _ _ _ _ _ _ _ _ _ (proj1 Hw1) Hloop) as (w2 & Hw2 & Ht2).
    exists (w1 ++ w2). split; [eapply wrote_more; eassumption|].
    rewrite length_app. lia.
Qed.

Lemma ram_loop_wrote (self : firmware_image) (ram : list ImageSegment.t) :
  forall (f f' : file) (ck tot ck' tot' : Z),
    at_end f ->
    ESP32FirmwareImage.ram_loop self f ram ck tot = Ok (f', ck', tot') ->
    exists w, wrote f f' w ck ck' /\ tot' = tot + Z.of_nat (length w).
Proof.
  induction ram as [|seg ram IH]; intros f f' ck tot ck' tot' Hend;
    cbn [ESP32FirmwareImage.ram_loop].
  - intros H. assert (f = f') by congruence. assert (ck = ck') by congruence.
    assert (tot = tot') by congruence. subst.
    exists []. split; [apply wrote_nothing; exact Hend|cbn [length]; lia].
  - destruct (BaseFirmwareImage.save_segment _ _ _ _) as [[f1 ck1]|] eqn:Hsave;
      cbn [bind]; [|discriminate].
    intros Hloop.
    destruct (save_segment_wrote _ _ _ _ _ _ Hend Hsave) as (d & Hw1).
    destruct (IH _ _ _ _ _ _ (proj1 Hw1) Hloop) as (w2 & Hw2 & Ht2).
    eexists. split; [eapply wrote_more; eassumption|].
    rewrite length_app. cbn [length]. lia.
Qed.

Lemma secure_padding_wrote
    (self : firmware_image) (f f' : file) (ck tot ck' tot' : Z) :
  at_end f ->
  ESP32FirmwareImage.secure_padding self f ck tot = Ok (f', ck', tot') ->
  exists w, wrote f f' w ck ck' /\ tot' = tot + Z.of_nat (length w).
Proof.
  intros Hend. unfold ESP32FirmwareImage.secure_padding.
  destruct (secure_pad self) as [v|].
  - destruct (negb _); [discriminate|].
    destruct (BaseFirmwareImage.save_segment _ _ _ _) as [[f1 ck1]|] eqn:Hsave;
      cbn [bind]; [|discriminate].
    intros H.
    assert (Hf : f1 = f') by congruence. assert (Hk : ck1 = ck') by congruence.
    assert (Ht : tot' = tot + 1) by congruence. subst f1 ck1.
    destruct (save_segment_wrote _ _ _ _ _ _ Hend Hsave) as (d & Hw).
    eexists. split; [exact Hw|exact Ht].
  - intros H. assert (f = f') by congruence. assert (ck = ck') by congruence.
    assert (tot = tot') by congruence. subst.
    exists []. split; [apply wrote_nothing; exact Hend|cbn [length]; lia].
Qed.

Lemma load_holds (written : list (Z * bytes)) :
  forall (body pre post : bytes),
    holds_segments body written ->
    exists loaded,
      load_segments (length written) (mk_file (pre ++ body ++ post) (len pre)) =
        Returned (loaded, mk_file (pre ++ body ++ post) (len pre + len body)) /\
      map loaded_at loaded =
        map (fun w => loaded_at (ImageSegment.init (fst w) (snd w) None)) written /\
      forall state,
        fold_left
          (fun checksum seg =>
             if ImageSegment.include_in_checksum seg
             then ESPLoader.checksum (ImageSegment.data seg) checksum
             else checksum) loaded state =
        ESPLoader.checksum (concat (map snd written)) state.
Proof.
  induction written as [|[a d] written IH]; intros body pre post Hb.
  - cbn [holds_segments] in Hb. subst body.
    exists []. split; [|split; [reflexivity|intros; reflexivity]].
    cbn [length load_segments app]. change (len []) with 0.
    rewrite Z.add_0_r. reflexivity.
  - cbn [holds_segments] in Hb.
    destruct Hb as (header & tail & Hpack & Hbody & Htail).
    pose proof (pack_II_len _ _ _ Hpack) as Hlh.
    destruct (IH tail (pre ++ header ++ d) post Htail) as (loaded & Hl & Hm & Hf).
    assert (Hall : pre ++ body ++ post = pre ++ header ++ d ++ tail ++ post).
    { rewrite Hbody, <- !app_assoc. reflexivity. }
    assert (Hall' : (pre ++ header ++ d) ++ tail ++ post = pre ++ body ++ post).
    { rewrite Hall, <- !app_assoc. reflexivity. }
    rewrite Hall' in Hl.
    assert (Hpos : len (pre ++ header ++ d) = len pre + 8 + len d).
    { rewrite !len_app, Hlh. lia. }
    rewrite Hpos in Hl.
    exists (ImageSegment.init a d (Some (len pre)) :: loaded).
    split; [|split].
    + cbn [length load_segments].
      assert (Hfirst : load_segment (mk_file (pre ++ body ++ post) (len pre)) =
                       Returned (ImageSegment.init a d (Some (len pre)),
                                 mk_file (pre ++ body ++ post) (len pre + 8 + len d))).
      { rewrite Hall. apply load_segment_at. exact Hpack. }
      rewrite Hfirst. cbn [and_then]. rewrite Hl. cbn [and_then].
      do 3 f_equal. rewrite Hbody, !len_app, Hlh. lia.
    + cbn [map fst snd]. rewrite Hm. reflexivity.
    + intros state. cbn [fold_left map concat snd].
      rewrite Hf. cbn [ImageSegment.init ImageSegment.include_in_checksum].
      rewrite checksum_app. f_equal.
      apply (checksum_init a d (Some (len pre))).
Qed.

Lemma read_checksum_at (pre post : bytes) (c : byte) :
  read_checksum
    (mk_file (pre ++ zeros (15 - len pre mod 16) ++ [c] ++ post) (len pre)) =
  Returned (ord c,
            mk_file (pre ++ zeros (15 - len pre mod 16) ++ [c] ++ post)
              (len pre + (15 - len pre mod 16) + 1)).
Proof.
  pose proof (Z.mod_pos_bound (len pre) 16 ltac:(lia)) as Hm.
  set (gap := 15 - len pre mod 16) in *.
  unfold read_checksum, align_file_position, seek_cur, tell. cbn [position contents].
  replace (len pre + (16 - 1 - len pre mod 16)) with (len (pre ++ zeros gap))
    by (rewrite len_app, len_zeros by lia; unfold gap; lia).
  replace (pre ++ zeros gap ++ [c] ++ post) with ((pre ++ zeros gap) ++ [c] ++ post)
    by (rewrite <- app_assoc; reflexivity).
  change 1 with (len [c]) at 1. rewrite read_at. cbv beta iota.
  rewrite len_app, len_zeros by lia. reflexivity.
Qed.

Lemma common_header_shape
    (self : firmware_image) (segs : list ImageSegment.t) (f0 : file) :
  BaseFirmwareImage.write_common_header self new_file segs = Ok f0 ->
  exists (count : byte) (rest6 : bytes),
    contents f0 = xe9 :: count :: rest6 /\ at_end f0 /\ len rest6 = 6 /\
    forall c : byte,
      unpack_BBBBI (xe9 :: c :: rest6) =
        Ok (ESPLoader.ESP_IMAGE_MAGIC, ord c,
            flash_mode self, flash_size_freq self, entrypoint self).
Proof.
  unfold BaseFirmwareImage.write_common_header.
  destruct (pack_B ESPLoader.ESP_IMAGE_MAGIC) as [m|] eqn:Hm; cbn [bind]; [|discriminate].
  destruct (pack_B (Z.of_nat (length segs))) as [c|] eqn:Hc; cbn [bind]; [|discriminate].
  destruct (pack_B (flash_mode self)) as [fm|] eqn:Hfm; cbn [bind]; [|discriminate].
  destruct (pack_B (flash_size_freq self)) as [sf|] eqn:Hsf; cbn [bind]; [|discriminate].
  destruct (pack_I (entrypoint self)) as [e|] eqn:He; cbn [bind]; [|discriminate].
  intros H. assert (Hf0 : f0 = write new_file (m ++ c ++ fm ++ sf ++ e)) by congruence.
  clear H. subst f0.
  destruct (write_at_end new_file (m ++ c ++ fm ++ sf ++ e) eq_refl) as [Hcont Hend].
  apply pack_B_value in Hm. destruct Hm as [Hm ->].
  apply pack_B_value in Hc. destruct Hc as [Hc ->].
  apply pack_B_value in Hfm. destruct Hfm as [Hfm ->].
  apply pack_B_value in Hsf. destruct Hsf as [Hsf ->].
  apply pack_I_value in He. destruct He as (He & Hle & Hve).
  apply (len_is 4) in Hle.
  destruct e as [|e0 [|e1 [|e2 [|e3 [|]]]]]; try discriminate.
  exists (chr (Z.of_nat (length segs))),
    [chr (flash_mode self); chr (flash_size_freq self); e0; e1; e2; e3].
  split; [exact Hcont|]. split; [exact Hend|]. split; [reflexivity|].
  intros c0. cbn [unpack_BBBBI]. rewrite !ord_chr by assumption.
  rewrite Hve. reflexivity.
Qed.

(** The anatomy of an image that [save] wrote: the common header with
    the count of the segments written put in its second byte, the
    extended header, the segments, the zero bytes and the checksum, and
    the digest of all that when it is asked for. *)
Lemma save_anatomy
    (rom : rom_loader) (sha256 : bytes -> bytes) (self : firmware_image) (out : bytes) :
  ESP32FirmwareImage.save rom sha256 self = Ok out ->
  exists (rest6 ext body : bytes) (w : list (Z * bytes)) (ck : Z),
    out =
      ([xe9; chr (Z.of_nat (length w))] ++ rest6 ++ ext ++ body
         ++ zeros (15 - (24 + len body) mod 16) ++ [chr ck])
      ++ (if append_digest self
          then sha256 ([xe9; chr (Z.of_nat (length w))] ++ rest6 ++ ext ++ body
                         ++ zeros (15 - (24 + len body) mod 16) ++ [chr ck])
          else []) /\
    len rest6 = 6 /\
    (forall c : byte,
        unpack_BBBBI (xe9 :: c :: rest6) =
          Ok (ESPLoader.ESP_IMAGE_MAGIC, ord c,
              flash_mode self, flash_size_freq self, entrypoint self)) /\
    len ext = 16 /\
    (forall (other : firmware_image) (pre post : bytes),
        load_extended_header other (mk_file (pre ++ ext ++ post) (len pre)) =
          Returned
            ({| segments := segments other; entrypoint := entrypoint other;
                elf_sha256 := elf_sha256 other;
                elf_sha256_offset := elf_sha256_offset other;
                flash_mode := flash_mode other;
                flash_size_freq := flash_size_freq other;
                secure_pad := secure_pad other; wp_pin := wp_pin self;
                clk_drv := Z.land (clk_drv self) 0x0F;
                q_drv := Z.land (q_drv self) 0x0F;
                d_drv := Z.land (d_drv self) 0x0F;
                cs_drv := Z.land (cs_drv self) 0x0F;
                hd_drv := Z.land (hd_drv self) 0x0F;
                wp_drv := Z.land (wp_drv self) 0x0F;
                min_rev := min_rev other;
                append_digest := append_digest self |},
             mk_file (pre ++ ext ++ post) (len pre + 16))) /\
    holds_segments body w /\
    0 <= Z.of_nat (length w) < 0x100 /\
    ck = ESPLoader.checksum (concat (map snd w)) ESPLoader.ESP_CHECKSUM_MAGIC /\
    0 <= ck < 0x100.
Proof.
  intros Hsave.
  unfold ESP32FirmwareImage.save in Hsave.
  destruct (BaseFirmwareImage.write_common_header _ _ _) as [f0|] eqn:Hh0;
    cbn [bind] in Hsave; [|discriminate].
  destruct (ESP32FirmwareImage.save_extended_header _ _ _) as [f1|] eqn:Hh1;
    cbn [bind] in Hsave; [|discriminate].
  destruct (common_header_shape _ _ _ Hh0) as (count & rest6 & Hc0 & He0 & Hl6 & Hu0).
  destruct (extended_header_loads _ _ _ _ He0 Hh1)
    as (He1 & _ & ext & Hlx & Hc1 & Hext).
  set (flash := filter _ _) in Hsave.
  set (ram := filter (fun s => negb _) _) in Hsave.
  destruct (match flash with [] => Ok tt | _ => _ end) as [[]|];
    cbn [bind] in Hsave; [|discriminate].
  destruct (ESP32FirmwareImage.flash_loop _ _ _ _ _ _ _)
    as [[[[f2 ram2] ck2] tot2]|] eqn:Hloop; cbn [bind] in Hsave; [|discriminate].
  destruct (ESP32FirmwareImage.ram_loop _ _ _ _ _)
    as [[[f3 ck3] tot3]|] eqn:Hram; cbn [bind] in Hsave; [|discriminate].
  destruct (ESP32FirmwareImage.secure_padding _ _ _ _)
    as [[[f4 ck4] tot4]|] eqn:Hpad; cbn [bind] in Hsave; [|discriminate].
  destruct (BaseFirmwareImage.append_checksum _ _) as [f5|] eqn:Hck;
    cbn [bind] in Hsave; [|discriminate].
  destruct (match secure_pad self with None => Ok tt | _ => _ end) as [[]|];
    cbn [bind] in Hsave; [|discriminate].
  destruct (in_range tot4 256) eqn:Hrange; cbn [bind] in Hsave; [|discriminate].
  apply in_range_spec in Hrange.
  destruct (flash_loop_wrote _ _ _ _ _ _ _ _ _ _ _ He1 Hloop) as (w2 & Hw2 & Ht2).
  destruct (ram_loop_wrote _ _ _ _ _ _ _ _ (proj1 Hw2) Hram) as (w3 & Hw3 & Ht3).
  destruct (secure_padding_wrote _ _ _ _ _ _ _ (proj1 Hw3) Hpad) as (w4 & Hw4 & Ht4).
  pose proof (wrote_more _ _ _ _ _ _ _ _ (wrote_more _ _ _ _ _ _ _ _ Hw2 Hw3) Hw4)
    as Hw.
  set (w := (w2 ++ w3) ++ w4) in *.
  assert (Htot : tot4 = Z.of_nat (length w)).
  { subst w. rewrite !length_app. lia. }
  destruct Hw as (He4 & (body & Hc4 & Hbody) & Hck4).
  destruct (append_checksum_at_end _ _ _ He4 Hck) as (Hc5 & He5 & _).
  assert (Hpk : 0 <= ck4 < 0x100).
  { unfold BaseFirmwareImage.append_checksum in Hck.
    destruct (pack_B ck4) as [b|] eqn:Hb; [|discriminate].
    apply pack_B_value in Hb. tauto. }
  assert (Hl4 : len (contents f4) = 24 + len body).
  { rewrite Hc4, Hc1, Hc0, !len_app, Hlx.
    change (len (xe9 :: count :: rest6)) with (Z.of_nat (S (S (length rest6)))).
    unfold len in Hl6 |- *. lia. }
  rewrite Hl4 in Hc5.
  set (gap := 15 - (24 + len body) mod 16) in *.
  assert (Hc5' : contents f5 =
                 [xe9; count] ++ rest6 ++ ext ++ body ++ zeros gap ++ [chr ck4]).
  { rewrite Hc5, Hc4, Hc1, Hc0. cbn [app]. rewrite <- !app_assoc. reflexivity. }
  assert (Hl5 : 2 <= len (contents f5)).
  { rewrite Hc5'. rewrite len_app. change (len [xe9; count]) with 2.
    pose proof (len_nonneg (rest6 ++ ext ++ body ++ zeros gap ++ [chr ck4])). lia. }
  pose proof (write_segment_count f5 (chr tot4) Hl5) as Hc6.
  assert (Hc6' : contents (write (seek f5 1) [chr tot4]) =
                 [xe9; chr tot4] ++ rest6 ++ ext ++ body ++ zeros gap ++ [chr ck4]).
  { rewrite Hc6, Hc5'. reflexivity. }
  assert (Hl6' : len (contents (write (seek f5 1) [chr tot4])) = len (contents f5)).
  { rewrite Hc6. apply len_write_segment_count. exact Hl5. }
  clear Hc6.
  set (f6 := write (seek f5 1) [chr tot4]) in *. clearbody f6.
  exists rest6, ext, body, w, ck4.
  rewrite <- Htot. fold gap.
  split; [|repeat split; try assumption; lia].
  rewrite <- Hc6'.
  destruct (append_digest self).
  - unfold read in Hsave. cbn [seek contents position] in Hsave.
    assert (Himage : firstn (Z.to_nat (tell f5)) (skipn (Z.to_nat 0) (contents f6)) =
                     contents f6).
    { change (Z.to_nat 0) with 0%nat. cbn [skipn].
      unfold tell. unfold at_end in He5. rewrite He5, <- Hl6'.
      unfold len. rewrite Nat2Z.id. apply firstn_all. }
    rewrite Himage in Hsave.
    assert (He7 : at_end (mk_file (contents f6) (0 + len (contents f6)))).
    { unfold at_end. cbn [contents position]. lia. }
    destruct (write_at_end _ (sha256 (contents f6)) He7) as [Hc7 _].
    cbn [contents] in Hc7. rewrite Hc7 in Hsave. congruence.
  - rewrite app_nil_r. congruence.
Qed.



(** ** Loading an image of the ESP32 family that was saved *)

Lemma esp32_load_after_save
    (rom : rom_loader) (sha256 : bytes -> bytes) (self : firmware_image) (out : bytes) :
  ESP32FirmwareImage.save rom sha256 self = Ok out ->
  exists (image : bytes) (loaded : list ImageSegment.t) (header : firmware_image)
         (checksum : Z),
    out = image ++ (if append_digest self then sha256 image else []) /\
    0 <= Z.of_nat (length loaded) < 0x100 /\
    checksum = calculate_checksum loaded /\
    entrypoint header = entrypoint self /\
    flash_mode header = flash_mode self /\
    flash_size_freq header = flash_size_freq self /\
    wp_pin header = wp_pin self /\
    append_digest header = append_digest self /\
    segments header = [] /\
    ESP32FirmwareImage_load sha256 (mk_file out 0) =
      if Z.of_nat (length loaded) >? 16
      then Failed (InvalidSegmentCount (Z.of_nat (length loaded)))
      else Returned
             (with_segments header loaded, checksum,
              if append_digest self
              then Some (firstn 32 (sha256 image), sha256 image)
              else None).
Proof.
  intros Hsave.
  destruct (save_anatomy _ _ _ _ Hsave)
    as (rest6 & ext & body & w & ck & Hout & Hl6 & Hu0 & Hlx & Hext & Hbody
        & Hcount & Hck & Hckr).
  set (gap := 15 - (24 + len body) mod 16) in *.
  set (total := Z.of_nat (length w)) in *.
  pose proof (Z.mod_pos_bound (24 + len body) 16 ltac:(lia)) as Hm.
  pose proof (len_nonneg body) as Hb.
  set (hdr8 := xe9 :: chr total :: rest6).
  set (image := [xe9; chr total] ++ rest6 ++ ext ++ body ++ zeros gap ++ [chr ck]) in *.
  set (digest := if append_digest self then sha256 image else []) in *.
  assert (Hl8 : len hdr8 = 8).
  { subst hdr8. change (len (xe9 :: chr total :: rest6))
      with (Z.of_nat (S (S (length rest6)))). unfold len in Hl6. lia. }
  assert (Himg : image = hdr8 ++ ext ++ body ++ zeros gap ++ [chr ck]) by reflexivity.
  assert (Hlimg : len image = 24 + len body + gap + 1).
  { rewrite Himg, !len_app, len_zeros, Hl8, Hlx by (unfold gap; lia).
    change (len [chr ck]) with 1. lia. }
  (* the common header *)
  assert (H1 : load_common_header (mk_file out 0) ESPLoader.ESP_IMAGE_MAGIC =
               Returned (total, flash_mode self, flash_size_freq self,
                         entrypoint self, mk_file out 8)).
  { unfold load_common_header.
    assert (Hr : read (mk_file out 0) 8 = (hdr8, mk_file out 8)).
    { rewrite Hout, Himg, <- Hl8, <- !app_assoc.
      apply (read_at [] hdr8). }
    rewrite Hr. cbv beta iota. subst hdr8. rewrite Hu0. cbn [lift and_then].
    rewrite Z.eqb_refl, ord_chr by exact Hcount. reflexivity. }
  (* the extended header *)
  pose proof (Hext (ESP32FirmwareImage.init [] (entrypoint self) (flash_mode self)
                      (flash_size_freq self))
                hdr8 (body ++ zeros gap ++ [chr ck] ++ digest)) as H2.
  assert (Hout2 : hdr8 ++ ext ++ body ++ zeros gap ++ [chr ck] ++ digest = out).
  { rewrite Hout, Himg, <- !app_assoc. reflexivity. }
  rewrite Hout2, Hl8 in H2. change (8 + 16) with 24 in H2.
  match type of H2 with
  | _ = Returned (?h, _) => set (header := h) in *
  end.
  (* the segments *)
  destruct (load_holds w body (hdr8 ++ ext) (zeros gap ++ [chr ck] ++ digest) Hbody)
    as (loaded & H3 & Hmap & Hfold).
  assert (Hout3 : (hdr8 ++ ext) ++ body ++ zeros gap ++ [chr ck] ++ digest = out).
  { rewrite <- Hout2, <- !app_assoc. reflexivity. }
  assert (Hl24 : len (hdr8 ++ ext) = 24) by (rewrite len_app, Hl8, Hlx; reflexivity).
  rewrite Hout3, Hl24 in H3.
  assert (Hlen : length loaded = length w).
  { rewrite <- (length_map loaded_at loaded), Hmap, length_map. reflexivity. }
  (* the checksum *)
  pose proof (read_checksum_at (hdr8 ++ ext ++ body) digest (chr ck)) as H4.
  assert (Hl4 : len (hdr8 ++ ext ++ body) = 24 + len body).
  { rewrite !len_app, Hl8, Hlx. lia. }
  rewrite Hl4 in H4. fold gap in H4.
  assert (Hout4 : (hdr8 ++ ext ++ body) ++ zeros gap ++ [chr ck] ++ digest = out).
  { rewrite <- Hout2, <- !app_assoc. reflexivity. }
  rewrite Hout4, ord_chr in H4 by exact Hckr.
  replace (24 + len body + gap + 1) with (len image) in H4 by lia.
  exists image, loaded, header, ck.
  split; [exact Hout|].
  split; [rewrite Hlen; exact Hcount|].
  split; [unfold calculate_checksum; rewrite Hfold; exact Hck|].
  do 6 (split; [reflexivity|]).
  unfold ESP32FirmwareImage_load.
  rewrite H1. cbn [and_then]. rewrite H2. cbn [and_then].
  unfold total. rewrite Nat2Z.id, H3. cbn [and_then].
  rewrite H4. cbn [and_then].
  assert (Hseg : segments (with_segments header loaded) = loaded) by reflexivity.
  assert (Had : append_digest (with_segments header loaded) = append_digest self)
    by reflexivity.
  rewrite Hseg, Had. unfold verify. rewrite Hlen. fold total.
  subst digest. destruct (append_digest self).
  - assert (Hr1 : read (mk_file out (len image)) 32 =
                  (firstn 32 (sha256 image),
                   mk_file out (len image + len (firstn 32 (sha256 image))))).
    { rewrite Hout. apply (read_from image (sha256 image) 32). }
    rewrite Hr1. cbv beta iota.
    assert (Hr2 : forall p,
               read (seek (mk_file out p) (tell (mk_file out 0)))
                 (tell (mk_file out (len image)) - tell (mk_file out 0)) =
               (image, mk_file out (0 + len image))).
    { intros p. unfold seek, tell. cbn [contents position].
      rewrite Z.sub_0_r, Hout. apply (read_at [] image (sha256 image)). }
    rewrite Hr2. cbv beta iota.
    destruct (total >? 16); reflexivity.
  - destruct (total >? 16); reflexivity.
Qed.

(** An image that [save] wrote for the ESP32 family, with a digest
    function that gives 32 bytes, loads back: the loader finds as many
    segments as the count in the header says, the entry point, the two
    flash bytes, the write-protect pin and the digest flag of the image
    saved; the checksum byte of the file is the checksum it calculates
    over the segments it loaded; and when a digest was appended, the
    digest stored in the file is the digest it calculates.  That holds
    up to 16 segments written, padding segments included; with more,
    the loader refuses the image for its segment count. *)
Theorem esp32_image_loads_as_saved :
  forall (rom : rom_loader) (sha256 : bytes -> bytes)
         (self : firmware_image) (out : bytes),
    (forall m, len (sha256 m) = 32) ->
    ESP32FirmwareImage.save rom sha256 self = Ok out ->
    exists count : Z,
      0 <= count < 0x100 /\
      if count >? 16
      then ESP32FirmwareImage_load sha256 (mk_file out 0) =
           Failed (InvalidSegmentCount count)
      else exists (image : firmware_image) (checksum : Z)
                  (digests : option (bytes * bytes)),
          ESP32FirmwareImage_load sha256 (mk_file out 0) =
            Returned (image, checksum, digests) /\
          Z.of_nat (length (segments image)) = count /\
          entrypoint image = entrypoint self /\
          flash_mode image = flash_mode self /\
          flash_size_freq image = flash_size_freq self /\
          wp_pin image = wp_pin self /\
          append_digest image = append_digest self /\
          checksum = calculate_checksum (segments image) /\
          if append_digest self
          then exists stored, digests = Some (stored, stored) /\ len stored = 32
          else digests = None.
Proof.
  intros rom sha256 self out Hsha Hsave.
  destruct (esp32_load_after_save _ _ _ _ Hsave)
    as (bytes_of_image & loaded & header & ck & _ & Hcount & Hck & He & Hfm & Hsf
        & Hwp & Had & Hseg & Hload).
  exists (Z.of_nat (length loaded)). split; [exact Hcount|].
  rewrite Hload.
  destruct (Z.of_nat (length loaded) >? 16); [reflexivity|].
  eexists _, ck, _. split; [reflexivity|].
  assert (Hsegs : segments (with_segments header loaded) = loaded).
  { unfold with_segments. cbn [segments]. rewrite Hseg. reflexivity. }
  rewrite Hsegs.
  cbn [with_segments entrypoint flash_mode flash_size_freq wp_pin append_digest].
  do 6 (split; [assumption || reflexivity|]).
  split; [exact Hck|].
  destruct (append_digest self); [|reflexivity].
  exists (sha256 bytes_of_image). split; [|apply Hsha].
  rewrite firstn_all2; [reflexivity|].
  pose proof (Hsha bytes_of_image) as Hl. unfold len in Hl. lia.
Qed.

Lemma esp32_image_loads_as_saved_witness :
  exists count : Z,
    0 <= count < 0x100 /\
    if count >? 16
    then ESP32FirmwareImage_load stand_in_sha256 (mk_file small_image_saved 0) =
         Failed (InvalidSegmentCount count)
    else exists (image : firmware_image) (checksum : Z)
                (digests : option (bytes * bytes)),
        ESP32FirmwareImage_load stand_in_sha256 (mk_file small_image_saved 0) =
          Returned (image, checksum, digests) /\
        Z.of_nat (length (segments image)) = count /\
        entrypoint image = entrypoint small_image /\
        flash_mode image = flash_mode small_image /\
        flash_size_freq image = flash_size_freq small_image /\
        wp_pin image = wp_pin small_image /\
        append_digest image = append_digest small_image /\
        checksum = calculate_checksum (segments image) /\
        if append_digest small_image
        then exists stored, digests = Some (stored, stored) /\ len stored = 32
        else digests = None.
Proof.
  apply (esp32_image_loads_as_saved ESP32ROM stand_in_sha256 small_image
           small_image_saved).
  - intros m. reflexivity.
  - vm_compute. reflexivity.
Defined.

(** ** Merging adjacent segments *)

Lemma place_app (d1 d2 : bytes) :
  forall a, place a (d1 ++ d2) = place a d1 ++ place (a + len d1) d2.
Proof.
  induction d1 as [|b d1 IH]; intros a.
  - cbn [app place]. change (len []) with 0. rewrite Z.add_0_r. reflexivity.
  - cbn [app place]. rewrite IH. do 3 f_equal.
    unfold len. cbn [length]. lia.
Qed.

Lemma can_merge_spec
    (MEMORY_MAP : list (Z * Z * String.string)) (elem next_elem : ImageSegment.t) :
  can_merge MEMORY_MAP elem next_elem = true ->
  get_memory_type MEMORY_MAP elem = get_memory_type MEMORY_MAP next_elem /\
  ImageSegment.include_in_checksum elem = ImageSegment.include_in_checksum next_elem /\
  ImageSegment.addr next_elem = ImageSegment.addr elem + len (ImageSegment.data elem).
Proof.
  unfold can_merge. intros H.
  apply andb_true_iff in H. destruct H as [H Haddr].
  apply andb_true_iff in H. destruct H as [Htype Hincl].
  destruct (list_eq_dec _ _ _) as [Heq|]; [|discriminate].
  apply Bool.eqb_prop in Hincl. apply Z.eqb_eq in Haddr. auto.
Qed.

Lemma merge_loop_head
    (MEMORY_MAP : list (Z * Z * String.string)) (elem : ImageSegment.t)
    (rest : list ImageSegment.t) :
  exists elem' segments,
    merge_loop MEMORY_MAP (elem :: rest) = elem' :: segments /\
    ImageSegment.addr elem' = ImageSegment.addr elem /\
    ImageSegment.include_in_checksum elem' = ImageSegment.include_in_checksum elem.
Proof.
  cbn [merge_loop]. destruct (merge_loop MEMORY_MAP rest) as [|n segments].
  - exists elem, []. auto.
  - destruct (can_merge MEMORY_MAP elem n).
    + exists (merged_with elem n), segments. auto.
    + exists elem, (n :: segments). auto.
Qed.

Lemma merge_loop_loads (MEMORY_MAP : list (Z * Z * String.string)) :
  forall segs, loads (merge_loop MEMORY_MAP segs) = loads segs.
Proof.
  induction segs as [|elem rest IH]; [reflexivity|].
  cbn [merge_loop]. unfold loads in *. cbn [flat_map]. rewrite <- IH.
  destruct (merge_loop MEMORY_MAP rest) as [|n segments]; [reflexivity|].
  destruct (can_merge MEMORY_MAP elem n) eqn:Hm; [|reflexivity].
  apply can_merge_spec in Hm. destruct Hm as (_ & _ & Haddr).
  cbn [flat_map merged_with ImageSegment.addr ImageSegment.data].
  rewrite place_app, <- Haddr, <- app_assoc. reflexivity.
Qed.

Lemma merge_loop_length (MEMORY_MAP : list (Z * Z * String.string)) :
  forall segs, (length (merge_loop MEMORY_MAP segs) <= length segs)%nat.
Proof.
  induction segs as [|elem rest IH]; [cbn; lia|].
  cbn [merge_loop]. destruct (merge_loop MEMORY_MAP rest) as [|n segments].
  - cbn [length]. lia.
  - destruct (can_merge MEMORY_MAP elem n); cbn [length] in *; lia.
Qed.

Lemma merge_loop_checksum (MEMORY_MAP : list (Z * Z * String.string)) :
  forall segs state,
    fold_left
      (fun checksum seg =>
         if ImageSegment.include_in_checksum seg
         then ESPLoader.checksum (ImageSegment.data seg) checksum
         else checksum) (merge_loop MEMORY_MAP segs) state =
    fold_left
      (fun checksum seg =>
         if ImageSegment.include_in_checksum seg
         then ESPLoader.checksum (ImageSegment.data seg) checksum
         else checksum) segs state.
Proof.
  induction segs as [|elem rest IH]; intros state; [reflexivity|].
  cbn [merge_loop fold_left]. rewrite <- IH.
  destruct (merge_loop MEMORY_MAP rest) as [|n segments]; [reflexivity|].
  destruct (can_merge MEMORY_MAP elem n) eqn:Hm; [|reflexivity].
  apply can_merge_spec in Hm. destruct Hm as (_ & Hincl & _).
  cbn [fold_left merged_with ImageSegment.include_in_checksum ImageSegment.data].
  rewrite <- Hincl.
  destruct (ImageSegment.include_in_checksum elem); [|reflexivity].
  rewrite checksum_app. reflexivity.
Qed.

Lemma can_merge_merged
    (MEMORY_MAP : list (Z * Z * String.string)) (elem n x : ImageSegment.t) :
  can_merge MEMORY_MAP elem n = true ->
  can_merge MEMORY_MAP (merged_with elem n) x = can_merge MEMORY_MAP n x.
Proof.
  intros Hm. apply can_merge_spec in Hm. destruct Hm as (Htype & Hincl & Haddr).
  unfold can_merge.
  change (get_memory_type MEMORY_MAP (merged_with elem n))
    with (get_memory_type MEMORY_MAP elem).
  cbn [merged_with ImageSegment.include_in_checksum ImageSegment.addr ImageSegment.data].
  rewrite Htype, Hincl, len_app, Haddr, Z.add_assoc. reflexivity.
Qed.

Lemma merge_loop_again (MEMORY_MAP : list (Z * Z * String.string)) :
  forall segs,
    merge_loop MEMORY_MAP (merge_loop MEMORY_MAP segs) = merge_loop MEMORY_MAP segs.
Proof.
  induction segs as [|elem rest IH]; [reflexivity|].
  cbn [merge_loop].
  destruct (merge_loop MEMORY_MAP rest) as [|n segments] eqn:Hrest; [reflexivity|].
  (* what [IH] says of [segments] *)
  assert (Hsettled :
    merge_loop MEMORY_MAP segments = segments /\
    match segments with
    | [] => True
    | x :: _ => can_merge MEMORY_MAP n x = false
    end).
  { cbn [merge_loop] in IH.
    pose proof (merge_loop_length MEMORY_MAP segments) as Hlen.
    destruct (merge_loop MEMORY_MAP segments) as [|x others] eqn:Hs.
    - assert (Hnil : segments = []) by congruence. subst segments. auto.
    - destruct (can_merge MEMORY_MAP n x) eqn:Hnx.
      + assert (Heq : others = segments) by congruence. subst others.
        cbn [length] in Hlen. lia.
      + assert (Heq : x :: others = segments) by congruence. subst segments. auto. }
  destruct Hsettled as [Hsame Hnext].
  destruct (can_merge MEMORY_MAP elem n) eqn:Hm.
  - cbn [merge_loop]. rewrite Hsame.
    destruct segments as [|x others]; [reflexivity|].
    rewrite (can_merge_merged _ _ _ _ Hm), Hnext. reflexivity.
  - change (merge_loop MEMORY_MAP (elem :: n :: segments))
      with (match merge_loop MEMORY_MAP (n :: segments) with
            | [] => [elem]
            | next_elem :: others =>
                if can_merge MEMORY_MAP elem next_elem
                then merged_with elem next_elem :: others
                else elem :: next_elem :: others
            end).
    rewrite IH, Hm. reflexivity.
Qed.

(** Merging adjacent segments changes nothing of what the image loads:
    every byte stays at its load address, in the same order, and the
    checksum of the image is the same.  The list does not grow, its
    first segment keeps its address, and merging once more changes
    nothing. *)
Theorem merging_keeps_what_is_loaded :
  forall (MEMORY_MAP : list (Z * Z * String.string)) (segments : list ImageSegment.t),
    loads (merge_adjacent_segments MEMORY_MAP segments) = loads segments /\
    calculate_checksum (merge_adjacent_segments MEMORY_MAP segments) =
      calculate_checksum segments /\
    (length (merge_adjacent_segments MEMORY_MAP segments) <= length segments)%nat /\
    map ImageSegment.addr (firstn 1 (merge_adjacent_segments MEMORY_MAP segments)) =
      map ImageSegment.addr (firstn 1 segments) /\
    merge_adjacent_segments MEMORY_MAP (merge_adjacent_segments MEMORY_MAP segments) =
      merge_adjacent_segments MEMORY_MAP segments.
Proof.
  intros MEMORY_MAP segments.
  assert (Hsame : merge_adjacent_segments MEMORY_MAP segments =
                  merge_loop MEMORY_MAP segments).
  { destruct segments; reflexivity. }
  assert (Hsame' : forall l, merge_adjacent_segments MEMORY_MAP l =
                             merge_loop MEMORY_MAP l).
  { intros l. destruct l; reflexivity. }
  rewrite !Hsame'.
  split; [apply merge_loop_loads|].
  split; [unfold calculate_checksum; apply merge_loop_checksum|].
  split; [apply merge_loop_length|].
  split; [|apply merge_loop_again].
  destruct segments as [|elem rest]; [reflexivity|].
  destruct (merge_loop_head MEMORY_MAP elem rest) as (elem' & others & Heq & Haddr & _).
  rewrite Heq. cbn [firstn map]. rewrite Haddr. reflexivity.
Qed.

(** ** Flash segments and 64KB pages *)









(** ** The version 2 image of the ESP8266 *)

Lemma land_top_bit (crc : Z) :
  0 <= crc < 0x100000000 ->
  (Z.land crc 0x80000000 =? 0) = (crc <? 0x80000000).
Proof.
  intros Hr.
  destruct (Z.ltb_spec crc 0x80000000) as [Hlt|Hge].
  - apply Z.eqb_eq. apply Z.bits_inj'. intros n Hn.
    rewrite Z.land_spec, Z.bits_0.
    change 0x80000000 with (2 ^ 31). rewrite Z.pow2_bits_eqb by lia.
    destruct (Z.eqb_spec 31 n) as [<-|]; [|apply andb_false_r].
    rewrite andb_true_r.
    destruct (Z.eq_dec crc 0) as [->|Hnz]; [apply Z.bits_0|].
    apply Z.bits_above_log2; [lia|].
    apply Z.log2_lt_pow2; lia.
  - apply Z.eqb_neq. intros Hz.
    assert (Hbit : Z.testbit (Z.land crc 0x80000000) 31 = true).
    { rewrite Z.land_spec. change 0x80000000 with (2 ^ 31).
      rewrite Z.pow2_bits_eqb, Z.eqb_refl, andb_true_r by lia.
      apply Z.testbit_true; [lia|].
      change (2 ^ 31) with 2147483648.
      assert (crc / 2147483648 = 1) by (Z.div_mod_to_equations; lia).
      rewrite H. reflexivity. }
    rewrite Hz, Z.bits_0 in Hbit. discriminate.
Qed.

Lemma lxor_all_ones (crc : Z) :
  0 <= crc < 0x100000000 -> Z.lxor crc 0xFFFFFFFF = 0xFFFFFFFF - crc.
Proof.
  intros Hr.
  assert (Hdisjoint : Z.land crc (Z.lxor crc 0xFFFFFFFF) = 0).
  { apply Z.bits_inj'. intros n Hn.
    rewrite Z.land_spec, Z.lxor_spec, Z.bits_0.
    change 0xFFFFFFFF with (Z.ones 32).
    destruct (Z.ltb_spec n 32) as [Hlow|Hhigh].
    - rewrite Z.ones_spec_low by lia. destruct (Z.testbit crc n); reflexivity.
    - assert (Hcrc : Z.testbit crc n = false).
      { destruct (Z.eq_dec crc 0) as [->|Hnz]; [apply Z.bits_0|].
        apply Z.bits_above_log2; [lia|].
        apply Z.lt_le_trans with 32; [|exact Hhigh].
        apply Z.log2_lt_pow2; lia. }
      rewrite Hcrc. reflexivity. }
  pose proof (Z.add_nocarry_lxor _ _ Hdisjoint) as Hadd.
  rewrite <- Z.lxor_assoc, Z.lxor_nilpotent, Z.lxor_0_l in Hadd. lia.
Qed.

(** The CRC that [save] appends to a version 2 image: with [c] the
    CRC-32 of the file as an unsigned 32-bit number, it is [c + 1] when
    the top bit of [c] is clear and [0xFFFFFFFF - c] when it is set; so
    it never exceeds [0x80000000], and packing it as [<I] cannot fail. *)
Theorem esp8266_crc32_value :
  forall (crc32 : bytes -> Z -> Z) (data : bytes),
    esp8266_crc32 crc32 data =
      (if crc32 data 0 mod 0x100000000 <? 0x80000000
       then crc32 data 0 mod 0x100000000 + 1
       else 0xFFFFFFFF - crc32 data 0 mod 0x100000000) /\
    0 <= esp8266_crc32 crc32 data <= 0x80000000 /\
    exists packed,
      pack_I (esp8266_crc32 crc32 data) = Ok packed /\ len packed = 4.
Proof.
  intros crc32 data.
  assert (Hvalue :
    esp8266_crc32 crc32 data =
      (if crc32 data 0 mod 0x100000000 <? 0x80000000
       then crc32 data 0 mod 0x100000000 + 1
       else 0xFFFFFFFF - crc32 data 0 mod 0x100000000)).
  { assert (Hland : Z.land (crc32 data 0) 0xFFFFFFFF = crc32 data 0 mod 0x100000000).
    { change 0xFFFFFFFF with (Z.ones 32). rewrite Z.land_ones by lia. reflexivity. }
    unfold esp8266_crc32. cbv zeta. rewrite !Hland. clear Hland.
    pose proof (Z.mod_pos_bound (crc32 data 0) 0x100000000 ltac:(lia)) as Hr.
    set (crc := crc32 data 0 mod 0x100000000) in *.
    rewrite (land_top_bit crc Hr).
    destruct (crc <? 0x80000000); cbn [negb]; [reflexivity|].
    apply lxor_all_ones. exact Hr. }
  assert (Hrange : 0 <= esp8266_crc32 crc32 data <= 0x80000000).
  { rewrite Hvalue.
    pose proof (Z.mod_pos_bound (crc32 data 0) 0x100000000 ltac:(lia)) as Hr.
    destruct (Z.ltb_spec (crc32 data 0 mod 0x100000000) 0x80000000); lia. }
  split; [exact Hvalue|]. split; [exact Hrange|].
  unfold pack_I.
  assert (Hin : in_range (esp8266_crc32 crc32 data) 0x100000000 = true)
    by (apply in_range_spec; lia).
  rewrite Hin. eexists. split; reflexivity.
Qed.

Lemma common_header_appended
    (self : firmware_image) (segs : list ImageSegment.t) (f f' : file) :
  at_end f ->
  BaseFirmwareImage.write_common_header self f segs = Ok f' ->
  exists header,
    contents f' = contents f ++ header /\ at_end f' /\ len header = 8 /\
    unpack_BBBBI header =
      Ok (ESPLoader.ESP_IMAGE_MAGIC, Z.of_nat (length segs),
          flash_mode self, flash_size_freq self, entrypoint self).
Proof.
  intros Hend. unfold BaseFirmwareImage.write_common_header.
  destruct (pack_B ESPLoader.ESP_IMAGE_MAGIC) as [m|] eqn:Hm; cbn [bind]; [|discriminate].
  destruct (pack_B (Z.of_nat (length segs))) as [c|] eqn:Hc; cbn [bind]; [|discriminate].
  destruct (pack_B (flash_mode self)) as [fm|] eqn:Hfm; cbn [bind]; [|discriminate].
  destruct (pack_B (flash_size_freq self)) as [sf|] eqn:Hsf; cbn [bind]; [|discriminate].
  destruct (pack_I (entrypoint self)) as [e|] eqn:He; cbn [bind]; [|discriminate].
  intros H. assert (Hf' : f' = write f (m ++ c ++ fm ++ sf ++ e)) by congruence.
  clear H. subst f'.
  destruct (write_at_end f (m ++ c ++ fm ++ sf ++ e) Hend) as [Hcont Hend'].
  exists (m ++ c ++ fm ++ sf ++ e).
  split; [exact Hcont|]. split; [exact Hend'|].
  apply pack_B_value in Hm. destruct Hm as [Hm ->].
  apply pack_B_value in Hc. destruct Hc as [Hc ->].
  apply pack_B_value in Hfm. destruct Hfm as [Hfm ->].
  apply pack_B_value in Hsf. destruct Hsf as [Hsf ->].
  apply pack_I_value in He. destruct He as (He & Hle & Hve).
  apply (len_is 4) in Hle.
  destruct e as [|e0 [|e1 [|e2 [|e3 [|]]]]]; try discriminate.
  split; [reflexivity|].
  cbn [app unpack_BBBBI]. rewrite !ord_chr by assumption. rewrite Hve. reflexivity.
Qed.

Lemma unpack_pack_BBBBI (a b c d e : Z) (h : bytes) :
  pack_BBBBI a b c d e = Ok h ->
  len h = 8 /\ unpack_BBBBI h = Ok (a, b, c, d, e).
Proof.
  unfold pack_BBBBI.
  destruct (pack_B a) as [x|] eqn:Ha; cbn [bind]; [|discriminate].
  destruct (pack_B b) as [y|] eqn:Hb; cbn [bind]; [|discriminate].
  destruct (pack_B c) as [z|] eqn:Hc; cbn [bind]; [|discriminate].
  destruct (pack_B d) as [w|] eqn:Hd; cbn [bind]; [|discriminate].
  destruct (pack_I e) as [v|] eqn:He; cbn [bind]; [|discriminate].
  intros H. assert (Hh : h = x ++ y ++ z ++ w ++ v) by congruence. subst h. clear H.
  apply pack_B_value in Ha. destruct Ha as [Ha ->].
  apply pack_B_value in Hb. destruct Hb as [Hb ->].
  apply pack_B_value in Hc. destruct Hc as [Hc ->].
  apply pack_B_value in Hd. destruct Hd as [Hd ->].
  apply pack_I_value in He. destruct He as (He & Hlv & Hvv).
  apply (len_is 4) in Hlv.
  destruct v as [|v0 [|v1 [|v2 [|v3 [|]]]]]; try discriminate.
  split; [reflexivity|].
  cbn [app unpack_BBBBI]. rewrite !ord_chr by assumption. rewrite Hvv. reflexivity.
Qed.

(** A version 2 image that [save] wrote for an image object with a
    segment in IROM and no digest to patch in loads back: first the
    IROM segment, at address 0, with its data padded with zero bytes to
    a multiple of 16 and left out of the checksum, then the other
    segments as in a version 1 image, with the entry point and flash
    bytes of the second header and a checksum that is the one
    calculated over what was loaded.  The four bytes of the CRC at the
    end are not read.  That holds up to 16 segments in all; with more,
    the loader refuses the image. *)
Theorem v2_image_loads_as_saved :
  forall (crc32 : bytes -> Z -> Z) (self : firmware_image) (out : bytes)
         (irom : ImageSegment.t) (normal : list ImageSegment.t),
    elf_sha256_offset self = 0 ->
    ESP8266V2FirmwareImage_save crc32 self = Ok out ->
    BaseFirmwareImage.get_irom_segment self = Ok (Some irom) ->
    BaseFirmwareImage.get_non_irom_segments self = Ok normal ->
    if Z.of_nat (length (irom :: normal)) >? 16
    then ESP8266V2FirmwareImage_load (mk_file out 0) =
         Failed (InvalidSegmentCount (Z.of_nat (length (irom :: normal))))
    else exists (image : firmware_image) (checksum : Z)
                (first : ImageSegment.t) (rest : list ImageSegment.t),
        ESP8266V2FirmwareImage_load (mk_file out 0) = Returned (image, checksum) /\
        entrypoint image = entrypoint self /\
        flash_mode image = flash_mode self /\
        flash_size_freq image = flash_size_freq self /\
        segments image = first :: rest /\
        ImageSegment.addr first = 0 /\
        ImageSegment.data first = pad_to (ImageSegment.data irom) 16 x00 /\
        ImageSegment.include_in_checksum first = false /\
        map loaded_at rest =
          map (fun s => loaded_at (ImageSegment.init (ImageSegment.addr s)
                                     (ImageSegment.data s) None)) normal /\
        checksum = calculate_checksum (segments image) /\
        len out mod 16 = 4.
Proof.
  intros crc32 self out irom normal Ho Hsave Hirom Hnormal.
  assert (Ho' : elf_sha256_offset self < BaseFirmwareImage.SEG_HEADER_LEN).
  { rewrite Ho. reflexivity. }
  unfold ESP8266V2FirmwareImage_save in Hsave.
  destruct (pack_BBBBI _ _ _ _ _) as [h1|] eqn:Hh1; cbn [bind] in Hsave; [|discriminate].
  rewrite Hirom in Hsave. cbn [bind] in Hsave.
  set (irom' := pad_to_alignment (copy_with_new_addr irom 0) 16) in *.
  destruct (BaseFirmwareImage.save_segment self (write new_file h1) irom' 0)
    as [[f1 ignored]|] eqn:Hs1; cbn [bind] in Hsave; [|discriminate].
  rewrite Hnormal in Hsave. cbn [bind] in Hsave.
  destruct (BaseFirmwareImage.write_common_header self f1 normal) as [f2|] eqn:Hh2;
    cbn [bind] in Hsave; [|discriminate].
  destruct (ESP8266ROMFirmwareImage.save_segments self f2 normal
              ESPLoader.ESP_CHECKSUM_MAGIC) as [[f3 ck]|] eqn:Hsegs;
    cbn [bind] in Hsave; [|discriminate].
  destruct (BaseFirmwareImage.append_checksum f3 ck) as [f4|] eqn:Happ;
    cbn [bind] in Hsave; [|discriminate].
  destruct (pack_I (esp8266_crc32 crc32 (contents f4))) as [crc|] eqn:Hcrc;
    cbn [bind] in Hsave; [|discriminate].
  assert (Hout : out = contents f4 ++ crc) by congruence. clear Hsave.
  (* what was written *)
  destruct (unpack_pack_BBBBI _ _ _ _ _ _ Hh1) as [Hl1 Hu1].
  destruct (write_at_end new_file h1 eq_refl) as [Hc0 He0].
  cbn [new_file contents app] in Hc0.
  set (f0 := write new_file h1) in *.
  assert (Hp0 : position f0 = 8).
  { unfold at_end in He0. rewrite He0, Hc0. exact Hl1. }
  assert (Hp0' : BaseFirmwareImage.SEG_HEADER_LEN <= position f0).
  { rewrite Hp0. unfold BaseFirmwareImage.SEG_HEADER_LEN. lia. }
  destruct (save_segment_unpatched _ _ _ _ _ _ Ho' Hp0' He0 Hs1)
    as (hI & HpackI & Hc1 & He1 & Hp1 & _).
  change (ImageSegment.addr irom') with 0 in HpackI.
  change (ImageSegment.data irom') with (pad_to (ImageSegment.data irom) 16 x00)
    in HpackI, Hc1, Hp1.
  set (dI := pad_to (ImageSegment.data irom) 16 x00) in *.
  destruct (common_header_appended _ _ _ _ He1 Hh2) as (h2 & Hc2 & He2 & Hl2 & Hu2).
  assert (Hp2' : BaseFirmwareImage.SEG_HEADER_LEN <= position f2).
  { unfold at_end in He2. rewrite He2, Hc2, len_app, Hl2.
    pose proof (len_nonneg (contents f1)).
    unfold BaseFirmwareImage.SEG_HEADER_LEN. lia. }
  destruct (load_segments_after_save self Ho' _ _ _ _ _ Hp2' He2 Hsegs)
    as (He3 & Hck & body & Hc3 & Hload).
  destruct (append_checksum_at_end _ _ _ He3 Happ) as (Hc4 & _ & Hmod).
  pose proof (Z.mod_pos_bound (len (contents f3)) 16 ltac:(lia)) as Hm.
  set (gap := 15 - len (contents f3) mod 16) in *.
  assert (Hckr : 0 <= ck < 0x100).
  { unfold BaseFirmwareImage.append_checksum in Happ.
    destruct (pack_B ck) as [b|] eqn:Hb; [|discriminate].
    apply pack_B_value in Hb. tauto. }
  destruct (Hload (zeros gap ++ [chr ck] ++ crc)) as (loaded & Hl & Hmap & Hfold).
  assert (Hall : contents f3 ++ zeros gap ++ [chr ck] ++ crc = out).
  { rewrite Hout, Hc4, <- !app_assoc. reflexivity. }
  rewrite Hall in Hl.
  assert (Hlen : length loaded = length normal).
  { rewrite <- (length_map loaded_at loaded), Hmap, length_map. reflexivity. }
  (* the first header *)
  assert (Hout1 : out = h1 ++ hI ++ dI ++ h2 ++ body ++ zeros gap ++ [chr ck] ++ crc).
  { rewrite <- Hall, Hc3, Hc2, Hc1, Hc0, <- !app_assoc. reflexivity. }
  assert (H1 : load_common_header (mk_file out 0) ESPBOOTLOADER.IMAGE_V2_MAGIC =
               Returned (ESPBOOTLOADER.IMAGE_V2_SEGMENT, flash_mode self,
                         flash_size_freq self, entrypoint self, mk_file out 8)).
  { unfold load_common_header.
    assert (Hr : read (mk_file out 0) 8 = (h1, mk_file out 8)).
    { rewrite Hout1, <- Hl1. apply (read_at [] h1). }
    rewrite Hr. cbv beta iota. rewrite Hu1. cbn [lift and_then].
    rewrite Z.eqb_refl. reflexivity. }
  (* the segment in IROM *)
  pose proof (load_segment_at h1 hI dI (h2 ++ body ++ zeros gap ++ [chr ck] ++ crc)
                0 HpackI) as H2.
  rewrite <- Hout1, Hl1 in H2.
  (* the second header *)
  assert (H3 : load_common_header (mk_file out (8 + 8 + len dI))
                 ESPLoader.ESP_IMAGE_MAGIC =
               Returned (Z.of_nat (length normal), flash_mode self,
                         flash_size_freq self, entrypoint self,
                         mk_file out (position f2))).
  { unfold load_common_header.
    assert (Hr : read (mk_file out (8 + 8 + len dI)) 8 =
                 (h2, mk_file out (position f2))).
    { assert (Hpre : len (h1 ++ hI ++ dI) = 8 + 8 + len dI).
      { rewrite !len_app, Hl1, (pack_II_len _ _ _ HpackI). lia. }
      assert (Hp2 : position f2 = len (h1 ++ hI ++ dI) + len h2).
      { unfold at_end in He2. rewrite He2, Hc2, Hc1, Hc0, !len_app. lia. }
      rewrite Hp2, <- Hpre, <- Hl2 at 1.
      replace out with ((h1 ++ hI ++ dI) ++ h2 ++ body ++ zeros gap ++ [chr ck] ++ crc)
        by (rewrite Hout1, <- !app_assoc; reflexivity).
      apply read_at. }
    rewrite Hr. cbv beta iota. rewrite Hu2. cbn [lift and_then].
    rewrite Z.eqb_refl. reflexivity. }
  (* the checksum *)
  pose proof (read_checksum_at (contents f3) crc (chr ck)) as H5.
  fold gap in H5. rewrite Hall, ord_chr in H5 by exact Hckr.
  unfold at_end in He3. rewrite <- He3 in H5.
  (* the loader *)
  unfold ESP8266V2FirmwareImage_load.
  rewrite H1. cbn [and_then]. rewrite H2. cbn [and_then].
  rewrite H3. cbn [and_then]. rewrite Nat2Z.id, Hl. cbn [and_then].
  rewrite H5. cbn [and_then].
  unfold verify. cbn [length]. rewrite Hlen.
  destruct (Z.of_nat (S (length normal)) >? 16); cbn [and_then]; [reflexivity|].
  eexists _, ck, _, loaded. split; [reflexivity|].
  cbn [ESP8266ROMFirmwareImage.init entrypoint flash_mode flash_size_freq segments
       ImageSegment.addr ImageSegment.data ImageSegment.include_in_checksum
       ImageSegment.init].
  do 7 (split; [reflexivity|]).
  split; [exact Hmap|]. split.
  - unfold calculate_checksum. cbn [fold_left ImageSegment.include_in_checksum].
    rewrite Hfold. exact Hck.
  - rewrite Hout, len_app.
    pose proof (pack_I_len _ _ Hcrc) as Hl4. rewrite Hl4.
    Z.div_mod_to_equations. lia.
Qed.

Lemma v2_image_loads_as_saved_witness :
  exists (image : firmware_image) (checksum : Z)
         (first : ImageSegment.t) (rest : list ImageSegment.t),
    ESP8266V2FirmwareImage_load (mk_file three_segment_image_v2_saved 0) =
      Returned (image, checksum) /\
    entrypoint image = 0x40100004 /\
    flash_mode image = 0x02 /\
    flash_size_freq image = 0x20 /\
    segments image = first :: rest /\
    ImageSegment.addr first = 0 /\
    ImageSegment.data first = [xaa; xbb; xcc; xdd] ++ zeros 12 /\
    ImageSegment.include_in_checksum first = false /\
    map loaded_at rest =
      [(0x40100000, [x01; x02; x03; x00]);
       (0x3ffe8000, [x05; x06; x07; x08; x09; x0a; x0b; x0c])] /\
    checksum = calculate_checksum (segments image) /\
    len three_segment_image_v2_saved mod 16 = 4.
Proof.
  exact (v2_image_loads_as_saved stand_in_crc32 three_segment_image
           three_segment_image_v2_saved
           (ImageSegment.init 0x40210000 [xaa; xbb; xcc; xdd] None)
           [ImageSegment.init 0x40100000 [x01; x02; x03] None;
            ImageSegment.init 0x3ffe8000
              [x05; x06; x07; x08; x09; x0a; x0b; x0c] None]
           eq_refl eq_refl eq_refl eq_refl).
Defined.

(** ** Updating the flash parameters of an image *)

Lemma bytes_eqb_eq (a : bytes) : forall b, bytes_eqb a b = true -> a = b.
Proof.
  induction a as [|x a IH]; intros [|y b] H; cbn [bytes_eqb] in H;
    try discriminate; [reflexivity|].
  apply andb_true_iff in H. destruct H as [Hxy Hab].
  apply Byte.byte_dec_bl in Hxy. rewrite Hxy, (IH b Hab). reflexivity.
Qed.

Lemma slice_nonneg (s : bytes) (i j : Z) :
  0 <= i -> 0 <= j ->
  slice s i j = skipn (Z.to_nat i) (firstn (Z.to_nat j) s).
Proof.
  intros Hi Hj.
  pose proof (slice_to_firstn s j Hj) as Hto. unfold slice_to in Hto.
  unfold slice. rewrite Hto. unfold slice_bound.
  replace (i <? 0) with false by (symmetry; apply Z.ltb_ge; lia).
  destruct (Z.le_ge_cases i (len s)) as [Hle|Hge].
  - rewrite Z.min_l by lia. reflexivity.
  - rewrite Z.min_r by lia.
    rewrite !skipn_all2; [reflexivity| |];
      rewrite length_firstn; unfold len in *; lia.
Qed.

Lemma update_flash_params_cases
    (OFFSET : Z) (SIZES : list (String.string * Z)) (LOADER : file -> outcome unit)
    (address : Z) (args : flash_args) (b0 b1 b2 b3 : byte) (rest : bytes) :
  (4 <= length rest)%nat ->
  _update_image_flash_params OFFSET SIZES LOADER address args
    (b0 :: b1 :: b2 :: b3 :: rest) =
  if negb (address =? OFFSET) then Returned (b0 :: b1 :: b2 :: b3 :: rest)
  else
    if keeps_all args then Returned (b0 :: b1 :: b2 :: b3 :: rest)
    else
      if negb (ord b0 =? ESPLoader.ESP_IMAGE_MAGIC)
      then Returned (b0 :: b1 :: b2 :: b3 :: rest)
      else
        match LOADER (mk_file (b0 :: b1 :: b2 :: b3 :: rest) 0) with
        | Failed _ => Returned (b0 :: b1 :: b2 :: b3 :: rest)
        | Returned _ =>
            let* flash_size :=
              match args_flash_size args with
              | flash_size_keep => Returned (Z.land (ord b3) 0xF0)
              | flash_size_named name => parse_flash_size_arg SIZES name
              end in
            let* flash_params :=
              lift (pack_Bs
                      [match args_flash_mode args with
                       | flash_mode_keep => ord b2
                       | qio => 0 | qout => 1 | dio => 2 | dout => 3
                       end;
                       flash_size +
                       match args_flash_freq args with
                       | flash_freq_keep => Z.land (ord b3) 0x0F
                       | freq_40m => 0 | freq_26m => 1 | freq_20m => 2
                       | freq_80m => 0xf
                       end]) in
            if negb (bytes_eqb flash_params [b2; b3])
            then Returned (b0 :: b1 :: flash_params ++ rest)
            else Returned (b0 :: b1 :: b2 :: b3 :: rest)
        end.
Proof.
  intros Hrest. set (image := b0 :: b1 :: b2 :: b3 :: rest).
  assert (Hlen : len image = 4 + len rest).
  { unfold image, len. cbn [length]. lia. }
  assert (H4 : slice_to image 4 = [b0; b1; b2; b3]).
  { rewrite slice_to_firstn by lia. reflexivity. }
  assert (H24 : slice image 2 4 = [b2; b3]).
  { rewrite slice_nonneg by lia. reflexivity. }
  assert (H02 : slice image 0 2 = [b0; b1]).
  { rewrite slice_nonneg by lia. reflexivity. }
  assert (Hfrom : slice_from image 4 = rest).
  { rewrite slice_from_skipn by lia. reflexivity. }
  unfold _update_image_flash_params.
  replace (len image <? 8) with false
    by (symmetry; apply Z.ltb_ge; unfold len in *; lia).
  rewrite H4, H24, H02, Hfrom.
  destruct (negb (address =? OFFSET)); [reflexivity|].
  destruct args as [m f s]; destruct m, f, s; reflexivity.
Qed.

Lemma keeps_all_spec (args : flash_args) :
  keeps_all args = true <->
  args = mk_flash_args flash_mode_keep flash_freq_keep flash_size_keep.
Proof.
  destruct args as [m f s]; destruct m, f, s; cbn; split; congruence.
Qed.

(** [_update_image_flash_params] rewrites at most the third and fourth
    byte of an image: what it returns has the length of the image, its
    first two bytes and everything from the fifth on, any appended
    digest included.  It returns the image itself when the image is
    shorter than 8 bytes, when the address is not the bootloader
    offset, when all three arguments are [keep], when the first byte is
    not [0xE9], and when loading the image as a bootloader image
    raises.  Otherwise the third byte becomes the flash mode asked for
    and the fourth the sum of size and frequency, each taken from the
    image where the argument is [keep]. *)
Theorem update_flash_params_rewrites_two_bytes :
  forall (OFFSET : Z) (SIZES : list (String.string * Z))
         (LOADER : file -> outcome unit)
         (address : Z) (args : flash_args) (image out : bytes),
    _update_image_flash_params OFFSET SIZES LOADER address args image =
      Returned out ->
    len out = len image /\
    slice_to out 2 = slice_to image 2 /\
    slice_from out 4 = slice_from image 4 /\
    (len image < 8 \/ address <> OFFSET \/
     args = mk_flash_args flash_mode_keep flash_freq_keep flash_size_keep \/
     slice_to image 1 <> [xe9] \/
     (exists raised, LOADER (mk_file image 0) = Failed raised) ->
     out = image) /\
    (8 <= len image -> address = OFFSET ->
     args <> mk_flash_args flash_mode_keep flash_freq_keep flash_size_keep ->
     slice_to image 1 = [xe9] ->
     (exists loaded, LOADER (mk_file image 0) = Returned loaded) ->
     exists (b2 b3 : byte) (flash_size : Z),
       slice image 2 4 = [b2; b3] /\
       match args_flash_size args with
       | flash_size_keep => flash_size = Z.land (ord b3) 0xF0
       | flash_size_named name =>
           parse_flash_size_arg SIZES name = Returned flash_size
       end /\
       slice out 2 4 =
         [chr (match args_flash_mode args with
               | flash_mode_keep => ord b2
               | qio => 0 | qout => 1 | dio => 2 | dout => 3
               end);
          chr (flash_size +
               match args_flash_freq args with
               | flash_freq_keep => Z.land (ord b3) 0x0F
               | freq_40m => 0 | freq_26m => 1 | freq_20m => 2 | freq_80m => 0xf
               end)]).
Proof.
  intros OFFSET SIZES LOADER address args image out Hupdate.
  (* nothing is done *)
  assert (Hsame : out = image ->
    (len image < 8 \/ address <> OFFSET \/
     args = mk_flash_args flash_mode_keep flash_freq_keep flash_size_keep \/
     slice_to image 1 <> [xe9] \/
     (exists raised, LOADER (mk_file image 0) = Failed raised)) ->
    len out = len image /\
    slice_to out 2 = slice_to image 2 /\
    slice_from out 4 = slice_from image 4 /\
    (len image < 8 \/ address <> OFFSET \/
     args = mk_flash_args flash_mode_keep flash_freq_keep flash_size_keep \/
     slice_to image 1 <> [xe9] \/
     (exists raised, LOADER (mk_file image 0) = Failed raised) ->
     out = image) /\
    (8 <= len image -> address = OFFSET ->
     args <> mk_flash_args flash_mode_keep flash_freq_keep flash_size_keep ->
     slice_to image 1 = [xe9] ->
     (exists loaded, LOADER (mk_file image 0) = Returned loaded) ->
     exists (b2 b3 : byte) (flash_size : Z),
       slice image 2 4 = [b2; b3] /\
       match args_flash_size args with
       | flash_size_keep => flash_size = Z.land (ord b3) 0xF0
       | flash_size_named name =>
           parse_flash_size_arg SIZES name = Returned flash_size
       end /\
       slice out 2 4 =
         [chr (match args_flash_mode args with
               | flash_mode_keep => ord b2
               | qio => 0 | qout => 1 | dio => 2 | dout => 3
               end);
          chr (flash_size +
               match args_flash_freq args with
               | flash_freq_keep => Z.land (ord b3) 0x0F
               | freq_40m => 0 | freq_26m => 1 | freq_20m => 2 | freq_80m => 0xf
               end)])).
  { intros -> Hwhy. do 3 (split; [reflexivity|]). split; [reflexivity|].
    intros H8 Haddr Hargs Hmagic [loaded Hloaded].
    destruct Hwhy as [H|[H|[H|[H|[raised H]]]]]; try contradiction; try lia.
    congruence. }
  destruct (Z.ltb_spec (len image) 8) as [Hshort|Hlong].
  { apply Hsame; [|left; exact Hshort].
    unfold _update_image_flash_params in Hupdate.
    replace (len image <? 8) with true in Hupdate
      by (symmetry; apply Z.ltb_lt; exact Hshort).
    congruence. }
  destruct image as [|b0 [|b1 [|b2 [|b3 rest]]]];
    try (unfold len in Hlong; cbn [length] in Hlong; lia).
  assert (Hrest : (4 <= length rest)%nat).
  { unfold len in Hlong. cbn [length] in Hlong. lia. }
  set (image := b0 :: b1 :: b2 :: b3 :: rest) in *.
  assert (Hlen : len image = 4 + len rest).
  { unfold image, len. cbn [length]. lia. }
  assert (H1 : slice_to image 1 = [b0]).
  { rewrite slice_to_firstn by lia. reflexivity. }
  assert (H24 : slice image 2 4 = [b2; b3]).
  { rewrite slice_nonneg by lia. reflexivity. }
  unfold image in Hupdate.
  rewrite (update_flash_params_cases _ _ _ _ _ _ _ _ _ _ Hrest) in Hupdate.
  fold image in Hupdate.
  destruct (Z.eqb_spec address OFFSET) as [Haddr|Haddr]; cbn [negb] in Hupdate.
  2: { apply Hsame; [congruence|]. right. left. exact Haddr. }
  destruct (keeps_all args) eqn:Hkeep.
  { apply Hsame; [congruence|]. right. right. left.
    apply keeps_all_spec. exact Hkeep. }
  destruct (Z.eqb_spec (ord b0) ESPLoader.ESP_IMAGE_MAGIC) as [Hmagic|Hmagic];
    cbn [negb] in Hupdate.
  2: { apply Hsame; [congruence|]. right. right. right. left.
       rewrite H1. intros Heq. apply Hmagic.
       assert (Hb0 : b0 = xe9) by congruence. rewrite Hb0. reflexivity. }
  destruct (LOADER (mk_file image 0)) as [loaded|raised] eqn:Hload.
  2: { apply Hsame; [congruence|]. right. right. right. right.
       exists raised. reflexivity. }
  (* the two bytes are set *)
  destruct (match args_flash_size args with
            | flash_size_keep => Returned (Z.land (ord b3) 0xF0)
            | flash_size_named name => parse_flash_size_arg SIZES name
            end) as [flash_size|] eqn:Hsize; cbn [and_then] in Hupdate;
    [|discriminate].
  match type of Hupdate with
  | context [pack_Bs ?l] => destruct (pack_Bs l) as [params|] eqn:Hpack
  end; cbn [lift and_then] in Hupdate; [|discriminate].
  apply pack_Bs_value in Hpack. destruct Hpack as [Hparams _].
  cbn [map] in Hparams.
  assert (Hout : out = b0 :: b1 :: params ++ rest).
  { destruct (bytes_eqb params [b2; b3]) eqn:Heq; cbn [negb] in Hupdate.
    - apply bytes_eqb_eq in Heq. rewrite Heq. cbn [app].
      unfold image in Hupdate. congruence.
    - congruence. }
  rewrite Hparams in Hout. cbn [app] in Hout.
  assert (Hb0 : b0 = xe9).
  { rewrite <- (chr_ord b0), Hmagic. reflexivity. }
  assert (Hlo : len out = 4 + len rest).
  { rewrite Hout. unfold len. cbn [length]. lia. }
  split; [rewrite Hlo, Hlen; reflexivity|].
  split.
  { rewrite !slice_to_firstn by lia. rewrite Hout. reflexivity. }
  split.
  { rewrite !slice_from_skipn by lia. rewrite Hout. reflexivity. }
  split.
  { intros [H|[H|[H|[H|[r H]]]]].
    - lia.
    - contradiction.
    - apply keeps_all_spec in H. congruence.
    - exfalso. apply H. rewrite H1, Hb0. reflexivity.
    - congruence. }
  intros _ _ _ _ _.
  exists b2, b3, flash_size. split; [exact H24|]. split.
  - destruct (args_flash_size args); [congruence|exact Hsize].
  - rewrite slice_nonneg by lia. rewrite Hout. reflexivity.
Qed.

Lemma update_flash_params_rewrites_two_bytes_witness :
  exists out,
    _update_image_flash_params ESP8266ROM_BOOTLOADER_FLASH_OFFSET
      FlashSizes.ESP8266ROM_FLASH_SIZES ESP8266ROM_BOOTLOADER_IMAGE 0
      (mk_flash_args qio freq_80m (flash_size_named FlashSizes.size_4MB))
      three_segment_image_saved = Returned out /\
    slice out 0 4 = [xe9; x02; x00; x4f] /\
    len out = len three_segment_image_saved /\
    slice_to out 2 = slice_to three_segment_image_saved 2 /\
    slice_from out 4 = slice_from three_segment_image_saved 4.
Proof.
  eexists. split; [vm_compute; reflexivity|].
  split; [vm_compute; reflexivity|].
  match goal with
  | |- len ?o = _ /\ _ =>
      destruct (update_flash_params_rewrites_two_bytes
                  ESP8266ROM_BOOTLOADER_FLASH_OFFSET
                  FlashSizes.ESP8266ROM_FLASH_SIZES ESP8266ROM_BOOTLOADER_IMAGE 0
                  (mk_flash_args qio freq_80m (flash_size_named FlashSizes.size_4MB))
                  three_segment_image_saved o)
        as (Hlen & Hto & Hfrom & _)
  end.
  - vm_compute. reflexivity.
  - split; [exact Hlen|]. split; [exact Hto|exact Hfrom].
Defined.
